(** * MediScript Pro prescription canvas: history stack and page collection

    A shallow embedding of [static/js/prescription.js] (the class
    [PrescriptionCanvas]) together with the properties of its undo/redo
    history, its page collection and its tool table.

    Conventions of the embedding.
    - JavaScript numbers that hold indices and sizes are integers ([Z]);
      opacities, line widths and colour channels are exact rationals ([Qc]).
    - A canvas is its 2D context: the drawing attributes, the current path
      and the backing bitmap.  The bitmap is a row-major list of
      premultiplied RGBA pixels composited as the Canvas 2D specification
      prescribes (Porter-Duff [source-over] and [destination-out]), with
      exact arithmetic instead of 8-bit channels.
    - The shape of a stroked path or of a piece of text (which pixels it
      covers, and how much of each) is the browser's business: it is the
      field [rasterize] of the record [Browser] the drawing methods take.
    - [new Image(); img.onload = ...; img.src = url] starts a decode whose
      callback runs later, on the same thread.  The decodes in flight are
      the field [loading]; the event [ImageLoaded i] runs the callback of
      the [i]-th of them.  [FileReader.onload] is the event [FileRead].
    - [showNotification] replaces the one notification element of the page;
      the field [notification] is its message and type. *)

From Stdlib Require Import ZArith QArith Qcanon Lia Ascii String.
From stdpp Require Import base list numbers strings pretty gmap.

Local Open Scope Z_scope.

(** ** Pixels and compositing *)

Record Pixel := mkPixel { red : Qc; green : Qc; blue : Qc; alpha : Qc }.

Definition Bitmap := list Pixel.

(** A CSS colour without transparency, as ['white'] or ['#000000']. *)
Record Color := rgb { cred : Qc; cgreen : Qc; cblue : Qc }.

Definition white : Color := rgb 1 1 1.
Definition black : Color := rgb 0 0 0.

Definition solid (c : Color) : Pixel := mkPixel (cred c) (cgreen c) (cblue c) 1.
Definition transparent : Pixel := mkPixel 0 0 0 0.

Definition scale (k : Qc) (p : Pixel) : Pixel :=
  mkPixel (k * red p) (k * green p) (k * blue p) (k * alpha p).

Inductive CompositeOp := SourceOver | DestinationOut.

(** [composite op src dst]: one pixel of source drawn onto one pixel of
    destination, both premultiplied. *)
Definition composite (op : CompositeOp) (src dst : Pixel) : Pixel :=
  let keep := (1 - alpha src)%Qc in
  match op with
  | SourceOver =>
      mkPixel (red src + keep * red dst) (green src + keep * green dst)
              (blue src + keep * blue dst) (alpha src + keep * alpha dst)
  | DestinationOut =>
      mkPixel (keep * red dst) (keep * green dst) (keep * blue dst) (keep * alpha dst)
  end.

(** ** The 2D context *)

Inductive LineCap := CapButt | CapRound.
Inductive LineJoin := JoinMiter | JoinRound.
Inductive TextAlign := AlignStart | AlignCenter.

Record Font := mkFont { font_px : Z; font_family : string }.

Definition Point : Type := Qc * Qc.

Inductive PathSeg :=
| MoveTo (p : Point)
| LineTo (p : Point)
| Arc (centre : Point) (radius : Qc).   (* a full circle, 0 to 2 * Math.PI *)

(** What the browser is asked to rasterise. *)
Inductive Shape :=
| StrokePath (path : list PathSeg) (width : Qc) (cap : LineCap) (join : LineJoin)
| FillText (f : Font) (align : TextAlign) (text : string) (at_ : Point).

Record Context := mkContext {
  globalCompositeOperation : CompositeOp;
  globalAlpha : Qc;
  strokeStyle : Color;
  fillStyle : Color;
  lineWidth : Qc;
  lineCap : LineCap;
  lineJoin : LineJoin;
  font : Font;
  textAlign : TextAlign;
  path : list PathSeg;
  bitmap : Bitmap
}.

Definition set_globalCompositeOperation (v : CompositeOp) (c : Context) : Context :=
  mkContext v (globalAlpha c) (strokeStyle c) (fillStyle c) (lineWidth c) (lineCap c)
            (lineJoin c) (font c) (textAlign c) (path c) (bitmap c).
Definition set_globalAlpha (v : Qc) (c : Context) : Context :=
  mkContext (globalCompositeOperation c) v (strokeStyle c) (fillStyle c) (lineWidth c)
            (lineCap c) (lineJoin c) (font c) (textAlign c) (path c) (bitmap c).
Definition set_strokeStyle (v : Color) (c : Context) : Context :=
  mkContext (globalCompositeOperation c) (globalAlpha c) v (fillStyle c) (lineWidth c)
            (lineCap c) (lineJoin c) (font c) (textAlign c) (path c) (bitmap c).
Definition set_fillStyle (v : Color) (c : Context) : Context :=
  mkContext (globalCompositeOperation c) (globalAlpha c) (strokeStyle c) v (lineWidth c)
            (lineCap c) (lineJoin c) (font c) (textAlign c) (path c) (bitmap c).
Definition set_lineWidth (v : Qc) (c : Context) : Context :=
  mkContext (globalCompositeOperation c) (globalAlpha c) (strokeStyle c) (fillStyle c) v
            (lineCap c) (lineJoin c) (font c) (textAlign c) (path c) (bitmap c).
Definition set_lineCap (v : LineCap) (c : Context) : Context :=
  mkContext (globalCompositeOperation c) (globalAlpha c) (strokeStyle c) (fillStyle c)
            (lineWidth c) v (lineJoin c) (font c) (textAlign c) (path c) (bitmap c).
Definition set_lineJoin (v : LineJoin) (c : Context) : Context :=
  mkContext (globalCompositeOperation c) (globalAlpha c) (strokeStyle c) (fillStyle c)
            (lineWidth c) (lineCap c) v (font c) (textAlign c) (path c) (bitmap c).
Definition set_font (v : Font) (c : Context) : Context :=
  mkContext (globalCompositeOperation c) (globalAlpha c) (strokeStyle c) (fillStyle c)
            (lineWidth c) (lineCap c) (lineJoin c) v (textAlign c) (path c) (bitmap c).
Definition set_textAlign (v : TextAlign) (c : Context) : Context :=
  mkContext (globalCompositeOperation c) (globalAlpha c) (strokeStyle c) (fillStyle c)
            (lineWidth c) (lineCap c) (lineJoin c) (font c) v (path c) (bitmap c).
Definition set_path (v : list PathSeg) (c : Context) : Context :=
  mkContext (globalCompositeOperation c) (globalAlpha c) (strokeStyle c) (fillStyle c)
            (lineWidth c) (lineCap c) (lineJoin c) (font c) (textAlign c) v (bitmap c).
Definition set_bitmap (v : Bitmap) (c : Context) : Context :=
  mkContext (globalCompositeOperation c) (globalAlpha c) (strokeStyle c) (fillStyle c)
            (lineWidth c) (lineCap c) (lineJoin c) (font c) (textAlign c) (path c) v.

(** A canvas of [n] pixels as [document.getElementById] hands it over:
    transparent black, default attributes, empty path. *)
Definition freshContext (n : nat) : Context :=
  mkContext SourceOver 1 black black 1 CapButt JoinMiter
            (mkFont 10 "sans-serif") AlignStart [] (replicate n transparent).

(** The source of a drawing operation: a colour at the context's opacity. *)
Definition ink (c : Context) (col : Color) : Pixel := scale (globalAlpha c) (solid col).

(** Paint [src] through a coverage mask; pixels the mask does not reach
    are left alone. *)
Fixpoint paint (op : CompositeOp) (src : Pixel) (mask : list Qc) (dst : Bitmap) : Bitmap :=
  match dst, mask with
  | d :: dst', k :: mask' => composite op (scale k src) d :: paint op src mask' dst'
  | _, _ => dst
  end.

(** [ctx.fillRect(0, 0, canvas.width, canvas.height)]: every pixel, fully covered. *)
Definition fillRect (c : Context) : Context :=
  set_bitmap (map (composite (globalCompositeOperation c) (ink c (fillStyle c))) (bitmap c)) c.

(** [ctx.drawImage(img, 0, 0)] for an image as large as the canvas. *)
Fixpoint blend (op : CompositeOp) (g : Qc) (img dst : Bitmap) : Bitmap :=
  match dst, img with
  | d :: dst', p :: img' => composite op (scale g p) d :: blend op g img' dst'
  | _, _ => dst
  end.

Definition drawImage (img : Bitmap) (c : Context) : Context :=
  set_bitmap (blend (globalCompositeOperation c) (globalAlpha c) img (bitmap c)) c.

Definition beginPath (c : Context) : Context := set_path [] c.
Definition moveTo (p : Point) (c : Context) : Context := set_path (path c ++ [MoveTo p]) c.
Definition lineTo (p : Point) (c : Context) : Context := set_path (path c ++ [LineTo p]) c.
Definition arc (centre : Point) (radius : Qc) (c : Context) : Context :=
  set_path (path c ++ [Arc centre radius]) c.

(** ** Strings held by [pages] and [history] *)

(** What an array slot of this program can hold: nothing (a read past the
    end), the result of [canvas.toDataURL()], or any other string, as [''] . *)
Inductive DataURL :=
| Undefined
| Text (s : string)
| Png (b : Bitmap).

Definition toDataURL (c : Context) : DataURL := Png (bitmap c).

(** JavaScript truthiness of such a value. *)
Definition truthy (u : DataURL) : bool :=
  match u with
  | Undefined => false
  | Text s => negb (String.eqb s "")
  | Png _ => true
  end.

Definition is_empty_string (u : DataURL) : bool :=
  match u with Text s => String.eqb s "" | _ => false end.

(** ** JavaScript arrays *)

Definition array_length {A} (l : list A) : Z := Z.of_nat (length l).

(** [l[i]] *)
Definition array_get (l : list DataURL) (i : Z) : DataURL :=
  if decide (0 ≤ i) then default Undefined (l !! Z.to_nat i) else Undefined.

(** [l[i] = v]: in range it overwrites, past the end it extends the array
    (leaving holes), and a negative [i] is not an element at all. *)
Definition array_set (l : list DataURL) (i : Z) (v : DataURL) : list DataURL :=
  if decide (i < 0) then l
  else if decide (i < array_length l) then <[Z.to_nat i := v]> l
  else l ++ replicate (Z.to_nat i - length l) Undefined ++ [v].

(** [l.splice(i, 1)]; a negative [i] counts from the end. *)
Definition splice1 (l : list DataURL) (i : Z) : list DataURL :=
  let start := if decide (i < 0) then Z.max (array_length l + i) 0 else i in
  delete (Z.to_nat start) l.

(** [l.length = n], for [n] below the length. *)
Definition truncate (l : list DataURL) (n : Z) : list DataURL := take (Z.to_nat n) l.

(** [l.shift()] *)
Definition shift (l : list DataURL) : list DataURL := drop 1 l.

(** ** Notifications *)

Inductive Level := LInfo | LSuccess | LWarning | LError.

Definition Notice : Type := string * Level.

(** The error taxonomy of the design document, as the messages the code shows. *)
Definition NothingToUndo : Notice := ("Nothing to undo", LWarning).
Definition NothingToRedo : Notice := ("Nothing to redo", LWarning).
Definition CannotDeleteLastPage : Notice := ("Cannot delete the last page", LWarning).
Definition AlreadyOnFirstPage : Notice := ("Already on first page", LWarning).
Definition AlreadyOnLastPage : Notice := ("Already on last page", LWarning).
Definition ImportParseFailure : Notice := ("Error loading prescription file", LError).
Definition PersistenceWriteFailure : Notice := ("Error saving signature", LError).

(** [toUpperCase] on one character of ASCII, the alphabet of the tool
    names the page passes: the letters a to z go to A to Z, every other
    character of ASCII stays.  Characters beyond ASCII, which
    [String.prototype.toUpperCase] maps by the Unicode tables, are outside
    this embedding; nothing below is stated about the text of a
    notification for such a name. *)
Definition toUpperCase (a : ascii) : ascii :=
  let n := nat_of_ascii a in
  if ((97 <=? n)%nat && (n <=? 122)%nat)%bool then ascii_of_nat (n - 32) else a.

(** [s.charAt(0).toUpperCase() + s.slice(1)] *)
Definition capitalize (s : string) : string :=
  match s with
  | EmptyString => EmptyString
  | String a rest => String (toUpperCase a) rest
  end.

(** ** The object *)

Inductive Target := Main | Signature.

Record PrescriptionCanvas := mkCanvas {
  ctx : Context;
  signatureCtx : Context;
  isDrawing : bool;
  currentTool : string;
  currentColor : Color;
  currentSize : Z;
  pages : list DataURL;
  currentPageIndex : Z;
  history : list DataURL;
  historyStep : Z;
  savedSignature : option DataURL;
  (* the page around the object *)
  form : gmap string string;            (* input elements by id, with their value *)
  storage : option DataURL;             (* localStorage, key mediscript_signature *)
  loading : list (Target * DataURL);    (* images decoding, oldest first *)
  notification : option Notice
}.

Definition set_ctx (v : Context) (s : PrescriptionCanvas) : PrescriptionCanvas :=
  mkCanvas v (signatureCtx s) (isDrawing s) (currentTool s) (currentColor s) (currentSize s)
           (pages s) (currentPageIndex s) (history s) (historyStep s) (savedSignature s)
           (form s) (storage s) (loading s) (notification s).
Definition set_signatureCtx (v : Context) (s : PrescriptionCanvas) : PrescriptionCanvas :=
  mkCanvas (ctx s) v (isDrawing s) (currentTool s) (currentColor s) (currentSize s)
           (pages s) (currentPageIndex s) (history s) (historyStep s) (savedSignature s)
           (form s) (storage s) (loading s) (notification s).
Definition set_isDrawing (v : bool) (s : PrescriptionCanvas) : PrescriptionCanvas :=
  mkCanvas (ctx s) (signatureCtx s) v (currentTool s) (currentColor s) (currentSize s)
           (pages s) (currentPageIndex s) (history s) (historyStep s) (savedSignature s)
           (form s) (storage s) (loading s) (notification s).
Definition set_currentTool (v : string) (s : PrescriptionCanvas) : PrescriptionCanvas :=
  mkCanvas (ctx s) (signatureCtx s) (isDrawing s) v (currentColor s) (currentSize s)
           (pages s) (currentPageIndex s) (history s) (historyStep s) (savedSignature s)
           (form s) (storage s) (loading s) (notification s).
Definition set_currentColor (v : Color) (s : PrescriptionCanvas) : PrescriptionCanvas :=
  mkCanvas (ctx s) (signatureCtx s) (isDrawing s) (currentTool s) v (currentSize s)
           (pages s) (currentPageIndex s) (history s) (historyStep s) (savedSignature s)
           (form s) (storage s) (loading s) (notification s).
Definition set_currentSize (v : Z) (s : PrescriptionCanvas) : PrescriptionCanvas :=
  mkCanvas (ctx s) (signatureCtx s) (isDrawing s) (currentTool s) (currentColor s) v
           (pages s) (currentPageIndex s) (history s) (historyStep s) (savedSignature s)
           (form s) (storage s) (loading s) (notification s).
Definition set_pages (v : list DataURL) (s : PrescriptionCanvas) : PrescriptionCanvas :=
  mkCanvas (ctx s) (signatureCtx s) (isDrawing s) (currentTool s) (currentColor s)
           (currentSize s) v (currentPageIndex s) (history s) (historyStep s)
           (savedSignature s) (form s) (storage s) (loading s) (notification s).
Definition set_currentPageIndex (v : Z) (s : PrescriptionCanvas) : PrescriptionCanvas :=
  mkCanvas (ctx s) (signatureCtx s) (isDrawing s) (currentTool s) (currentColor s)
           (currentSize s) (pages s) v (history s) (historyStep s)
           (savedSignature s) (form s) (storage s) (loading s) (notification s).
Definition set_history (v : list DataURL) (s : PrescriptionCanvas) : PrescriptionCanvas :=
  mkCanvas (ctx s) (signatureCtx s) (isDrawing s) (currentTool s) (currentColor s)
           (currentSize s) (pages s) (currentPageIndex s) v (historyStep s)
           (savedSignature s) (form s) (storage s) (loading s) (notification s).
Definition set_historyStep (v : Z) (s : PrescriptionCanvas) : PrescriptionCanvas :=
  mkCanvas (ctx s) (signatureCtx s) (isDrawing s) (currentTool s) (currentColor s)
           (currentSize s) (pages s) (currentPageIndex s) (history s) v
           (savedSignature s) (form s) (storage s) (loading s) (notification s).
Definition set_savedSignature (v : option DataURL) (s : PrescriptionCanvas) : PrescriptionCanvas :=
  mkCanvas (ctx s) (signatureCtx s) (isDrawing s) (currentTool s) (currentColor s)
           (currentSize s) (pages s) (currentPageIndex s) (history s) (historyStep s)
           v (form s) (storage s) (loading s) (notification s).
Definition set_form (v : gmap string string) (s : PrescriptionCanvas) : PrescriptionCanvas :=
  mkCanvas (ctx s) (signatureCtx s) (isDrawing s) (currentTool s) (currentColor s)
           (currentSize s) (pages s) (currentPageIndex s) (history s) (historyStep s)
           (savedSignature s) v (storage s) (loading s) (notification s).
Definition set_storage (v : option DataURL) (s : PrescriptionCanvas) : PrescriptionCanvas :=
  mkCanvas (ctx s) (signatureCtx s) (isDrawing s) (currentTool s) (currentColor s)
           (currentSize s) (pages s) (currentPageIndex s) (history s) (historyStep s)
           (savedSignature s) (form s) v (loading s) (notification s).
Definition set_loading (v : list (Target * DataURL)) (s : PrescriptionCanvas) : PrescriptionCanvas :=
  mkCanvas (ctx s) (signatureCtx s) (isDrawing s) (currentTool s) (currentColor s)
           (currentSize s) (pages s) (currentPageIndex s) (history s) (historyStep s)
           (savedSignature s) (form s) (storage s) v (notification s).
Definition set_notification (v : option Notice) (s : PrescriptionCanvas) : PrescriptionCanvas :=
  mkCanvas (ctx s) (signatureCtx s) (isDrawing s) (currentTool s) (currentColor s)
           (currentSize s) (pages s) (currentPageIndex s) (history s) (historyStep s)
           (savedSignature s) (form s) (storage s) (loading s) v.

(** The context a handler was registered with ([setupCanvasEvents]). *)
Definition context (t : Target) (s : PrescriptionCanvas) : Context :=
  match t with Main => ctx s | Signature => signatureCtx s end.

Definition set_context (t : Target) (v : Context) (s : PrescriptionCanvas) : PrescriptionCanvas :=
  match t with Main => set_ctx v s | Signature => set_signatureCtx v s end.

(** Run a sequence of context calls on one of the two contexts. *)
Definition on (t : Target) (f : Context → Context) (s : PrescriptionCanvas) : PrescriptionCanvas :=
  set_context t (f (context t s)) s.

Definition showNotification (message : string) (type : Level) (s : PrescriptionCanvas)
  : PrescriptionCanvas :=
  set_notification (Some (message, type)) s.

(** A file handed to [loadPrescription], once read and parsed. *)
Record PrescriptionData := mkData {
  data_pages : option (list DataURL);
  data_signature : option DataURL;
  data_doctorName : option string;
  data_clinicName : option string;
  data_patientName : option string;
  data_patientAge : option string;
  data_date : option string;
  data_time : option string
}.

Inductive FileContent :=
| Malformed                          (* JSON.parse throws, or yields null *)
| Document (data : PrescriptionData).

Record KeyEvent := mkKey {
  ctrlKey : bool; metaKey : bool; shiftKey : bool; altKey : bool; key : string
}.

(** ** The methods of [PrescriptionCanvas] *)

(** What the page and the browser contribute: the pixel dimensions of
    [#prescription-canvas] and [#signature-canvas], and the rasteriser,
    which gives, for a canvas of some width and height, the coverage of
    each pixel by a shape. *)
Record Browser := mkBrowser {
  width : nat;
  height : nat;
  sigWidth : nat;
  sigHeight : nat;
  rasterize : nat → nat → Shape → list Qc
}.

Definition canvasWidth (B : Browser) (t : Target) : nat :=
  match t with Main => width B | Signature => sigWidth B end.
Definition canvasHeight (B : Browser) (t : Target) : nat :=
  match t with Main => height B | Signature => sigHeight B end.

Definition stroke (B : Browser) (t : Target) (c : Context) : Context :=
  let mask := rasterize B (canvasWidth B t) (canvasHeight B t)
              (StrokePath (path c) (lineWidth c) (lineCap c) (lineJoin c)) in
  set_bitmap (paint (globalCompositeOperation c) (ink c (strokeStyle c)) mask (bitmap c)) c.

Definition fillText (B : Browser) (t : Target) (text : string) (p : Point) (c : Context)
  : Context :=
  let mask := rasterize B (canvasWidth B t) (canvasHeight B t)
              (FillText (font c) (textAlign c) text p) in
  set_bitmap (paint (globalCompositeOperation c) (ink c (fillStyle c)) mask (bitmap c)) c.

(** [ctx.fillStyle = 'white'; ctx.fillRect(0, 0, canvas.width, canvas.height)] *)
Definition fillWhite (c : Context) : Context := fillRect (set_fillStyle white c).

(** *** History *)

(** Lines 385-390 of [saveState]: advance the cursor, drop what lies
    beyond it, append the canvas and store it in the active page slot. *)
Definition recordState (s : PrescriptionCanvas) : PrescriptionCanvas :=
  let s := set_historyStep (historyStep s + 1) s in
  let s := if decide (historyStep s < array_length (history s))
           then set_history (truncate (history s) (historyStep s)) s else s in
  let s := set_history (history s ++ [toDataURL (ctx s)]) s in
  set_pages (array_set (pages s) (currentPageIndex s) (toDataURL (ctx s))) s.

(** Lines 392-396: limit history to prevent memory issues. *)
Definition limitHistory (s : PrescriptionCanvas) : PrescriptionCanvas :=
  if decide (array_length (history s) > 50)
  then set_historyStep (historyStep s - 1) (set_history (shift (history s)) s)
  else s.

Definition saveState (s : PrescriptionCanvas) : PrescriptionCanvas :=
  limitHistory (recordState s).

(** [loadCanvasState] only starts the decode; [canvasStateLoaded] is its
    [img.onload]. *)
Definition loadCanvasState (dataURL : DataURL) (s : PrescriptionCanvas) : PrescriptionCanvas :=
  set_loading (loading s ++ [(Main, dataURL)]) s.

Definition canvasStateLoaded (dataURL : DataURL) (img : Bitmap) (s : PrescriptionCanvas)
  : PrescriptionCanvas :=
  let s := on Main fillWhite s in
  let s := on Main (drawImage img) s in
  set_pages (array_set (pages s) (currentPageIndex s) dataURL) s.

(** The [img.onload] of [loadSavedSignature] and of [loadPrescription]. *)
Definition signatureLoaded (img : Bitmap) (s : PrescriptionCanvas) : PrescriptionCanvas :=
  let s := on Signature fillWhite s in
  on Signature (drawImage img) s.

(** The [i]-th decode in flight ends.  Only the data URL of an image
    decodes; for anything else [onload] never runs. *)
Definition imageLoaded (i : nat) (s : PrescriptionCanvas) : PrescriptionCanvas :=
  match loading s !! i with
  | None => s
  | Some (t, dataURL) =>
      let s := set_loading (delete i (loading s)) s in
      match dataURL, t with
      | Png img, Main => canvasStateLoaded dataURL img s
      | Png img, Signature => signatureLoaded img s
      | _, _ => s
      end
  end.

Definition undoLast (s : PrescriptionCanvas) : PrescriptionCanvas :=
  if decide (historyStep s > 0) then
    let s := set_historyStep (historyStep s - 1) s in
    let s := loadCanvasState (array_get (history s) (historyStep s)) s in
    showNotification "Undone" LInfo s
  else showNotification "Nothing to undo" LWarning s.

Definition redoLast (s : PrescriptionCanvas) : PrescriptionCanvas :=
  if decide (historyStep s < array_length (history s) - 1) then
    let s := set_historyStep (historyStep s + 1) s in
    let s := loadCanvasState (array_get (history s) (historyStep s)) s in
    showNotification "Redone" LInfo s
  else showNotification "Nothing to redo" LWarning s.

(** *** Drawing *)

Definition setDrawingProperties (s : PrescriptionCanvas) (context : Context) : Context :=
  let size := Q2Qc (inject_Z (currentSize s)) in
  let context :=
    if String.eqb (currentTool s) "pen" then
      let context := set_globalCompositeOperation SourceOver context in
      let context := set_globalAlpha 1 context in
      let context := set_strokeStyle (currentColor s) context in
      set_lineWidth size context
    else if String.eqb (currentTool s) "brush" then
      let context := set_globalCompositeOperation SourceOver context in
      let context := set_globalAlpha (Q2Qc 0.8) context in
      let context := set_strokeStyle (currentColor s) context in
      set_lineWidth (size * Q2Qc 1.5)%Qc context
    else if String.eqb (currentTool s) "highlighter" then
      let context := set_globalCompositeOperation SourceOver context in
      let context := set_globalAlpha (Q2Qc 0.3) context in
      let context := set_strokeStyle (currentColor s) context in
      set_lineWidth (size * Q2Qc 3)%Qc context
    else if String.eqb (currentTool s) "eraser" then
      let context := set_globalCompositeOperation DestinationOut context in
      let context := set_globalAlpha 1 context in
      set_lineWidth (size * Q2Qc 2)%Qc context
    else context in
  let context := set_lineCap CapRound context in
  set_lineJoin JoinRound context.

(** The mouse handlers take the position already mapped to canvas
    coordinates ([getCanvasCoordinates]). *)
Definition startDrawing (t : Target) (coords : Point) (s : PrescriptionCanvas)
  : PrescriptionCanvas :=
  let s := set_isDrawing true s in
  let s := on t beginPath s in
  let s := on t (moveTo coords) s in
  on t (setDrawingProperties s) s.

Definition draw (B : Browser) (t : Target) (coords : Point) (s : PrescriptionCanvas)
  : PrescriptionCanvas :=
  if isDrawing s then
    let s := on t (lineTo coords) s in
    on t (stroke B t) s
  else s.

Definition stopDrawing (t : Target) (s : PrescriptionCanvas) : PrescriptionCanvas :=
  if isDrawing s then
    let s := set_isDrawing false s in
    match t with Main => saveState s | Signature => s end
  else s.

Definition setTool (tool : string) (s : PrescriptionCanvas) : PrescriptionCanvas :=
  let s := set_currentTool tool s in
  let s := on Main (setDrawingProperties s) s in
  showNotification (capitalize tool +:+ " tool selected") LInfo s.

Definition setColor (color : Color) (s : PrescriptionCanvas) : PrescriptionCanvas :=
  set_currentColor color s.

Definition setSize (size : Z) (s : PrescriptionCanvas) : PrescriptionCanvas :=
  set_currentSize size s.

Definition clearCanvas (s : PrescriptionCanvas) : PrescriptionCanvas :=
  let s := on Main fillWhite s in
  let s := saveState s in
  showNotification "Canvas cleared" LInfo s.

Definition clearSignature (s : PrescriptionCanvas) : PrescriptionCanvas :=
  let s := on Signature fillWhite s in
  showNotification "Signature cleared" LInfo s.

Definition addText (B : Browser) (answer : option string) (s : PrescriptionCanvas)
  : PrescriptionCanvas :=
  match answer with
  | Some text =>
      if String.eqb text "" then s else
      let s := on Main (set_font (mkFont (currentSize s * 8) "Arial")) s in
      let s := on Main (set_fillStyle (currentColor s)) s in
      let s := on Main (fillText B Main text (Q2Qc 50, Q2Qc 50)) s in
      let s := saveState s in
      showNotification "Text added" LSuccess s
  | None => s
  end.

Definition addStamp (B : Browser) (s : PrescriptionCanvas) : PrescriptionCanvas :=
  let centre : Point := (Q2Qc (Z.of_nat (width B) # 2), Q2Qc (Z.of_nat (height B) # 2)) in
  let s := on Main beginPath s in
  let s := on Main (arc centre (Q2Qc 30)) s in
  let s := on Main (set_strokeStyle (currentColor s)) s in
  let s := on Main (set_lineWidth (Q2Qc 3)) s in
  let s := on Main (stroke B Main) s in
  let s := on Main (set_font (mkFont 12 "Arial")) s in
  let s := on Main (set_textAlign AlignCenter) s in
  let s := on Main (set_fillStyle (currentColor s)) s in
  let s := on Main (fillText B Main "APPROVED" centre) s in
  let s := saveState s in
  showNotification "Stamp added" LSuccess s.

(** *** Pages *)

Definition loadPage (pageIndex : Z) (s : PrescriptionCanvas) : PrescriptionCanvas :=
  if (truthy (array_get (pages s) pageIndex)
      && negb (is_empty_string (array_get (pages s) pageIndex)))%bool
  then loadCanvasState (array_get (pages s) pageIndex) s
  else
    let s := on Main fillWhite s in
    set_pages (array_set (pages s) pageIndex (toDataURL (ctx s))) s.

Definition addPage (s : PrescriptionCanvas) : PrescriptionCanvas :=
  let s := set_pages (pages s ++ [Text ""]) s in
  let s := set_currentPageIndex (array_length (pages s) - 1) s in
  let s := on Main fillWhite s in
  let s := saveState s in
  showNotification ("Page " +:+ pretty (currentPageIndex s + 1) +:+ " added") LSuccess s.

Definition deletePage (s : PrescriptionCanvas) : PrescriptionCanvas :=
  if decide (array_length (pages s) > 1) then
    let pageNum := currentPageIndex s + 1 in
    let s := set_pages (splice1 (pages s) (currentPageIndex s)) s in
    let s := if decide (currentPageIndex s >= array_length (pages s))
             then set_currentPageIndex (array_length (pages s) - 1) s else s in
    let s := loadPage (currentPageIndex s) s in
    showNotification ("Page " +:+ pretty pageNum +:+ " deleted") LInfo s
  else showNotification "Cannot delete the last page" LWarning s.

Definition previousPage (s : PrescriptionCanvas) : PrescriptionCanvas :=
  if decide (currentPageIndex s > 0) then
    let s := set_pages (array_set (pages s) (currentPageIndex s) (toDataURL (ctx s))) s in
    let s := set_currentPageIndex (currentPageIndex s - 1) s in
    loadPage (currentPageIndex s) s
  else showNotification "Already on first page" LWarning s.

Definition nextPage (s : PrescriptionCanvas) : PrescriptionCanvas :=
  if decide (currentPageIndex s < array_length (pages s) - 1) then
    let s := set_pages (array_set (pages s) (currentPageIndex s) (toDataURL (ctx s))) s in
    let s := set_currentPageIndex (currentPageIndex s + 1) s in
    loadPage (currentPageIndex s) s
  else showNotification "Already on last page" LWarning s.

(** *** Signature and files *)

(** [localStorage.setItem] throws when the quota is exceeded or storage
    is denied; [writable] says whether this write goes through. *)
Definition saveSignature (writable : bool) (s : PrescriptionCanvas) : PrescriptionCanvas :=
  let s := set_savedSignature (Some (toDataURL (signatureCtx s))) s in
  if writable then
    let s := set_storage (savedSignature s) s in
    showNotification "Signature saved" LSuccess s
  else showNotification "Error saving signature" LError s.

Definition loadSavedSignature (s : PrescriptionCanvas) : PrescriptionCanvas :=
  match storage s with
  | Some saved =>
      if truthy saved then
        let s := set_loading (loading s ++ [(Signature, saved)]) s in
        set_savedSignature (Some saved) s
      else s
  | None => s
  end.

(** The download itself leaves the object alone; what remains of
    [savePrescription] is the write of the signature and the message. *)
Definition savePrescription (writable : bool) (s : PrescriptionCanvas) : PrescriptionCanvas :=
  if writable then
    let s := set_storage (Some (toDataURL (signatureCtx s))) s in
    showNotification "Prescription saved successfully!" LSuccess s
  else showNotification "Error saving prescription" LError s.

(** [element ? element.value || defaultValue : defaultValue] *)
Definition getFormValue (elementId defaultValue : string) (s : PrescriptionCanvas) : string :=
  match form s !! elementId with
  | Some value => if String.eqb value "" then defaultValue else value
  | None => defaultValue
  end.

(** The object [savePrescription] builds, serialises and offers for
    download; [today] and [now] are the two strings cut out of
    [new Date()].  Its [timestamp] is left out: nothing reads it back.
    [JSON.stringify] writes a hole of [pages] as [null], which no test of
    this program tells from [undefined]. *)
Definition prescriptionData (today now : string) (s : PrescriptionCanvas) : PrescriptionData :=
  mkData (Some (pages s))
         (Some (toDataURL (signatureCtx s)))
         (Some (getFormValue "doctor-name" "Dr. Smith" s))
         (Some (getFormValue "clinic-name" "Medical Center" s))
         (Some (getFormValue "patient-name" "John Doe" s))
         (Some (getFormValue "patient-age" "35" s))
         (Some (getFormValue "prescription-date" today s))
         (Some (getFormValue "prescription-time" now s)).

(** [if (element && value) element.value = value] *)
Definition setFormValue (elementId : string) (value : option string) (s : PrescriptionCanvas)
  : PrescriptionCanvas :=
  match form s !! elementId, value with
  | Some _, Some v => if String.eqb v "" then s else set_form (<[elementId := v]> (form s)) s
  | _, _ => s
  end.

(** The [reader.onload] of [loadPrescription]. *)
Definition loadPrescription (file : FileContent) (s : PrescriptionCanvas) : PrescriptionCanvas :=
  match file with
  | Malformed => showNotification "Error loading prescription file" LError s
  | Document data =>
      let s := set_pages (default [] (data_pages data)) s in
      let s := set_currentPageIndex 0 s in
      let s := if decide (array_length (pages s) > 0) then loadPage 0 s else s in
      let s := setFormValue "doctor-name" (data_doctorName data) s in
      let s := setFormValue "clinic-name" (data_clinicName data) s in
      let s := setFormValue "patient-name" (data_patientName data) s in
      let s := setFormValue "patient-age" (data_patientAge data) s in
      let s := setFormValue "prescription-date" (data_date data) s in
      let s := setFormValue "prescription-time" (data_time data) s in
      let s := match data_signature data with
               | Some signature =>
                   if truthy signature
                   then set_loading (loading s ++ [(Signature, signature)]) s else s
               | None => s
               end in
      showNotification "Prescription loaded successfully!" LSuccess s
  end.

(** *** Construction *)

Definition setInput (elementId value : string) (s : PrescriptionCanvas) : PrescriptionCanvas :=
  match form s !! elementId with
  | Some _ => set_form (<[elementId := value]> (form s)) s
  | None => s
  end.

(** [date] and [time] are the two strings cut out of [new Date()]. *)
Definition initializeCanvas (date time : string) (s : PrescriptionCanvas) : PrescriptionCanvas :=
  let s := setInput "prescription-date" date s in
  let s := setInput "prescription-time" time s in
  let s := set_pages (pages s ++ [Text ""]) s in
  let s := saveState s in
  let s := on Main (set_lineCap CapRound) s in
  let s := on Main (set_lineJoin JoinRound) s in
  let s := on Signature (set_lineCap CapRound) s in
  let s := on Signature (set_lineJoin JoinRound) s in
  let s := on Main fillWhite s in
  on Signature fillWhite s.

(** [new PrescriptionCanvas()] in a page whose inputs are [dom] and whose
    local storage holds [saved] under the signature key. *)
Definition constructor (B : Browser) (dom : gmap string string) (date time : string)
  (saved : option DataURL) : PrescriptionCanvas :=
  let s := mkCanvas (freshContext (width B * height B)) (freshContext (sigWidth B * sigHeight B))
           false "pen" black 2 [] 0 [] (-1) None dom saved [] None in
  let s := initializeCanvas date time s in
  loadSavedSignature s.

(** *** Keyboard *)

Definition handleKeyboardShortcuts (e : KeyEvent) (writable : bool) (s : PrescriptionCanvas)
  : PrescriptionCanvas :=
  let cmd := (ctrlKey e || metaKey e)%bool in
  let s := if (cmd && String.eqb (key e) "z" && negb (shiftKey e))%bool then undoLast s else s in
  let s := if (cmd && String.eqb (key e) "z" && shiftKey e)%bool then redoLast s else s in
  let s := if (cmd && String.eqb (key e) "y")%bool then redoLast s else s in
  let s := if (cmd && String.eqb (key e) "s")%bool then savePrescription writable s else s in
  let s := if (String.eqb (key e) "ArrowLeft" && altKey e)%bool then previousPage s else s in
  let s := if (String.eqb (key e) "ArrowRight" && altKey e)%bool then nextPage s else s in
  let s := if (String.eqb (key e) "1" && altKey e)%bool then setTool "pen" s else s in
  let s := if (String.eqb (key e) "2" && altKey e)%bool then setTool "brush" s else s in
  let s := if (String.eqb (key e) "3" && altKey e)%bool then setTool "highlighter" s else s in
  if (String.eqb (key e) "4" && altKey e)%bool then setTool "eraser" s else s.

(** ** Events *)

(** Everything that can happen to the object once it is built: the mouse
    and touch handlers of the two canvases, the buttons and shortcuts of
    the page, and the two kinds of callback.  [printPrescription],
    [exportPDF], [exportAsImage] and the three zoom methods read the object
    and show a notification: they are the event [Announce].  [handleResize]
    and [showSizePreview] touch the style of the page only. *)
Inductive Event :=
| MouseDown (t : Target) (coords : Point)
| MouseMove (t : Target) (coords : Point)
| MouseUp (t : Target)                      (* also mouseout and touchend *)
| KeyDown (e : KeyEvent) (writable : bool)
| SetTool (tool : string)
| SetColor (color : Color)
| SetSize (size : Z)
| ClearCanvas
| ClearSignature
| Undo
| Redo
| AddText (answer : option string)
| AddStamp
| AddPage
| DeletePage
| PreviousPage
| NextPage
| SaveSignature (writable : bool)
| SavePrescription (writable : bool)
| FileRead (file : FileContent)
| ImageLoaded (i : nat)
| Announce (message : string) (type : Level).

Definition handle (B : Browser) (e : Event) (s : PrescriptionCanvas) : PrescriptionCanvas :=
  match e with
  | MouseDown t coords => startDrawing t coords s
  | MouseMove t coords => draw B t coords s
  | MouseUp t => stopDrawing t s
  | KeyDown e writable => handleKeyboardShortcuts e writable s
  | SetTool tool => setTool tool s
  | SetColor color => setColor color s
  | SetSize size => setSize size s
  | ClearCanvas => clearCanvas s
  | ClearSignature => clearSignature s
  | Undo => undoLast s
  | Redo => redoLast s
  | AddText answer => addText B answer s
  | AddStamp => addStamp B s
  | AddPage => addPage s
  | DeletePage => deletePage s
  | PreviousPage => previousPage s
  | NextPage => nextPage s
  | SaveSignature writable => saveSignature writable s
  | SavePrescription writable => savePrescription writable s
  | FileRead file => loadPrescription file s
  | ImageLoaded i => imageLoaded i s
  | Announce message type => showNotification message type s
  end.

(** The events of a list, first to last. *)
Definition run (B : Browser) (events : list Event) (s : PrescriptionCanvas)
  : PrescriptionCanvas :=
  foldl (λ s e, handle B e s) s events.

(** Let every decode in flight finish, oldest first. *)
Definition settle (s : PrescriptionCanvas) : PrescriptionCanvas :=
  Nat.iter (length (loading s)) (imageLoaded 0) s.

(** One stroke on the prescription canvas: press, drag through [via], release. *)
Definition strokeEvents (from : Point) (via : list Point) : list Event :=
  MouseDown Main from :: map (MouseMove Main) via ++ [MouseUp Main].

(** ** Vocabulary of the properties *)

(** The history as the design document describes it: a cursor inside a
    stack of at most fifty snapshots. *)
Record history_wf (s : PrescriptionCanvas) : Prop := mkHistoryWf {
  cursor_in_range : 0 ≤ historyStep s < array_length (history s);
  history_bounded : array_length (history s) ≤ 50
}.

(** The page collection as the design document describes it: at least
    one page, and an active index that is one of its indices. *)
Record pages_wf (s : PrescriptionCanvas) : Prop := mkPagesWf {
  pages_nonempty : 1 ≤ array_length (pages s);
  index_in_range : 0 ≤ currentPageIndex s ≤ array_length (pages s) - 1
}.

(** No decode is in flight. *)
Definition quiet (s : PrescriptionCanvas) : Prop := loading s = [].

(** A context as the pen leaves it: full opacity, normal composition. *)
Definition penState (c : Context) : Prop :=
  globalCompositeOperation c = SourceOver ∧ globalAlpha c = 1%Qc.

Definition opaque (b : Bitmap) : Prop := Forall (λ p, alpha p = 1%Qc) b.

(** [b] is what [img] looks like on white paper. *)
Definition onWhite (img : Bitmap) (n : nat) : Bitmap :=
  blend SourceOver 1 img (replicate n (solid white)).

(** The canvas shows the picture stored under [u]. *)
Definition shows (c : Context) (u : DataURL) : Prop :=
  ∃ img, u = Png img ∧ bitmap c = onWhite img (length (bitmap c)).

(** A call and the end of the decode it started. *)
Definition undoSettled (s : PrescriptionCanvas) : PrescriptionCanvas := settle (undoLast s).
Definition redoSettled (s : PrescriptionCanvas) : PrescriptionCanvas := settle (redoLast s).

(** The object once built and once the saved signature, if any, is on
    its pad: one blank page, one snapshot in the history. *)
Definition initial (B : Browser) (dom : gmap string string) (date time : string)
  (saved : option DataURL) : PrescriptionCanvas :=
  settle (constructor B dom date time saved).

(** Strokes one after the other, each a start point and the points dragged through. *)
Definition strokesEvents (strokes : list (Point * list Point)) : list Event :=
  concat (map (λ st, strokeEvents st.1 st.2) strokes).

(** The round trip of the design document's testable properties, for the
    strokes of a list: every undo of as many undos as strokes succeeds and
    the last leaves the blank canvas; as many redos bring back the drawing. *)
Definition undoRedoRoundTrip (B : Browser) (s0 : PrescriptionCanvas)
  (strokes : list (Point * list Point)) : Prop :=
  let n := length strokes in
  let drawn := run B (strokesEvents strokes) s0 in
  (∀ k, (k < n)%nat →
     notification (undoLast (Nat.iter k undoSettled drawn)) = Some ("Undone", LInfo)) ∧
  bitmap (ctx (Nat.iter n undoSettled drawn)) = bitmap (ctx s0) ∧
  bitmap (ctx (Nat.iter n redoSettled (Nat.iter n undoSettled drawn))) = bitmap (ctx drawn).

(** An event that keeps the page list populated: anything but the reading
    of a document without pages. *)
Definition bringsPages (e : Event) : Prop :=
  match e with
  | FileRead (Document data) =>
      match data_pages data with Some (_ :: _) => True | _ => False end
  | _ => True
  end.

(** The tool table of the design document: composition, opacity and
    width multiplier of each tool. *)
Definition toolTable (tool : string) : option (CompositeOp * Qc * Qc) :=
  if String.eqb tool "pen" then Some (SourceOver, 1%Qc, 1%Qc)
  else if String.eqb tool "brush" then Some (SourceOver, Q2Qc 0.8, Q2Qc 1.5)
  else if String.eqb tool "highlighter" then Some (SourceOver, Q2Qc 0.3, Q2Qc 3)
  else if String.eqb tool "eraser" then Some (DestinationOut, 1%Qc, Q2Qc 2)
  else None.

(** [s'] is [x] with page [i] opened, as [loadPage] does it.  A slot with
    content is sent to the decoder, canvas and page list waiting for the
    end of the decode; when the slot holds a picture and nothing else is
    decoding, the end of the decode writes the slot back, and with the
    pen's context the canvas is then that picture on white.  A slot
    without content receives the snapshot of the canvas as the call
    leaves it, which with the pen's context is white all over. *)
Definition opens (x s' : PrescriptionCanvas) (i : Z) : Prop :=
  let slot := array_get (pages x) i in
  let n := length (bitmap (ctx x)) in
  currentPageIndex s' = i
  ∧ history s' = history x ∧ historyStep s' = historyStep x
  ∧ (if truthy slot
     then pages s' = pages x ∧ ctx s' = ctx x ∧ loading s' = loading x ++ [(Main, slot)]
     else pages s' = array_set (pages x) i (toDataURL (ctx s'))
          ∧ loading s' = loading x
          ∧ (penState (ctx x) → bitmap (ctx s') = replicate n (solid white)))
  ∧ (∀ img, slot = Png img → quiet x →
       pages (settle s') = array_set (pages x) i slot
       ∧ (penState (ctx x) → bitmap (ctx (settle s')) = onWhite img n)).

(** The object as [new PrescriptionCanvas()] leaves it. *)
Record built (B : Browser) (s : PrescriptionCanvas) : Prop := mkBuilt {
  built_history : history s = [Png (replicate (width B * height B) transparent)];
  built_historyStep : historyStep s = 0;
  built_pages : pages s = [Png (replicate (width B * height B) transparent)];
  built_index : currentPageIndex s = 0;
  built_bitmap : bitmap (ctx s) = replicate (width B * height B) (solid white);
  built_pen : penState (ctx s);
  built_tool : currentTool s = "pen";
  built_idle : isDrawing s = false;
  built_loading : ∀ u, (Main, u) ∉ loading s
}.

(** A snapshot of a canvas of [n] pixels. *)
Definition frame (n : nat) (u : DataURL) : Prop := ∃ img, u = Png img ∧ length img = n.

(** The prescription canvas between two gestures, the pen in hand: the
    context as the pen leaves it, an opaque bitmap of [n] pixels, no decode
    in flight, and a history of snapshots of that size. *)
Record steady (n : nat) (s : PrescriptionCanvas) : Prop := mkSteady {
  steady_pen : penState (ctx s);
  steady_size : length (bitmap (ctx s)) = n;
  steady_opaque : opaque (bitmap (ctx s));
  steady_tool : currentTool s = "pen";
  steady_quiet : quiet s;
  steady_frames : Forall (frame n) (history s)
}.

(** The canvas has [n] pixels and the history holds snapshots of that
    size. *)
Record sized (n : nat) (s : PrescriptionCanvas) : Prop := mkSized {
  sized_canvas : length (bitmap (ctx s)) = n;
  sized_history : Forall (frame n) (history s)
}.

(** A context operation that leaves the size of the bitmap alone. *)
Definition keeps_size (f : Context → Context) : Prop :=
  ∀ c, length (bitmap (f c)) = length (bitmap c).

(** The field of a document that [loadPrescription] hands to
    [setFormValue] for the input called [id]. *)
Definition documentField (id : string) (data : PrescriptionData) : option string :=
  if String.eqb id "doctor-name" then data_doctorName data
  else if String.eqb id "clinic-name" then data_clinicName data
  else if String.eqb id "patient-name" then data_patientName data
  else if String.eqb id "patient-age" then data_patientAge data
  else if String.eqb id "prescription-date" then data_date data
  else if String.eqb id "prescription-time" then data_time data
  else None.

(** The inputs [savePrescription] reads, each with the value it writes
    for an input that is missing or empty. *)
Definition formDefaults (today now : string) : list (string * string) :=
  [("doctor-name", "Dr. Smith"); ("clinic-name", "Medical Center");
   ("patient-name", "John Doe"); ("patient-age", "35");
   ("prescription-date", today); ("prescription-time", now)].

(** A context operation that leaves the text alignment alone. *)
Definition keeps_textAlign (f : Context → Context) : Prop :=
  ∀ c, textAlign (f c) = textAlign c.

(** The text alignment of the prescription canvas is [a]. *)
Record aligned (a : TextAlign) (s : PrescriptionCanvas) : Prop := mkAligned {
  aligned_ctx : textAlign (ctx s) = a
}.

(** ** A small page to compute on *)

Module Demo.

(** Two pixels on the prescription canvas, one on the signature pad; a
    stroke covers the first pixel, a text the second. *)
Definition raster (w h : nat) (shape : Shape) : list Qc :=
  match shape with
  | StrokePath _ _ _ _ => [1%Qc]
  | FillText _ _ _ _ => [0%Qc; 1%Qc]
  end.

Definition browser : Browser := mkBrowser 2 1 1 1 raster.

Definition start : PrescriptionCanvas := initial browser ∅ "2024-05-17" "09:30" None.

Definition aStroke : Point * list Point := ((0, 0)%Qc, [(1, 1)%Qc]).

(** Two strokes drawn, the second undone. *)
Definition undone : PrescriptionCanvas :=
  undoSettled (run browser (strokesEvents [aStroke; aStroke]) start).

(** Two strokes drawn with the pen, then the eraser picked. *)
Definition erasing : PrescriptionCanvas :=
  run browser (strokesEvents [aStroke; aStroke] ++ [SetTool "eraser"]) start.

(** Three pages, the second active. *)
Definition threePages : PrescriptionCanvas :=
  settle (run browser [AddPage; AddPage; PreviousPage] start).

(** Two strokes drawn with the pen, a second page added, then the eraser
    picked: the drawing is on the first page, the second is the active
    one. *)
Definition erasingOnSecondPage : PrescriptionCanvas :=
  run browser (strokesEvents [aStroke; aStroke] ++ [AddPage; SetTool "eraser"]) start.

(** A document of two pages, the second without content yet. *)
Definition twoSlots : PrescriptionData :=
  mkData (Some [Png [solid black; solid white]; Text ""]) None None None None None None None.

(** That document imported, its first page decoded, then the highlighter
    picked. *)
Definition highlighting : PrescriptionCanvas :=
  run browser [FileRead (Document twoSlots); ImageLoaded 0; SetTool "highlighter"] start.

Definition noPages : PrescriptionData := mkData (Some []) None None None None None None None.

Definition onePage : PrescriptionData :=
  mkData (Some [Text ""]) None (Some "Dr. Rao") None None None None None.

(** Two strokes drawn. *)
Definition drawn : PrescriptionCanvas :=
  run browser (strokesEvents [aStroke; aStroke]) start.

(** A document of one page, with a signature and two of the form fields,
    one of them empty. *)
Definition scan : PrescriptionData :=
  mkData (Some [Png [solid black; solid black]]) (Some (Png [solid black]))
         (Some "Dr. Rao") None (Some "") None None None.

End Demo.

(** ** Arrays *)

Lemma array_length_nonneg {A} (l : list A) : 0 ≤ array_length l.
Proof. unfold array_length. lia. Qed.

Lemma array_length_app {A} (l k : list A) :
  array_length (l ++ k) = array_length l + array_length k.
Proof. unfold array_length. rewrite length_app. lia. Qed.

Lemma array_length_truncate (l : list DataURL) (n : Z) :
  0 ≤ n ≤ array_length l → array_length (truncate l n) = n.
Proof. unfold array_length, truncate. intros H. rewrite length_take. lia. Qed.

Lemma array_length_shift (l : list DataURL) :
  1 ≤ array_length l → array_length (shift l) = array_length l - 1.
Proof. unfold array_length, shift. intros H. rewrite length_drop. lia. Qed.

Lemma array_length_set (l : list DataURL) (i : Z) (v : DataURL) :
  i < array_length l → array_length (array_set l i v) = array_length l.
Proof.
  unfold array_set, array_length. intros H.
  repeat case_decide; try lia. by rewrite length_insert.
Qed.

Lemma array_length_set_end (l : list DataURL) (i : Z) (v : DataURL) :
  array_length l ≤ i → array_length (array_set l i v) = i + 1.
Proof.
  unfold array_set, array_length. intros H.
  repeat case_decide; try lia.
  rewrite !length_app, length_replicate. simpl. lia.
Qed.

Lemma array_get_set_eq (l : list DataURL) (i : Z) (v : DataURL) :
  0 ≤ i → array_get (array_set l i v) i = v.
Proof.
  unfold array_get, array_set, array_length. intros H.
  repeat case_decide; try lia.
  - rewrite list_lookup_insert_eq by lia. done.
  - rewrite lookup_app_r by lia. rewrite lookup_app_r by (rewrite length_replicate; lia).
    rewrite length_replicate.
    replace (Z.to_nat i - length l - (Z.to_nat i - length l))%nat with 0%nat by lia. done.
Qed.

Lemma array_get_set_ne (l : list DataURL) (i j : Z) (v : DataURL) :
  i ≠ j → array_get (array_set l i v) j = array_get l j.
Proof.
  unfold array_get, array_set, array_length. intros H.
  repeat case_decide; try done.
  - rewrite list_lookup_insert_ne by lia. done.
  - destruct (decide (Z.to_nat j < length l)%nat) as [Hj|Hj].
    + by rewrite lookup_app_l.
    + rewrite (lookup_ge_None_2 l) by lia.
      rewrite lookup_app_r by lia.
      destruct (decide (Z.to_nat j < Z.to_nat i)%nat) as [Hi|Hi].
      * rewrite lookup_app_l by (rewrite length_replicate; lia).
        rewrite lookup_replicate_2 by lia. done.
      * rewrite lookup_app_r by (rewrite length_replicate; lia).
        rewrite length_replicate. rewrite lookup_ge_None_2; [done | simpl; lia].
Qed.

Lemma splice1_delete (l : list DataURL) (i : Z) :
  0 ≤ i → splice1 l i = delete (Z.to_nat i) l.
Proof. unfold splice1. intros H. case_decide; [lia | done]. Qed.

Lemma array_length_splice1 (l : list DataURL) (i : Z) :
  0 ≤ i < array_length l → array_length (splice1 l i) = array_length l - 1.
Proof.
  intros H. rewrite splice1_delete by lia. unfold array_length in *.
  rewrite length_delete; [lia |]. apply lookup_lt_is_Some. lia.
Qed.

(** ** Pixels *)

Arguments composite : simpl never.
Arguments scale : simpl never.

Lemma pixel_eq (p q : Pixel) :
  red p = red q → green p = green q → blue p = blue q → alpha p = alpha q → p = q.
Proof. destruct p, q. simpl. by intros -> -> -> ->. Qed.

(** A white fill at full opacity leaves nothing of what was there. *)
Lemma composite_white (d : Pixel) :
  composite SourceOver (scale 1 (solid white)) d = solid white.
Proof. apply pixel_eq; unfold composite, scale; simpl; ring. Qed.

(** An opaque pixel drawn at full opacity replaces what was there. *)
Lemma composite_opaque (p d : Pixel) :
  alpha p = 1%Qc → composite SourceOver (scale 1 p) d = p.
Proof. intros H. apply pixel_eq; unfold composite, scale; simpl; rewrite H; ring. Qed.

(** A transparent pixel changes nothing. *)
Lemma composite_transparent (d : Pixel) :
  composite SourceOver (scale 1 transparent) d = d.
Proof. apply pixel_eq; unfold composite, scale; simpl; ring. Qed.

(** Ink of full opacity, however thin the coverage, leaves an opaque
    pixel opaque. *)
Lemma composite_keeps_opaque (k : Qc) (col : Color) (d : Pixel) :
  alpha d = 1%Qc → alpha (composite SourceOver (scale k (scale 1 (solid col))) d) = 1%Qc.
Proof. intros H. unfold composite, scale. simpl. rewrite H. ring. Qed.

(** With the eraser's composition a fully opaque source leaves nothing. *)
Lemma composite_erases (p d : Pixel) :
  alpha p = 1%Qc → composite DestinationOut (scale 1 p) d = transparent.
Proof. intros H. apply pixel_eq; unfold composite, scale; simpl; rewrite H; ring. Qed.

Lemma length_paint (op : CompositeOp) (src : Pixel) (mask : list Qc) (dst : Bitmap) :
  length (paint op src mask dst) = length dst.
Proof.
  revert mask. induction dst as [|d dst IH]; intros [|k mask]; simpl; auto.
Qed.

Lemma length_blend (op : CompositeOp) (g : Qc) (img dst : Bitmap) :
  length (blend op g img dst) = length dst.
Proof.
  revert img. induction dst as [|d dst IH]; intros [|p img]; simpl; auto.
Qed.

Lemma paint_opaque (col : Color) (mask : list Qc) (dst : Bitmap) :
  opaque dst → opaque (paint SourceOver (scale 1 (solid col)) mask dst).
Proof.
  unfold opaque. intros H. revert mask.
  induction H as [|d dst Hd Hdst IH]; intros [|k mask]; simpl; try by constructor.
  constructor; [|apply IH]. by apply composite_keeps_opaque.
Qed.

Lemma fill_white (b : Bitmap) :
  map (composite SourceOver (scale 1 (solid white))) b = replicate (length b) (solid white).
Proof. induction b as [|d b IH]; simpl; [done|]. by rewrite composite_white, IH. Qed.

Lemma opaque_replicate_white (n : nat) : opaque (replicate n (solid white)).
Proof. unfold opaque. apply Forall_replicate. done. Qed.

Lemma onWhite_opaque (img : Bitmap) :
  opaque img → onWhite img (length img) = img.
Proof.
  unfold onWhite, opaque. induction 1 as [|p img Hp _ IH]; simpl; [done|].
  by rewrite composite_opaque, IH.
Qed.

Lemma onWhite_transparent (n : nat) :
  onWhite (replicate n transparent) n = replicate n (solid white).
Proof.
  unfold onWhite. induction n as [|n IH]; simpl; [done|].
  by rewrite composite_transparent, IH.
Qed.

(** What [loadCanvasState] paints when the pen is in force: the picture
    on white paper. *)
Lemma drawImage_fillWhite_pen (img : Bitmap) (c : Context) :
  penState c →
  bitmap (drawImage img (fillWhite c)) = onWhite img (length (bitmap c)).
Proof.
  intros [Hop Ha]. unfold drawImage, fillWhite, fillRect, onWhite, ink. simpl.
  rewrite Hop, Ha. by rewrite fill_white.
Qed.

(** The same call with the eraser in force wipes the canvas. *)
Lemma drawImage_fillWhite_eraser (img : Bitmap) (c : Context) :
  globalCompositeOperation c = DestinationOut → globalAlpha c = 1%Qc →
  opaque img → length img = length (bitmap c) →
  bitmap (drawImage img (fillWhite c)) = replicate (length (bitmap c)) transparent.
Proof.
  intros Hop Ha Himg Hlen. unfold drawImage, fillWhite, fillRect, ink. simpl.
  rewrite Hop, Ha. revert img Himg Hlen.
  induction (bitmap c) as [|d b IH]; intros [|p img] Himg Hlen; simpl in *; try done.
  apply Forall_cons in Himg as [Hp Himg].
  rewrite composite_erases by done. f_equal. apply IH; [done | lia].
Qed.

(** ** The history stack *)

(** Reading a field of an updated object, and nothing else. *)
Ltac fields :=
  cbn [ctx signatureCtx isDrawing currentTool currentColor currentSize pages
       currentPageIndex history historyStep savedSignature form storage loading
       notification set_ctx set_signatureCtx set_isDrawing set_currentTool
       set_currentColor set_currentSize set_pages set_currentPageIndex set_history
       set_historyStep set_savedSignature set_form set_storage set_loading
       set_notification showNotification loadCanvasState on context set_context
       globalCompositeOperation globalAlpha strokeStyle fillStyle lineWidth lineCap
       lineJoin font textAlign path bitmap set_globalCompositeOperation
       set_globalAlpha set_strokeStyle set_fillStyle set_lineWidth set_lineCap
       set_lineJoin set_font set_textAlign set_path set_bitmap] in *.

(** Case analysis on the tests of a method body. *)
Ltac branches :=
  repeat match goal with t : Target |- _ => destruct t end;
  repeat first
    [ progress fields
    | case_decide
    | match goal with
      | |- context [match ?x with _ => _ end] => destruct x eqn:?
      end ].

(** Unfold a method and keep its [let]s. *)
Tactic Notation "open" constr(f) := cbv beta delta [f].

(** A closed fact about a concrete state is settled by evaluation alone,
    whatever the context holds. *)
Ltac evaluated := clear; vm_compute; done.

(** Forget what a state is made of, and keep what is known of it. *)
Tactic Notation "forget" constr(t) "as" ident(c) :=
  generalize dependent t; intros c; intros.

(** Walk down the body of a method: name the value of each [let], prove
    the property at hand of it, and go on with the name; [tac] closes the
    steps. *)
Ltac walk tac :=
  repeat lazymatch goal with
  | |- ?P (let x := ?a in @?b x) =>
      let y := fresh "s" in
      tryif (let _ := constr:(P a) in idtac) then
        let H := fresh "H" in
        assert (H : P a) by (walk tac);
        pose (y := a); change (P y) in H;
        let g := eval cbv beta in (P (b y)) in change g;
        clearbody y
      else
        (pose (y := a);
         let g := eval cbv beta in (P (b y)) in change g)
  | |- ?P (if ?c then _ else _) => destruct c
  | |- ?P (match ?c with _ => _ end) => destruct c
  end; tac.

Lemma recordState_historyStep (s : PrescriptionCanvas) :
  historyStep (recordState s) = historyStep s + 1.
Proof. unfold recordState. branches; done. Qed.

Lemma recordState_history (s : PrescriptionCanvas) :
  -1 ≤ historyStep s < array_length (history s) →
  history (recordState s)
  = take (Z.to_nat (historyStep s + 1)) (history s) ++ [toDataURL (ctx s)].
Proof.
  unfold recordState, truncate, array_length. intros H. branches; [done|].
  rewrite take_ge by lia. done.
Qed.

Lemma recordState_length (s : PrescriptionCanvas) :
  -1 ≤ historyStep s < array_length (history s) →
  array_length (history (recordState s)) = historyStep s + 2.
Proof.
  intros H. rewrite recordState_history by done.
  rewrite array_length_app. unfold array_length in *.
  rewrite length_take. simpl. lia.
Qed.

(** The cursor of [saveState] ends on the last entry, and the stack
    within its bound. *)
Lemma saveState_cursor (s : PrescriptionCanvas) :
  -1 ≤ historyStep s < array_length (history s) →
  array_length (history s) ≤ 50 →
  historyStep (saveState s) = array_length (history (saveState s)) - 1
  ∧ 1 ≤ array_length (history (saveState s)) ≤ 50.
Proof.
  intros H1 H2. pose proof (recordState_length s H1) as Hlen.
  pose proof (recordState_historyStep s) as Hstep.
  unfold saveState, limitHistory. case_decide; fields.
  - rewrite array_length_shift by lia. lia.
  - lia.
Qed.

Lemma saveState_history_wf (s : PrescriptionCanvas) :
  -1 ≤ historyStep s < array_length (history s) →
  array_length (history s) ≤ 50 →
  history_wf (saveState s).
Proof. intros H1 H2. pose proof (saveState_cursor s H1 H2). split; lia. Qed.

(** *** The cursor stays inside the stack, whatever happens *)

Create HintDb hist discriminated.

Lemma history_wf_frame (s x : PrescriptionCanvas) :
  history x = history s → historyStep x = historyStep s → history_wf s → history_wf x.
Proof. intros H1 H2 [H3 H4]. split; rewrite ?H1, ?H2; done. Qed.

Lemma history_wf_on (t : Target) (f : Context → Context) (s : PrescriptionCanvas) :
  history_wf s → history_wf (on t f s).
Proof. apply history_wf_frame; by destruct t. Qed.

Lemma history_wf_showNotification (m : string) (l : Level) (s : PrescriptionCanvas) :
  history_wf s → history_wf (showNotification m l s).
Proof. by apply history_wf_frame. Qed.

Lemma history_wf_set_isDrawing v s : history_wf s → history_wf (set_isDrawing v s).
Proof. by apply history_wf_frame. Qed.
Lemma history_wf_set_currentTool v s : history_wf s → history_wf (set_currentTool v s).
Proof. by apply history_wf_frame. Qed.
Lemma history_wf_set_currentColor v s : history_wf s → history_wf (set_currentColor v s).
Proof. by apply history_wf_frame. Qed.
Lemma history_wf_set_currentSize v s : history_wf s → history_wf (set_currentSize v s).
Proof. by apply history_wf_frame. Qed.
Lemma history_wf_set_pages v s : history_wf s → history_wf (set_pages v s).
Proof. by apply history_wf_frame. Qed.
Lemma history_wf_set_currentPageIndex v s : history_wf s → history_wf (set_currentPageIndex v s).
Proof. by apply history_wf_frame. Qed.
Lemma history_wf_set_savedSignature v s : history_wf s → history_wf (set_savedSignature v s).
Proof. by apply history_wf_frame. Qed.
Lemma history_wf_set_form v s : history_wf s → history_wf (set_form v s).
Proof. by apply history_wf_frame. Qed.
Lemma history_wf_set_storage v s : history_wf s → history_wf (set_storage v s).
Proof. by apply history_wf_frame. Qed.
Lemma history_wf_set_loading v s : history_wf s → history_wf (set_loading v s).
Proof. by apply history_wf_frame. Qed.

Lemma history_wf_saveState (s : PrescriptionCanvas) : history_wf s → history_wf (saveState s).
Proof. intros [H1 H2]. apply saveState_history_wf; lia. Qed.

Lemma history_wf_loadCanvasState u s : history_wf s → history_wf (loadCanvasState u s).
Proof. by apply history_wf_frame. Qed.

Lemma history_wf_undoLast (s : PrescriptionCanvas) : history_wf s → history_wf (undoLast s).
Proof. intros [H1 H2]. unfold undoLast. case_decide; split; fields; lia. Qed.

Lemma history_wf_redoLast (s : PrescriptionCanvas) : history_wf s → history_wf (redoLast s).
Proof. intros [H1 H2]. unfold redoLast. case_decide; split; fields; lia. Qed.

#[local] Hint Resolve history_wf_on history_wf_showNotification history_wf_set_isDrawing
  history_wf_set_currentTool history_wf_set_currentColor history_wf_set_currentSize
  history_wf_set_pages history_wf_set_currentPageIndex history_wf_set_savedSignature
  history_wf_set_form history_wf_set_storage history_wf_set_loading history_wf_saveState
  history_wf_loadCanvasState history_wf_undoLast history_wf_redoLast : hist.

Ltac hist := walk ltac:(eauto 3 with hist).

Lemma history_wf_loadPage i s : history_wf s → history_wf (loadPage i s).
Proof. intros H. open loadPage. hist. Qed.

Lemma history_wf_setFormValue id v s : history_wf s → history_wf (setFormValue id v s).
Proof. intros H. open setFormValue. hist. Qed.

#[local] Hint Resolve history_wf_loadPage history_wf_setFormValue : hist.

Lemma history_wf_canvasStateLoaded u img s :
  history_wf s → history_wf (canvasStateLoaded u img s).
Proof. intros H. open canvasStateLoaded. hist. Qed.

Lemma history_wf_signatureLoaded img s : history_wf s → history_wf (signatureLoaded img s).
Proof. intros H. open signatureLoaded. hist. Qed.

#[local] Hint Resolve history_wf_canvasStateLoaded history_wf_signatureLoaded : hist.

Lemma history_wf_imageLoaded i s : history_wf s → history_wf (imageLoaded i s).
Proof. intros H. open imageLoaded. destruct (loading s !! i) as [[t u]|]; hist. Qed.

Lemma history_wf_loadPrescription file s : history_wf s → history_wf (loadPrescription file s).
Proof. intros H. open loadPrescription. hist. Qed.

Lemma history_wf_startDrawing t c s : history_wf s → history_wf (startDrawing t c s).
Proof. intros H. open startDrawing. hist. Qed.
Lemma history_wf_draw B t c s : history_wf s → history_wf (draw B t c s).
Proof. intros H. open draw. hist. Qed.
Lemma history_wf_stopDrawing t s : history_wf s → history_wf (stopDrawing t s).
Proof. intros H. open stopDrawing. hist. Qed.
Lemma history_wf_setTool tool s : history_wf s → history_wf (setTool tool s).
Proof. intros H. open setTool. hist. Qed.
Lemma history_wf_clearCanvas s : history_wf s → history_wf (clearCanvas s).
Proof. intros H. open clearCanvas. hist. Qed.
Lemma history_wf_clearSignature s : history_wf s → history_wf (clearSignature s).
Proof. intros H. open clearSignature. hist. Qed.
Lemma history_wf_addText B a s : history_wf s → history_wf (addText B a s).
Proof. intros H. open addText. hist. Qed.
Lemma history_wf_addStamp B s : history_wf s → history_wf (addStamp B s).
Proof. intros H. open addStamp. hist. Qed.
Lemma history_wf_addPage s : history_wf s → history_wf (addPage s).
Proof. intros H. open addPage. hist. Qed.
Lemma history_wf_deletePage s : history_wf s → history_wf (deletePage s).
Proof. intros H. open deletePage. hist. Qed.
Lemma history_wf_previousPage s : history_wf s → history_wf (previousPage s).
Proof. intros H. open previousPage. hist. Qed.
Lemma history_wf_nextPage s : history_wf s → history_wf (nextPage s).
Proof. intros H. open nextPage. hist. Qed.
Lemma history_wf_saveSignature w s : history_wf s → history_wf (saveSignature w s).
Proof. intros H. open saveSignature. hist. Qed.
Lemma history_wf_savePrescription w s : history_wf s → history_wf (savePrescription w s).
Proof. intros H. open savePrescription. hist. Qed.

#[local] Hint Resolve history_wf_imageLoaded history_wf_loadPrescription
  history_wf_startDrawing history_wf_draw history_wf_stopDrawing history_wf_setTool
  history_wf_clearCanvas history_wf_clearSignature history_wf_addText history_wf_addStamp
  history_wf_addPage history_wf_deletePage history_wf_previousPage history_wf_nextPage
  history_wf_saveSignature history_wf_savePrescription : hist.

Lemma history_wf_handleKeyboardShortcuts e w s :
  history_wf s → history_wf (handleKeyboardShortcuts e w s).
Proof. intros H. open handleKeyboardShortcuts. hist. Qed.

Lemma handle_history_wf (B : Browser) (e : Event) (s : PrescriptionCanvas) :
  history_wf s → history_wf (handle B e s).
Proof.
  intros H. destruct e; cbn [handle].
  - by apply history_wf_startDrawing.
  - by apply history_wf_draw.
  - by apply history_wf_stopDrawing.
  - by apply history_wf_handleKeyboardShortcuts.
  - by apply history_wf_setTool.
  - by apply history_wf_set_currentColor.
  - by apply history_wf_set_currentSize.
  - by apply history_wf_clearCanvas.
  - by apply history_wf_clearSignature.
  - by apply history_wf_undoLast.
  - by apply history_wf_redoLast.
  - by apply history_wf_addText.
  - by apply history_wf_addStamp.
  - by apply history_wf_addPage.
  - by apply history_wf_deletePage.
  - by apply history_wf_previousPage.
  - by apply history_wf_nextPage.
  - by apply history_wf_saveSignature.
  - by apply history_wf_savePrescription.
  - by apply history_wf_loadPrescription.
  - by apply history_wf_imageLoaded.
  - by apply history_wf_showNotification.
Qed.

Lemma run_history_wf (B : Browser) (events : list Event) (s : PrescriptionCanvas) :
  history_wf s → history_wf (run B events s).
Proof.
  unfold run. revert s. induction events as [|e events IH]; intros s H; cbn [foldl]; [done|].
  apply IH. by apply handle_history_wf.
Qed.

Lemma array_get_shift (l : list DataURL) (i : Z) :
  1 ≤ i → array_get (shift l) (i - 1) = array_get l i.
Proof.
  unfold array_get, shift. intros H. repeat case_decide; try lia.
  rewrite lookup_drop. f_equal. f_equal. lia.
Qed.

Lemma array_get_last (l : list DataURL) (v : DataURL) (i : Z) :
  i = array_length l → array_get (l ++ [v]) i = v.
Proof.
  unfold array_get, array_length. intros ->. case_decide; [|lia].
  rewrite Nat2Z.id. rewrite lookup_app_r by lia. by rewrite Nat.sub_diag.
Qed.

(** After a push, whatever the cursor was, there is nothing to redo. *)
Lemma redoLast_after_saveState (s : PrescriptionCanvas) :
  history_wf s →
  redoLast (saveState s) = showNotification "Nothing to redo" LWarning (saveState s).
Proof.
  intros [H1 H2]. destruct (saveState_cursor s) as [H3 H4]; [lia.. |].
  unfold redoLast. case_decide; [lia | done].
Qed.

(** *** Pushing after an undo

    Claim C1.  In a history whose cursor is below the last entry (something
    was undone since the last push), [saveState] keeps the entries up to
    the cursor, drops every entry after it, appends the snapshot of the
    canvas and leaves the cursor on this new last entry; after that push,
    as after any push, [redoLast] finds nothing to redo and only says so. *)
Theorem saveState_discards_redo (s : PrescriptionCanvas) :
  history_wf s →
  historyStep s < array_length (history s) - 1 →
  let s' := saveState s in
  history s' = take (Z.to_nat (historyStep s + 1)) (history s) ++ [toDataURL (ctx s)]
  ∧ historyStep s' = array_length (history s') - 1
  ∧ redoLast s' = showNotification "Nothing to redo" LWarning s'
  ∧ ∀ x, history_wf x →
      redoLast (saveState x) = showNotification "Nothing to redo" LWarning (saveState x).
Proof.
  intros Hwf Hlt s'. destruct Hwf as [H1 H2].
  assert (Hrec : history (recordState s)
                 = take (Z.to_nat (historyStep s + 1)) (history s) ++ [toDataURL (ctx s)])
    by (apply recordState_history; lia).
  assert (Hlen : array_length (history (recordState s)) = historyStep s + 2)
    by (apply recordState_length; lia).
  repeat split.
  - subst s'. unfold saveState, limitHistory. case_decide; [lia | done].
  - subst s'. apply saveState_cursor; lia.
  - subst s'. by apply redoLast_after_saveState.
  - apply redoLast_after_saveState.
Qed.

(** *** The bound of fifty

    Claim C2.  From a well-formed history no sequence of events makes the
    stack longer than 50.  When the push of [saveState] brings it to more
    than 50, the oldest entry is shifted out and the cursor is decremented
    by one, so that it still points at the snapshot just pushed; and the
    undo that follows succeeds. *)
Theorem history_never_exceeds_50 (B : Browser) (events : list Event) (s : PrescriptionCanvas) :
  history_wf s →
  let now := run B events s in
  array_length (history now) ≤ 50
  ∧ (array_length (history (recordState now)) > 50 →
       history (saveState now) = shift (history (recordState now))
       ∧ historyStep (saveState now) = historyStep (recordState now) - 1
       ∧ array_get (history (saveState now)) (historyStep (saveState now))
         = array_get (history (recordState now)) (historyStep (recordState now))
       ∧ array_get (history (saveState now)) (historyStep (saveState now))
         = toDataURL (ctx now)
       ∧ notification (undoLast (saveState now)) = Some ("Undone", LInfo)
       ∧ historyStep (undoLast (saveState now)) = historyStep (saveState now) - 1).
Proof.
  intros Hwf now. assert (Hnow : history_wf now) by by apply run_history_wf.
  clearbody now. destruct Hnow as [H1 H2]. split; [done|]. intros Hover.
  assert (Hlen : array_length (history (recordState now)) = historyStep now + 2)
    by (apply recordState_length; lia).
  assert (Hstep : historyStep (recordState now) = historyStep now + 1)
    by apply recordState_historyStep.
  assert (Hs : saveState now
               = set_historyStep (historyStep (recordState now) - 1)
                   (set_history (shift (history (recordState now))) (recordState now))).
  { unfold saveState, limitHistory. case_decide; [done | lia]. }
  assert (Hget : array_get (history (recordState now)) (historyStep (recordState now))
                 = toDataURL (ctx now)).
  { rewrite recordState_history by lia. apply array_get_last.
    rewrite Hstep. unfold array_length. rewrite length_take.
    unfold array_length in *. lia. }
  rewrite Hs. fields. split_and!; try done.
  - rewrite array_get_shift by lia. done.
  - rewrite array_get_shift by lia. done.
  - unfold undoLast. fields. case_decide; [done | lia].
  - unfold undoLast. fields. case_decide; [done | lia].
Qed.

(** On the small page: two strokes, one undo, and a push. *)
Lemma saveState_discards_redo_witness :
  history_wf Demo.undone
  ∧ historyStep Demo.undone < array_length (history Demo.undone) - 1
  ∧ history (saveState Demo.undone)
    = take 2 (history Demo.undone) ++ [toDataURL (ctx Demo.undone)]
  ∧ redoLast (saveState Demo.undone)
    = showNotification "Nothing to redo" LWarning (saveState Demo.undone).
Proof.
  assert (Hwf : history_wf Demo.undone) by (split; evaluated).
  assert (Hlt : historyStep Demo.undone < array_length (history Demo.undone) - 1)
    by evaluated.
  destruct (saveState_discards_redo Demo.undone Hwf Hlt) as (H1 & H2 & H3 & H4).
  split_and!; [exact Hwf | exact Hlt | exact H1 | exact H3].
Defined.

(** On the small page: forty-nine strokes fill the stack, the next push
    overflows it. *)
Lemma history_never_exceeds_50_witness :
  let now := run Demo.browser (strokesEvents (replicate 49 Demo.aStroke)) Demo.start in
  history_wf Demo.start
  ∧ array_length (history now) = 50
  ∧ array_length (history (recordState now)) > 50
  ∧ array_length (history (saveState now)) = 50
  ∧ notification (undoLast (saveState now)) = Some ("Undone", LInfo).
Proof.
  intros now.
  assert (Hwf : history_wf Demo.start) by (split; evaluated).
  destruct (history_never_exceeds_50 Demo.browser
              (strokesEvents (replicate 49 Demo.aStroke)) Demo.start Hwf) as [H1 H2].
  fold now in H1, H2.
  assert (Hover : array_length (history (recordState now)) > 50) by evaluated.
  destruct (H2 Hover) as (H3 & H4 & H5 & H6 & H7 & H8).
  split_and!; [exact Hwf | evaluated | exact Hover | evaluated | exact H7].
Defined.

(** ** The page collection *)

Create HintDb pages discriminated.

Lemma pages_wf_frame (s x : PrescriptionCanvas) :
  pages x = pages s → currentPageIndex x = currentPageIndex s → pages_wf s → pages_wf x.
Proof. intros H1 H2 [H3 H4]. split; rewrite ?H1, ?H2; done. Qed.

Lemma pages_wf_on (t : Target) (f : Context → Context) (s : PrescriptionCanvas) :
  pages_wf s → pages_wf (on t f s).
Proof. apply pages_wf_frame; by destruct t. Qed.

Lemma pages_wf_showNotification (m : string) (l : Level) (s : PrescriptionCanvas) :
  pages_wf s → pages_wf (showNotification m l s).
Proof. by apply pages_wf_frame. Qed.

Lemma pages_wf_set_isDrawing v s : pages_wf s → pages_wf (set_isDrawing v s).
Proof. by apply pages_wf_frame. Qed.
Lemma pages_wf_set_currentTool v s : pages_wf s → pages_wf (set_currentTool v s).
Proof. by apply pages_wf_frame. Qed.
Lemma pages_wf_set_currentColor v s : pages_wf s → pages_wf (set_currentColor v s).
Proof. by apply pages_wf_frame. Qed.
Lemma pages_wf_set_currentSize v s : pages_wf s → pages_wf (set_currentSize v s).
Proof. by apply pages_wf_frame. Qed.
Lemma pages_wf_set_history v s : pages_wf s → pages_wf (set_history v s).
Proof. by apply pages_wf_frame. Qed.
Lemma pages_wf_set_historyStep v s : pages_wf s → pages_wf (set_historyStep v s).
Proof. by apply pages_wf_frame. Qed.
Lemma pages_wf_set_savedSignature v s : pages_wf s → pages_wf (set_savedSignature v s).
Proof. by apply pages_wf_frame. Qed.
Lemma pages_wf_set_form v s : pages_wf s → pages_wf (set_form v s).
Proof. by apply pages_wf_frame. Qed.
Lemma pages_wf_set_storage v s : pages_wf s → pages_wf (set_storage v s).
Proof. by apply pages_wf_frame. Qed.
Lemma pages_wf_set_loading v s : pages_wf s → pages_wf (set_loading v s).
Proof. by apply pages_wf_frame. Qed.
Lemma pages_wf_loadCanvasState u s : pages_wf s → pages_wf (loadCanvasState u s).
Proof. by apply pages_wf_frame. Qed.

(** Writing the active slot of a populated list keeps its length. *)
Lemma pages_wf_store (u : DataURL) (s : PrescriptionCanvas) :
  pages_wf s → pages_wf (set_pages (array_set (pages s) (currentPageIndex s) u) s).
Proof. intros [H1 H2]. split; fields; rewrite array_length_set by lia; lia. Qed.

Lemma pages_wf_push (u : DataURL) (s : PrescriptionCanvas) :
  pages_wf s → pages_wf (set_pages (pages s ++ [u]) s).
Proof.
  intros [H1 H2]. split; fields; rewrite array_length_app; unfold array_length at 2;
    simpl; lia.
Qed.

Lemma pages_wf_last (s : PrescriptionCanvas) :
  pages_wf s → pages_wf (set_currentPageIndex (array_length (pages s) - 1) s).
Proof. intros [H1 H2]. split; fields; lia. Qed.

#[local] Hint Resolve pages_wf_on pages_wf_showNotification pages_wf_set_isDrawing
  pages_wf_set_currentTool pages_wf_set_currentColor pages_wf_set_currentSize
  pages_wf_set_history pages_wf_set_historyStep pages_wf_set_savedSignature
  pages_wf_set_form pages_wf_set_storage pages_wf_set_loading pages_wf_loadCanvasState
  pages_wf_store pages_wf_push pages_wf_last : pages.

Ltac pages := walk ltac:(eauto 3 with pages).

Lemma pages_wf_recordState s : pages_wf s → pages_wf (recordState s).
Proof. intros H. open recordState. pages. Qed.

Lemma pages_wf_limitHistory s : pages_wf s → pages_wf (limitHistory s).
Proof. intros H. open limitHistory. pages. Qed.

Lemma pages_wf_saveState s : pages_wf s → pages_wf (saveState s).
Proof. intros H. apply pages_wf_limitHistory. by apply pages_wf_recordState. Qed.

Lemma pages_wf_loadPage_at (i : Z) (s : PrescriptionCanvas) :
  currentPageIndex s = i → pages_wf s → pages_wf (loadPage i s).
Proof.
  intros <- H. unfold loadPage.
  destruct (truthy _ && _)%bool; [by apply pages_wf_loadCanvasState|].
  apply (pages_wf_store _ (on Main fillWhite s)). by apply pages_wf_on.
Qed.

Lemma pages_wf_loadPage s : pages_wf s → pages_wf (loadPage (currentPageIndex s) s).
Proof. by apply pages_wf_loadPage_at. Qed.

Lemma pages_wf_undoLast s : pages_wf s → pages_wf (undoLast s).
Proof. intros H. open undoLast. pages. Qed.
Lemma pages_wf_redoLast s : pages_wf s → pages_wf (redoLast s).
Proof. intros H. open redoLast. pages. Qed.
Lemma pages_wf_setFormValue id v s : pages_wf s → pages_wf (setFormValue id v s).
Proof. intros H. open setFormValue. pages. Qed.

#[local] Hint Resolve pages_wf_saveState pages_wf_loadPage pages_wf_undoLast
  pages_wf_redoLast pages_wf_setFormValue : pages.

Lemma pages_wf_canvasStateLoaded u img s : pages_wf s → pages_wf (canvasStateLoaded u img s).
Proof. intros H. open canvasStateLoaded. pages. Qed.
Lemma pages_wf_signatureLoaded img s : pages_wf s → pages_wf (signatureLoaded img s).
Proof. intros H. open signatureLoaded. pages. Qed.

#[local] Hint Resolve pages_wf_canvasStateLoaded pages_wf_signatureLoaded : pages.

Lemma pages_wf_imageLoaded i s : pages_wf s → pages_wf (imageLoaded i s).
Proof. intros H. open imageLoaded. destruct (loading s !! i) as [[t u]|]; pages. Qed.

Lemma pages_wf_startDrawing t c s : pages_wf s → pages_wf (startDrawing t c s).
Proof. intros H. open startDrawing. pages. Qed.
Lemma pages_wf_draw B t c s : pages_wf s → pages_wf (draw B t c s).
Proof. intros H. open draw. pages. Qed.
Lemma pages_wf_stopDrawing t s : pages_wf s → pages_wf (stopDrawing t s).
Proof. intros H. open stopDrawing. pages. Qed.
Lemma pages_wf_setTool tool s : pages_wf s → pages_wf (setTool tool s).
Proof. intros H. open setTool. pages. Qed.
Lemma pages_wf_clearCanvas s : pages_wf s → pages_wf (clearCanvas s).
Proof. intros H. open clearCanvas. pages. Qed.
Lemma pages_wf_clearSignature s : pages_wf s → pages_wf (clearSignature s).
Proof. intros H. open clearSignature. pages. Qed.
Lemma pages_wf_addText B a s : pages_wf s → pages_wf (addText B a s).
Proof. intros H. open addText. pages. Qed.
Lemma pages_wf_addStamp B s : pages_wf s → pages_wf (addStamp B s).
Proof. intros H. open addStamp. pages. Qed.
Lemma pages_wf_addPage s : pages_wf s → pages_wf (addPage s).
Proof. intros H. open addPage. pages. Qed.
Lemma pages_wf_saveSignature w s : pages_wf s → pages_wf (saveSignature w s).
Proof. intros H. open saveSignature. pages. Qed.
Lemma pages_wf_savePrescription w s : pages_wf s → pages_wf (savePrescription w s).
Proof. intros H. open savePrescription. pages. Qed.

Lemma pages_wf_previousPage s : pages_wf s → pages_wf (previousPage s).
Proof.
  intros [H1 H2]. unfold previousPage. case_decide; [|by apply pages_wf_showNotification].
  apply pages_wf_loadPage_at; [done|].
  split; fields; rewrite array_length_set by lia; lia.
Qed.

Lemma pages_wf_nextPage s : pages_wf s → pages_wf (nextPage s).
Proof.
  intros [H1 H2]. unfold nextPage. case_decide; [|by apply pages_wf_showNotification].
  apply pages_wf_loadPage_at; [done|].
  split; fields; rewrite array_length_set by lia; lia.
Qed.

Lemma pages_wf_deletePage s : pages_wf s → pages_wf (deletePage s).
Proof.
  intros [H1 H2]. unfold deletePage. case_decide; [|by apply pages_wf_showNotification].
  apply pages_wf_showNotification.
  pose proof (array_length_splice1 (pages s) (currentPageIndex s) ltac:(lia)) as Hlen.
  case_decide; (apply pages_wf_loadPage_at; [done|]); split; fields; lia.
Qed.

(** Replace the outermost [let] of a method body by its value. *)
Ltac inline_let :=
  lazymatch goal with
  | |- ?P (let x := ?a in @?b x) => let g := eval cbv beta in (P (b a)) in change g
  end.

Lemma pages_wf_loadPrescription file s :
  bringsPages (FileRead file) → pages_wf s → pages_wf (loadPrescription file s).
Proof.
  intros Hfile H. destruct file as [|data]; [by apply pages_wf_showNotification|].
  destruct data as [pgs sig dn cn pn pa d t]. cbn [bringsPages data_pages] in Hfile.
  destruct pgs as [[|u l]|]; try done.
  cbv beta iota delta [loadPrescription data_pages data_signature data_doctorName
    data_clinicName data_patientName data_patientAge data_date data_time default
    from_option id].
  inline_let. inline_let.
  set (s1 := set_currentPageIndex 0 (set_pages (u :: l) s)).
  assert (H1 : pages_wf s1) by (split; fields; unfold array_length; simpl; lia).
  assert (H0 : currentPageIndex s1 = 0) by done.
  clearbody s1.
  walk ltac:(eauto 3 using pages_wf_loadPage_at with pages).
Qed.

Lemma pages_wf_handleKeyboardShortcuts e w s :
  pages_wf s → pages_wf (handleKeyboardShortcuts e w s).
Proof.
  intros H. open handleKeyboardShortcuts.
  walk ltac:(eauto 3 using pages_wf_undoLast, pages_wf_redoLast, pages_wf_savePrescription,
               pages_wf_previousPage, pages_wf_nextPage, pages_wf_setTool with pages).
Qed.

Lemma handle_pages_wf (B : Browser) (e : Event) (s : PrescriptionCanvas) :
  bringsPages e → pages_wf s → pages_wf (handle B e s).
Proof.
  intros He H. destruct e; cbn [handle].
  - by apply pages_wf_startDrawing.
  - by apply pages_wf_draw.
  - by apply pages_wf_stopDrawing.
  - by apply pages_wf_handleKeyboardShortcuts.
  - by apply pages_wf_setTool.
  - by apply pages_wf_set_currentColor.
  - by apply pages_wf_set_currentSize.
  - by apply pages_wf_clearCanvas.
  - by apply pages_wf_clearSignature.
  - by apply pages_wf_undoLast.
  - by apply pages_wf_redoLast.
  - by apply pages_wf_addText.
  - by apply pages_wf_addStamp.
  - by apply pages_wf_addPage.
  - by apply pages_wf_deletePage.
  - by apply pages_wf_previousPage.
  - by apply pages_wf_nextPage.
  - by apply pages_wf_saveSignature.
  - by apply pages_wf_savePrescription.
  - by apply pages_wf_loadPrescription.
  - by apply pages_wf_imageLoaded.
  - by apply pages_wf_showNotification.
Qed.

Lemma run_pages_wf (B : Browser) (events : list Event) (s : PrescriptionCanvas) :
  Forall bringsPages events → pages_wf s → pages_wf (run B events s).
Proof.
  unfold run. intros He. revert s.
  induction He as [|e events He _ IH]; intros s H; cbn [foldl]; [done|].
  apply IH. by apply handle_pages_wf.
Qed.

Lemma elem_of_snoc_signature (l : list (Target * DataURL)) (u v : DataURL) :
  (Main, u) ∈ l ++ [(Signature, v)] → (Main, u) ∈ l.
Proof.
  intros [H|H]%elem_of_app; [done|]. apply list_elem_of_singleton in H. discriminate.
Qed.

(** [setFormValue] and [setInput] write the form and nothing else. *)
Lemma setFormValue_form (id : string) (v : option string) (s : PrescriptionCanvas) :
  setFormValue id v s = set_form (form (setFormValue id v s)) s.
Proof. unfold setFormValue. destruct s. branches; done. Qed.

Lemma setInput_form (id v : string) (s : PrescriptionCanvas) :
  setInput id v s = set_form (form (setInput id v s)) s.
Proof. unfold setInput. destruct s. branches; done. Qed.

Ltac forget_forms :=
  repeat match goal with
  | |- context [setFormValue ?id ?v ?x] =>
      rewrite (setFormValue_form id v x);
      generalize (form (setFormValue id v x)); intros ?
  | |- context [setInput ?id ?v ?x] =>
      rewrite (setInput_form id v x);
      generalize (form (setInput id v x)); intros ?
  end.

Lemma constructor_built (B : Browser) dom date time saved :
  built B (constructor B dom date time saved).
Proof.
  unfold constructor, initializeCanvas. cbv zeta. forget_forms.
  unfold saveState, recordState, limitHistory. fields.
  repeat (case_decide; try (unfold array_length in *; simpl in *; lia)); fields.
  unfold loadSavedSignature. fields.
  assert (Hwhite : bitmap (fillWhite (freshContext (width B * height B)))
                   = replicate (width B * height B) (solid white)).
  { unfold fillWhite, fillRect, freshContext, ink. fields.
    rewrite fill_white. by rewrite length_replicate. }
  destruct saved as [u|]; [destruct (truthy u)|]; split; fields;
    try done; try (by split); intros u' Hin;
    try apply (elem_of_snoc_signature []) in Hin; by apply elem_of_nil in Hin.
Qed.

Lemma built_pages_wf (B : Browser) (s : PrescriptionCanvas) : built B s → pages_wf s.
Proof. intros H. split; rewrite (built_pages B s H), ?(built_index B s H); done. Qed.

Lemma built_history_wf (B : Browser) (s : PrescriptionCanvas) : built B s → history_wf s.
Proof. intros H. split; rewrite (built_history B s H), ?(built_historyStep B s H); done. Qed.

(** *** The page collection is never empty

    Claim C5.  In every state reached from [new PrescriptionCanvas()] by
    events of the interface, every document read among them holding at
    least one page, the page collection has a length of at least 1 and
    the active page index is one of its indices. *)
Theorem pages_never_empty (B : Browser) (dom : gmap string string) (date time : string)
  (saved : option DataURL) (events : list Event) :
  Forall bringsPages events →
  let s := run B events (constructor B dom date time saved) in
  1 ≤ array_length (pages s)
  ∧ 0 ≤ currentPageIndex s ≤ array_length (pages s) - 1.
Proof.
  intros He s.
  assert (H : pages_wf s).
  { apply run_pages_wf; [done|]. eapply built_pages_wf, constructor_built. }
  destruct H as [H1 H2]. by split.
Qed.

(** On the small page: a page added, a document of one page read, a page
    deleted. *)
Lemma pages_never_empty_witness :
  let events := [AddPage; FileRead (Document Demo.onePage); DeletePage] in
  let s := run Demo.browser events (constructor Demo.browser ∅ "2024-05-17" "09:30" None) in
  Forall bringsPages events
  ∧ 1 ≤ array_length (pages s)
  ∧ 0 ≤ currentPageIndex s ≤ array_length (pages s) - 1.
Proof.
  intros events s.
  assert (He : Forall bringsPages events) by (repeat constructor).
  split; [exact He|].
  exact (pages_never_empty Demo.browser ∅ "2024-05-17" "09:30" None events He).
Defined.

(** Claim C5, the case left out above.  Reading a document whose list of
    pages is empty, right after construction, leaves no page at all. *)
Lemma pages_empty_after_import :
  ¬ pages_wf (run Demo.browser [FileRead (Document Demo.noPages)]
                (constructor Demo.browser ∅ "2024-05-17" "09:30" None)).
Proof. intros [H _]. vm_compute in H. done. Qed.

(** *** A document without pages

    Claim C10.  When the document read has no [pages] field, or an empty
    list there, the page collection becomes the empty list and the active
    index 0; the canvas is left as it was, no decode is started for it,
    and the call ends with the notification of success, not with the one
    of a file that could not be parsed. *)
Theorem import_without_pages (data : PrescriptionData) (s : PrescriptionCanvas) :
  data_pages data = None ∨ data_pages data = Some [] →
  let s' := loadPrescription (Document data) s in
  pages s' = []
  ∧ currentPageIndex s' = 0
  ∧ ctx s' = ctx s
  ∧ (∀ u, (Main, u) ∈ loading s' → (Main, u) ∈ loading s)
  ∧ notification s' = Some ("Prescription loaded successfully!", LSuccess)
  ∧ notification s' ≠ Some ImportParseFailure.
Proof.
  intros Hp s'.
  assert (Hd : default [] (data_pages data) = []) by (destruct Hp as [-> | ->]; done).
  subst s'. unfold loadPrescription. cbv zeta. forget_forms. rewrite Hd. fields.
  case_decide; [unfold array_length in *; simpl in *; lia|].
  destruct (data_signature data) as [sig|]; [destruct (truthy sig)|]; fields;
    split_and!; try done. intros u Hu. by apply elem_of_snoc_signature in Hu.
Qed.

(** On the small page: a document with an empty list of pages. *)
Lemma import_without_pages_witness :
  data_pages Demo.noPages = Some []
  ∧ pages (loadPrescription (Document Demo.noPages) Demo.start) = []
  ∧ currentPageIndex (loadPrescription (Document Demo.noPages) Demo.start) = 0
  ∧ notification (loadPrescription (Document Demo.noPages) Demo.start)
    = Some ("Prescription loaded successfully!", LSuccess).
Proof.
  assert (Hp : data_pages Demo.noPages = None ∨ data_pages Demo.noPages = Some [])
    by (right; reflexivity).
  destruct (import_without_pages Demo.noPages Demo.start Hp) as (H1 & H2 & H3 & H4 & H5 & H6).
  split_and!; [reflexivity | exact H1 | exact H2 | exact H5].
Defined.

(** The white fill with the pen's context. *)
Lemma fillWhite_pen (c : Context) :
  penState c →
  penState (fillWhite c)
  ∧ bitmap (fillWhite c) = replicate (length (bitmap c)) (solid white).
Proof.
  intros [Hop Ha]. unfold fillWhite, fillRect, ink. fields. rewrite Hop, Ha.
  split; [by split|]. apply fill_white.
Qed.

Lemma truthy_not_empty (u : DataURL) :
  (truthy u && negb (is_empty_string u))%bool = truthy u.
Proof. destruct u as [|str|]; try done. simpl. by destruct (String.eqb str ""). Qed.

(** The one decode in flight ends. *)
Lemma settle_one (img : Bitmap) (s : PrescriptionCanvas) :
  loading s = [(Main, Png img)] →
  settle s = canvasStateLoaded (Png img) img (set_loading [] s).
Proof.
  intros H. unfold settle. rewrite H. unfold Nat.iter. cbn [length nat_rect].
  unfold imageLoaded. rewrite H. reflexivity.
Qed.

Lemma settle_notification (m : string) (l : Level) (s : PrescriptionCanvas) :
  ctx (settle (showNotification m l s)) = ctx (settle s)
  ∧ pages (settle (showNotification m l s)) = pages (settle s).
Proof.
  unfold settle. fields. generalize (length (loading s)). intros n. revert s.
  induction n as [|n IH]; intros s; [done|]. rewrite !Nat.iter_succ_r.
  assert (Hi : imageLoaded 0 (showNotification m l s)
               = showNotification m l (imageLoaded 0 s)).
  { unfold imageLoaded, canvasStateLoaded, signatureLoaded, showNotification. fields.
    destruct (loading s !! 0%nat) as [[[] []]|]; done. }
  rewrite Hi. apply IH.
Qed.

Lemma loadPage_opens (i : Z) (x : PrescriptionCanvas) :
  opens x (loadPage i (set_currentPageIndex i x)) i.
Proof.
  unfold opens, loadPage. cbv zeta. fields. rewrite truthy_not_empty.
  destruct (truthy (array_get (pages x) i)) eqn:Ht; fields; split_and!; try done.
  - intros img Hslot Hq. rewrite Hslot. rewrite (settle_one img).
    + unfold canvasStateLoaded. fields. split; [done|].
      intros Hpen. by apply drawImage_fillWhite_pen.
    + fields. rewrite Hq. done.
  - intros Hpen. by destruct (fillWhite_pen (ctx x) Hpen) as [_ ->].
  - intros img Hslot. rewrite Hslot in Ht. done.
Qed.

Lemma opens_notification (x s' : PrescriptionCanvas) (i : Z) (m : string) (l : Level) :
  opens x s' i → opens x (showNotification m l s') i.
Proof.
  unfold opens. cbv zeta. intros (H1 & H2 & H3 & H4 & H5). split_and!; try done.
  intros img Hslot Hq. destruct (settle_notification m l s') as [-> ->]. by apply H5.
Qed.

(** *** Moving between pages

    With a populated page list, [previousPage] at index 0 and [nextPage]
    at the last index only show their warning: pages, index and canvas
    stay as they are.  Anywhere else they store the canvas in the slot of
    the current page, move the index by one and open the page found there
    as [loadPage] does, the slot of the destination being the one the page
    list held before the call.  With the pen's context the canvas ends as
    the stored picture on white, or white all over when the slot holds
    nothing yet. *)
Theorem page_navigation (s : PrescriptionCanvas) :
  pages_wf s →
  let flushed := set_pages (array_set (pages s) (currentPageIndex s) (toDataURL (ctx s))) s in
  (currentPageIndex s = 0 →
     previousPage s = showNotification "Already on first page" LWarning s)
  ∧ (currentPageIndex s = array_length (pages s) - 1 →
       nextPage s = showNotification "Already on last page" LWarning s)
  ∧ (currentPageIndex s ≠ 0 →
       opens flushed (previousPage s) (currentPageIndex s - 1)
       ∧ array_get (pages flushed) (currentPageIndex s - 1)
         = array_get (pages s) (currentPageIndex s - 1))
  ∧ (currentPageIndex s ≠ array_length (pages s) - 1 →
       opens flushed (nextPage s) (currentPageIndex s + 1)
       ∧ array_get (pages flushed) (currentPageIndex s + 1)
         = array_get (pages s) (currentPageIndex s + 1)).
Proof.
  intros [H1 H2] flushed. split_and!.
  - intros H0. unfold previousPage. case_decide; [lia | done].
  - intros H0. unfold nextPage. case_decide; [lia | done].
  - intros H0. split.
    + unfold previousPage. case_decide; [|lia]. apply (loadPage_opens _ flushed).
    + subst flushed. fields. apply array_get_set_ne. lia.
  - intros H0. split.
    + unfold nextPage. case_decide; [|lia]. apply (loadPage_opens _ flushed).
    + subst flushed. fields. apply array_get_set_ne. lia.
Qed.

(** On the small page: from the second of three pages, one step either
    way, and a second step back that meets the first page. *)
Lemma page_navigation_witness :
  pages_wf Demo.threePages
  ∧ currentPageIndex Demo.threePages ≠ 0
  ∧ currentPageIndex (previousPage Demo.threePages) = 0
  ∧ currentPageIndex (nextPage Demo.threePages) = 2
  ∧ previousPage (previousPage Demo.threePages)
    = showNotification "Already on first page" LWarning (previousPage Demo.threePages).
Proof.
  assert (Hwf : pages_wf Demo.threePages) by (split; evaluated).
  destruct (page_navigation Demo.threePages Hwf) as (H1 & H2 & H3 & H4).
  assert (Hp : currentPageIndex Demo.threePages ≠ 0) by evaluated.
  assert (Hn : currentPageIndex Demo.threePages
               ≠ array_length (pages Demo.threePages) - 1) by evaluated.
  destruct (H3 Hp) as [(K1 & _) _]. destruct (H4 Hn) as [(K2 & _) _].
  split_and!; [exact Hwf | exact Hp | | | ].
  - rewrite K1. evaluated.
  - rewrite K2. evaluated.
  - evaluated.
Defined.

(** Claim C7, where the code misses it.  [loadPage] paints with the
    opacity and the composition the selected tool left on the context.
    With the eraser picked on the second of two pages, [previousPage]
    succeeds and moves to the first page, whose slot holds the drawing,
    but the canvas ends fully transparent.  With the highlighter picked,
    [nextPage] onto a slot without content does not leave a blank canvas,
    and stores that canvas as the page. *)
Lemma page_navigation_with_another_tool :
  currentPageIndex Demo.erasingOnSecondPage = 1
  ∧ array_get (pages Demo.erasingOnSecondPage) 0 = Png [solid black; solid white]
  ∧ currentPageIndex (settle (previousPage Demo.erasingOnSecondPage)) = 0
  ∧ array_get (pages (settle (previousPage Demo.erasingOnSecondPage))) 0
    = Png [solid black; solid white]
  ∧ bitmap (ctx (settle (previousPage Demo.erasingOnSecondPage)))
    = [transparent; transparent]
  ∧ currentPageIndex Demo.highlighting = 0
  ∧ array_get (pages Demo.highlighting) 1 = Text ""
  ∧ currentPageIndex (nextPage Demo.highlighting) = 1
  ∧ bitmap (ctx (nextPage Demo.highlighting)) ≠ replicate 2 (solid white)
  ∧ array_get (pages (nextPage Demo.highlighting)) 1
    = Png (bitmap (ctx (nextPage Demo.highlighting))).
Proof.
  split_and!; evaluated.
Qed.

(** *** Deleting a page

    With exactly one page [deletePage] only shows "Cannot delete the last
    page": page list, count and active index stay as they are.  With more
    than one page it removes the entry of the active page, brings the
    active index to the smaller of its old value and the new last index,
    which lies in the range from 0 to the new length minus 1, and opens
    that page as [loadPage] does, so that with the pen's context the
    canvas ends as the picture of that page on white; the notification
    names the page deleted. *)
Theorem deletePage_last_or_active (s : PrescriptionCanvas) :
  pages_wf s →
  let rest := delete (Z.to_nat (currentPageIndex s)) (pages s) in
  let i := Z.min (currentPageIndex s) (array_length rest - 1) in
  (array_length (pages s) = 1 →
     deletePage s = showNotification "Cannot delete the last page" LWarning s)
  ∧ (array_length (pages s) > 1 →
       array_length rest = array_length (pages s) - 1
       ∧ 0 ≤ i ≤ array_length rest - 1
       ∧ opens (set_pages rest s) (deletePage s) i
       ∧ notification (deletePage s)
         = Some ("Page " +:+ pretty (currentPageIndex s + 1) +:+ " deleted", LInfo)).
Proof.
  intros [H1 H2] rest i. split.
  - intros H0. unfold deletePage. case_decide; [lia | done].
  - intros H0.
    assert (Hrest : splice1 (pages s) (currentPageIndex s) = rest)
      by (apply splice1_delete; lia).
    assert (Hlen : array_length rest = array_length (pages s) - 1)
      by (rewrite <- Hrest; apply array_length_splice1; lia).
    split_and!; [done | lia | lia | | ].
    + unfold deletePage. case_decide; [|lia]. rewrite Hrest. fields.
      apply opens_notification. case_decide.
      * replace i with (array_length rest - 1) by lia.
        apply (loadPage_opens _ (set_pages rest s)).
      * replace i with (currentPageIndex s) by lia.
        apply (loadPage_opens (currentPageIndex s) (set_pages rest s)).
    + unfold deletePage. case_decide; [|lia]. done.
Qed.

(** On the small page: the second of three pages deleted. *)
Lemma deletePage_last_or_active_witness :
  pages_wf Demo.threePages
  ∧ array_length (pages Demo.threePages) > 1
  ∧ array_length (pages (deletePage Demo.threePages)) = 2
  ∧ currentPageIndex (deletePage Demo.threePages) = 1
  ∧ opens (set_pages (delete (Z.to_nat (currentPageIndex Demo.threePages))
                        (pages Demo.threePages)) Demo.threePages)
      (deletePage Demo.threePages)
      (Z.min (currentPageIndex Demo.threePages)
         (array_length (delete (Z.to_nat (currentPageIndex Demo.threePages))
                          (pages Demo.threePages)) - 1)).
Proof.
  assert (Hwf : pages_wf Demo.threePages) by (split; evaluated).
  assert (Hmany : array_length (pages Demo.threePages) > 1) by evaluated.
  destruct (deletePage_last_or_active Demo.threePages Hwf) as [_ H].
  destruct (H Hmany) as (H1 & H2 & H3 & H4).
  split_and!; [exact Hwf | exact Hmany | evaluated | evaluated | exact H3].
Defined.

(** Claim C6, where the code misses it.  With the eraser picked on the
    second of two pages, [deletePage] removes that page and makes the
    first one active, whose slot holds the drawing; the decode it starts
    paints through the eraser's composition and the canvas ends fully
    transparent. *)
Lemma deletePage_with_eraser :
  array_length (pages Demo.erasingOnSecondPage) = 2
  ∧ currentPageIndex Demo.erasingOnSecondPage = 1
  ∧ notification (deletePage Demo.erasingOnSecondPage) = Some ("Page 2 deleted", LInfo)
  ∧ pages (settle (deletePage Demo.erasingOnSecondPage)) = [Png [solid black; solid white]]
  ∧ currentPageIndex (settle (deletePage Demo.erasingOnSecondPage)) = 0
  ∧ bitmap (ctx (settle (deletePage Demo.erasingOnSecondPage))) = [transparent; transparent].
Proof. split_and!; evaluated. Qed.

(** A successful undo or redo, and the end of its decode. *)
Lemma undoLast_moves (s : PrescriptionCanvas) :
  historyStep s > 0 →
  undoLast s
  = showNotification "Undone" LInfo
      (loadCanvasState (array_get (history s) (historyStep s - 1))
         (set_historyStep (historyStep s - 1) s)).
Proof. intros H. unfold undoLast. case_decide; [done | lia]. Qed.

Lemma redoLast_moves (s : PrescriptionCanvas) :
  historyStep s < array_length (history s) - 1 →
  redoLast s
  = showNotification "Redone" LInfo
      (loadCanvasState (array_get (history s) (historyStep s + 1))
         (set_historyStep (historyStep s + 1) s)).
Proof. intros H. unfold redoLast. case_decide; [done | lia]. Qed.

Lemma settle_loadCanvasState (img : Bitmap) (m : string) (l : Level) (s : PrescriptionCanvas) :
  quiet s →
  settle (showNotification m l (loadCanvasState (Png img) s))
  = canvasStateLoaded (Png img) img (showNotification m l s).
Proof.
  unfold quiet. intros Hq. rewrite (settle_one img).
  - destruct s. fields. by subst.
  - fields. by rewrite Hq.
Qed.

(** *** Undo, redo and the cursor

    On a well-formed history [undoLast] shows "Nothing to undo" exactly
    when the cursor is 0, and [redoLast] shows "Nothing to redo" exactly
    when the cursor is on the last index; in both cases the object is
    otherwise untouched, history and cursor included.  Otherwise the
    cursor moves by one, down for undo and up for redo, the stack is
    kept and the snapshot under the new cursor is sent to the decoder;
    with the pen's context and no other decode in flight, the canvas at
    the end of the decode is that snapshot on white. *)
Theorem undo_redo_cursor (s : PrescriptionCanvas) :
  history_wf s →
  (notification (undoLast s) = Some NothingToUndo ↔ historyStep s = 0)
  ∧ (historyStep s = 0 → undoLast s = showNotification "Nothing to undo" LWarning s)
  ∧ (historyStep s ≠ 0 →
       historyStep (undoLast s) = historyStep s - 1
       ∧ history (undoLast s) = history s
       ∧ loading (undoLast s)
         = loading s ++ [(Main, array_get (history s) (historyStep s - 1))]
       ∧ ∀ img, array_get (history s) (historyStep s - 1) = Png img → quiet s →
           penState (ctx s) →
           bitmap (ctx (undoSettled s)) = onWhite img (length (bitmap (ctx s))))
  ∧ (notification (redoLast s) = Some NothingToRedo
     ↔ historyStep s = array_length (history s) - 1)
  ∧ (historyStep s = array_length (history s) - 1 →
       redoLast s = showNotification "Nothing to redo" LWarning s)
  ∧ (historyStep s ≠ array_length (history s) - 1 →
       historyStep (redoLast s) = historyStep s + 1
       ∧ history (redoLast s) = history s
       ∧ loading (redoLast s)
         = loading s ++ [(Main, array_get (history s) (historyStep s + 1))]
       ∧ ∀ img, array_get (history s) (historyStep s + 1) = Png img → quiet s →
           penState (ctx s) →
           bitmap (ctx (redoSettled s)) = onWhite img (length (bitmap (ctx s)))).
Proof.
  intros [H1 H2]. split_and!.
  - unfold undoLast. case_decide; fields; split; try done; lia.
  - intros H0. unfold undoLast. case_decide; [lia | done].
  - intros H0. rewrite undoLast_moves by lia. fields. split_and!; try done.
    intros img Himg Hq Hpen. unfold undoSettled. rewrite undoLast_moves by lia.
    rewrite Himg, settle_loadCanvasState by done.
    unfold canvasStateLoaded. fields. by apply drawImage_fillWhite_pen.
  - unfold redoLast. case_decide; fields; split; try done; lia.
  - intros H0. unfold redoLast. case_decide; [lia | done].
  - intros H0. rewrite redoLast_moves by lia. fields. split_and!; try done.
    intros img Himg Hq Hpen. unfold redoSettled. rewrite redoLast_moves by lia.
    rewrite Himg, settle_loadCanvasState by done.
    unfold canvasStateLoaded. fields. by apply drawImage_fillWhite_pen.
Qed.

(** On the small page: after two strokes and one undo both directions
    are open. *)
Lemma undo_redo_cursor_witness :
  history_wf Demo.undone
  ∧ (notification (undoLast Demo.undone) = Some NothingToUndo
     ↔ historyStep Demo.undone = 0)
  ∧ (notification (redoLast Demo.undone) = Some NothingToRedo
     ↔ historyStep Demo.undone = array_length (history Demo.undone) - 1)
  ∧ historyStep (undoLast Demo.undone) = historyStep Demo.undone - 1
  ∧ historyStep (redoLast Demo.undone) = historyStep Demo.undone + 1
  ∧ array_get (history Demo.undone) (historyStep Demo.undone + 1)
    = Png [solid black; solid white]
  ∧ quiet Demo.undone ∧ penState (ctx Demo.undone)
  ∧ bitmap (ctx (redoSettled Demo.undone))
    = onWhite [solid black; solid white] (length (bitmap (ctx Demo.undone))).
Proof.
  assert (Hwf : history_wf Demo.undone) by (split; evaluated).
  destruct (undo_redo_cursor Demo.undone Hwf) as (H1 & H2 & H3 & H4 & H5 & H6).
  assert (Hu : historyStep Demo.undone ≠ 0) by evaluated.
  assert (Hr : historyStep Demo.undone ≠ array_length (history Demo.undone) - 1)
    by evaluated.
  assert (Himg : array_get (history Demo.undone) (historyStep Demo.undone + 1)
                 = Png [solid black; solid white]) by evaluated.
  assert (Hq : quiet Demo.undone) by evaluated.
  assert (Hpen : penState (ctx Demo.undone)) by (split; evaluated).
  destruct (H3 Hu) as (K1 & _). destruct (H6 Hr) as (K2 & _ & _ & K3).
  split_and!; [exact Hwf | exact H1 | exact H4 | exact K1 | exact K2 | exact Himg
              | exact Hq | exact Hpen | exact (K3 _ Himg Hq Hpen)].
Defined.

(** Claim C4, where the code misses it.  After two strokes and the
    choice of the eraser, an undo succeeds and moves the cursor to the
    snapshot of the first stroke, and the redo that follows moves it back
    to the snapshot of the second; both snapshots are opaque, yet each
    decode paints through the eraser's composition and leaves the canvas
    fully transparent. *)
Lemma undo_redo_with_eraser :
  historyStep Demo.erasing = 2
  ∧ notification (undoLast Demo.erasing) = Some ("Undone", LInfo)
  ∧ historyStep (undoSettled Demo.erasing) = 1
  ∧ array_get (history Demo.erasing) 1 = Png [solid black; solid white]
  ∧ bitmap (ctx (undoSettled Demo.erasing)) = [transparent; transparent]
  ∧ notification (redoLast (undoSettled Demo.erasing)) = Some ("Redone", LInfo)
  ∧ historyStep (redoSettled (undoSettled Demo.erasing)) = 2
  ∧ array_get (history Demo.erasing) 2 = Png [solid black; solid white]
  ∧ bitmap (ctx (redoSettled (undoSettled Demo.erasing))) = [transparent; transparent].
Proof. split_and!; evaluated. Qed.

(** *** Undo and redo write the active page

    A successful undo or redo, once the decode it started has ended, has
    overwritten the slot of the active page with the snapshot restored
    and left every other slot, the length of the page list and the active
    index as they were.  With the pen's context the canvas is then that
    snapshot on white, which is the snapshot itself, pixel for pixel, when
    it is opaque and as large as the canvas: the slot of the active page
    and the canvas agree. *)
Theorem undo_redo_store_active_slot (s : PrescriptionCanvas) (img : Bitmap) :
  pages_wf s → quiet s →
  (historyStep s > 0 → array_get (history s) (historyStep s - 1) = Png img →
     let s' := undoSettled s in
     notification s' = Some ("Undone", LInfo)
     ∧ pages s' = array_set (pages s) (currentPageIndex s) (Png img)
     ∧ currentPageIndex s' = currentPageIndex s
     ∧ array_get (pages s') (currentPageIndex s') = Png img
     ∧ (∀ j, j ≠ currentPageIndex s → array_get (pages s') j = array_get (pages s) j)
     ∧ array_length (pages s') = array_length (pages s)
     ∧ (penState (ctx s) →
        bitmap (ctx s') = onWhite img (length (bitmap (ctx s)))
        ∧ (opaque img → length img = length (bitmap (ctx s)) → bitmap (ctx s') = img)))
  ∧ (historyStep s < array_length (history s) - 1 →
     array_get (history s) (historyStep s + 1) = Png img →
     let s' := redoSettled s in
     notification s' = Some ("Redone", LInfo)
     ∧ pages s' = array_set (pages s) (currentPageIndex s) (Png img)
     ∧ currentPageIndex s' = currentPageIndex s
     ∧ array_get (pages s') (currentPageIndex s') = Png img
     ∧ (∀ j, j ≠ currentPageIndex s → array_get (pages s') j = array_get (pages s) j)
     ∧ array_length (pages s') = array_length (pages s)
     ∧ (penState (ctx s) →
        bitmap (ctx s') = onWhite img (length (bitmap (ctx s)))
        ∧ (opaque img → length img = length (bitmap (ctx s)) → bitmap (ctx s') = img))).
Proof.
  intros [H1 H2] Hq.
  assert (Hshape : ∀ m l x, pages x = pages s → currentPageIndex x = currentPageIndex s →
            ctx x = ctx s →
            let s' := canvasStateLoaded (Png img) img (showNotification m l x) in
            notification s' = Some (m, l)
            ∧ pages s' = array_set (pages s) (currentPageIndex s) (Png img)
            ∧ currentPageIndex s' = currentPageIndex s
            ∧ array_get (pages s') (currentPageIndex s') = Png img
            ∧ (∀ j, j ≠ currentPageIndex s → array_get (pages s') j = array_get (pages s) j)
            ∧ array_length (pages s') = array_length (pages s)
            ∧ (penState (ctx s) →
               bitmap (ctx s') = onWhite img (length (bitmap (ctx s)))
               ∧ (opaque img → length img = length (bitmap (ctx s)) →
                  bitmap (ctx s') = img))).
  { intros m l x Hp Hi Hc s'. subst s'. unfold canvasStateLoaded. fields.
    rewrite Hp, Hi, Hc. split_and!; try done.
    - apply array_get_set_eq; lia.
    - intros j Hj. by apply array_get_set_ne.
    - apply array_length_set; lia.
    - intros Hpen. rewrite drawImage_fillWhite_pen by done. split; [done|].
      intros Hop <-. by apply onWhite_opaque. }
  split.
  - intros H0 Himg. unfold undoSettled. rewrite undoLast_moves by lia.
    rewrite Himg, settle_loadCanvasState by done. by apply Hshape.
  - intros H0 Himg. unfold redoSettled. rewrite redoLast_moves by lia.
    rewrite Himg, settle_loadCanvasState by done. by apply Hshape.
Qed.

(** On the small page: a second undo with the pen brings back the blank
    snapshot, in the slot and, on white, on the canvas. *)
Lemma undo_redo_store_active_slot_witness :
  let blank := replicate 2 transparent in
  pages_wf Demo.undone ∧ quiet Demo.undone ∧ historyStep Demo.undone > 0
  ∧ array_get (history Demo.undone) (historyStep Demo.undone - 1) = Png blank
  ∧ penState (ctx Demo.undone)
  ∧ pages (undoSettled Demo.undone)
    = array_set (pages Demo.undone) (currentPageIndex Demo.undone) (Png blank)
  ∧ bitmap (ctx (undoSettled Demo.undone))
    = onWhite blank (length (bitmap (ctx Demo.undone))).
Proof.
  intros blank.
  assert (Hwf : pages_wf Demo.undone) by (split; evaluated).
  assert (Hq : quiet Demo.undone) by evaluated.
  assert (H0 : historyStep Demo.undone > 0) by evaluated.
  assert (Himg : array_get (history Demo.undone) (historyStep Demo.undone - 1) = Png blank)
    by evaluated.
  assert (Hpen : penState (ctx Demo.undone)) by (split; vm_compute; reflexivity).
  destruct (undo_redo_store_active_slot Demo.undone blank Hwf Hq) as [H _].
  destruct (H H0 Himg) as (K1 & K2 & K3 & K4 & K5 & K6 & K7).
  destruct (K7 Hpen) as [K8 _].
  split_and!; [exact Hwf | exact Hq | exact H0 | exact Himg | exact Hpen | exact K2 | exact K8].
Defined.

(** Claim C9, where the code misses it.  After two strokes and the choice
    of the eraser an undo succeeds, and once its decode has ended the
    canvas does not show the picture the active slot holds: the slot has
    the restored snapshot, the canvas nothing. *)
Lemma undo_with_eraser_mismatch :
  notification (undoLast Demo.erasing) = Some ("Undone", LInfo)
  ∧ array_get (pages (undoSettled Demo.erasing)) (currentPageIndex (undoSettled Demo.erasing))
    = Png [solid black; solid white]
  ∧ bitmap (ctx (undoSettled Demo.erasing)) = [transparent; transparent]
  ∧ ¬ shows (ctx (undoSettled Demo.erasing))
        (array_get (pages (undoSettled Demo.erasing))
           (currentPageIndex (undoSettled Demo.erasing))).
Proof.
  split_and!; [evaluated | evaluated | evaluated |]. intros (img & Hslot & Hbit).
  vm_compute in Hslot. injection Hslot as <-.
  apply (f_equal (λ b, match b with p :: _ => this (alpha p) | [] => 0%Q end)) in Hbit.
  vm_compute in Hbit. discriminate Hbit.
Qed.

(** What [setDrawingProperties] writes depends on the tool alone. *)
Lemma setDrawingProperties_table (s : PrescriptionCanvas) (c : Context)
  (op : CompositeOp) (opacity multiplier : Qc) :
  toolTable (currentTool s) = Some (op, opacity, multiplier) →
  globalCompositeOperation (setDrawingProperties s c) = op
  ∧ globalAlpha (setDrawingProperties s c) = opacity
  ∧ lineWidth (setDrawingProperties s c)
    = (Q2Qc (inject_Z (currentSize s)) * multiplier)%Qc.
Proof.
  unfold toolTable, setDrawingProperties. cbv zeta.
  destruct (String.eqb (currentTool s) "pen");
    [|destruct (String.eqb (currentTool s) "brush");
      [|destruct (String.eqb (currentTool s) "highlighter");
        [|destruct (String.eqb (currentTool s) "eraser"); [|done]]]];
    intros [= <- <- <-]; fields; split_and!; try done.
  ring.
Qed.

(** *** The tool table

    Claim C8.  At the start of every stroke, on either canvas, the
    context of that canvas is given the composition, the opacity and the
    line width of the selected tool's row in the table: pen normal, 1 and
    once the selected size; brush normal, 0.8 and 1.5 times; highlighter
    normal, 0.3 and 3 times; eraser destination-out, 1 and twice. *)
Theorem tool_table_applied (t : Target) (coords : Point) (s : PrescriptionCanvas)
  (op : CompositeOp) (opacity multiplier : Qc) :
  toolTable (currentTool s) = Some (op, opacity, multiplier) →
  let c := context t (startDrawing t coords s) in
  globalCompositeOperation c = op
  ∧ globalAlpha c = opacity
  ∧ lineWidth c = (Q2Qc (inject_Z (currentSize s)) * multiplier)%Qc.
Proof.
  intros Htool c.
  assert (Hc : c = setDrawingProperties s
                     (moveTo coords (beginPath (context t s)))).
  { subst c. unfold startDrawing. destruct t; reflexivity. }
  rewrite Hc. by apply setDrawingProperties_table.
Qed.

(** On the small page: the highlighter at size 4. *)
Lemma tool_table_applied_witness :
  let s := setSize 4 (setTool "highlighter" Demo.start) in
  toolTable (currentTool s) = Some (SourceOver, Q2Qc 0.3, Q2Qc 3)
  ∧ globalAlpha (ctx (startDrawing Main (0, 0)%Qc s)) = Q2Qc 0.3
  ∧ lineWidth (ctx (startDrawing Main (0, 0)%Qc s)) = (Q2Qc (inject_Z 4) * Q2Qc 3)%Qc.
Proof.
  intros s.
  assert (Htool : toolTable (currentTool s) = Some (SourceOver, Q2Qc 0.3, Q2Qc 3))
    by reflexivity.
  destruct (tool_table_applied Main (0, 0)%Qc s _ _ _ Htool) as (H1 & H2 & H3).
  split_and!; [exact Htool | exact H2 | exact H3].
Defined.

Lemma onWhite_is_opaque (img : Bitmap) (n : nat) : opaque (onWhite img n).
Proof.
  unfold onWhite, opaque. revert img.
  induction n as [|n IH]; intros [|p img]; simpl; try by constructor.
  - constructor; [done|]. apply (opaque_replicate_white n).
  - constructor; [|apply IH]. unfold composite, scale. simpl. ring.
Qed.

Lemma length_onWhite (img : Bitmap) (n : nat) : length (onWhite img n) = n.
Proof. unfold onWhite. by rewrite length_blend, length_replicate. Qed.

Lemma array_get_frame (n : nat) (l : list DataURL) (i : Z) :
  Forall (frame n) l → 0 ≤ i < array_length l → frame n (array_get l i).
Proof.
  unfold array_get, array_length. intros Hl Hi. case_decide; [|lia].
  destruct (l !! Z.to_nat i) as [u|] eqn:Hu.
  - simpl. eapply Forall_lookup_1; eauto.
  - apply lookup_ge_None in Hu. lia.
Qed.

(** *** Loading a snapshot with the pen in hand *)

Lemma canvasStateLoaded_steady (n : nat) (img : Bitmap) (s : PrescriptionCanvas) :
  steady n s → length img = n →
  steady n (canvasStateLoaded (Png img) img s)
  ∧ bitmap (ctx (canvasStateLoaded (Png img) img s)) = onWhite img n.
Proof.
  intros [Hpen Hsize Hop Htool Hq Hfr] Himg.
  assert (Hb : bitmap (ctx (canvasStateLoaded (Png img) img s)) = onWhite img n).
  { unfold canvasStateLoaded. fields. rewrite drawImage_fillWhite_pen by done.
    by rewrite Hsize. }
  split; [|done]. split; try done.
  - rewrite Hb. apply length_onWhite.
  - rewrite Hb. apply onWhite_is_opaque.
Qed.

Lemma undoSettled_steady (n : nat) (s : PrescriptionCanvas) :
  steady n s → history_wf s → historyStep s > 0 →
  ∃ img, array_get (history s) (historyStep s - 1) = Png img
    ∧ steady n (undoSettled s)
    ∧ history (undoSettled s) = history s
    ∧ historyStep (undoSettled s) = historyStep s - 1
    ∧ bitmap (ctx (undoSettled s)) = onWhite img n
    ∧ notification (undoLast s) = Some ("Undone", LInfo).
Proof.
  intros Hs [H1 H2] H0.
  destruct (array_get_frame n (history s) (historyStep s - 1)) as (img & Himg & Hlen);
    [apply Hs | lia |].
  exists img. split; [done|].
  unfold undoSettled. rewrite undoLast_moves by lia. rewrite Himg.
  rewrite settle_loadCanvasState by apply Hs.
  destruct (canvasStateLoaded_steady n img
              (showNotification "Undone" LInfo (set_historyStep (historyStep s - 1) s)))
    as [Hst Hb]; [by destruct Hs | done |].
  split_and!; done.
Qed.

Lemma redoSettled_steady (n : nat) (s : PrescriptionCanvas) :
  steady n s → history_wf s → historyStep s < array_length (history s) - 1 →
  ∃ img, array_get (history s) (historyStep s + 1) = Png img
    ∧ steady n (redoSettled s)
    ∧ history (redoSettled s) = history s
    ∧ historyStep (redoSettled s) = historyStep s + 1
    ∧ bitmap (ctx (redoSettled s)) = onWhite img n.
Proof.
  intros Hs [H1 H2] H0.
  destruct (array_get_frame n (history s) (historyStep s + 1)) as (img & Himg & Hlen);
    [apply Hs | lia |].
  exists img. split; [done|].
  unfold redoSettled. rewrite redoLast_moves by lia. rewrite Himg.
  rewrite settle_loadCanvasState by apply Hs.
  destruct (canvasStateLoaded_steady n img
              (showNotification "Redone" LInfo (set_historyStep (historyStep s + 1) s)))
    as [Hst Hb]; [by destruct Hs | done |].
  split_and!; done.
Qed.

(** [k] undos in a row, each decode ending before the next call. *)
Lemma undo_iter_steady (n : nat) (s : PrescriptionCanvas) (k : nat) :
  steady n s → history_wf s → Z.of_nat k ≤ historyStep s →
  let u := Nat.iter k undoSettled s in
  steady n u ∧ history u = history s ∧ historyStep u = historyStep s - Z.of_nat k
  ∧ ((0 < k)%nat →
       ∃ img, array_get (history s) (historyStep s - Z.of_nat k) = Png img
              ∧ bitmap (ctx u) = onWhite img n).
Proof.
  intros Hs Hwf. induction k as [|k IH]; intros Hk u.
  - subst u. simpl. split_and!; [done | done | lia | lia].
  - subst u. rewrite Nat.iter_succ. destruct IH as (Hst & Hh & Hc & _); [lia|].
    set (v := Nat.iter k undoSettled s) in *.
    assert (Hv : history_wf v) by (destruct Hwf; split; rewrite ?Hh, ?Hc; lia).
    destruct (undoSettled_steady n v Hst Hv) as (img & Himg & H1 & H2 & H3 & H4 & _); [lia|].
    split_and!; [done | congruence | lia |].
    intros _. exists img. split; [|done].
    rewrite <- Hh, <- Himg. f_equal. lia.
Qed.

Lemma redo_iter_steady (n : nat) (s : PrescriptionCanvas) (k : nat) :
  steady n s → history_wf s → historyStep s + Z.of_nat k ≤ array_length (history s) - 1 →
  let r := Nat.iter k redoSettled s in
  steady n r ∧ history r = history s ∧ historyStep r = historyStep s + Z.of_nat k
  ∧ ((0 < k)%nat →
       ∃ img, array_get (history s) (historyStep s + Z.of_nat k) = Png img
              ∧ bitmap (ctx r) = onWhite img n).
Proof.
  intros Hs Hwf. induction k as [|k IH]; intros Hk r.
  - subst r. simpl. split_and!; [done | done | lia | lia].
  - subst r. rewrite Nat.iter_succ. destruct IH as (Hst & Hh & Hc & _); [lia|].
    set (v := Nat.iter k redoSettled s) in *.
    assert (Hv : history_wf v) by (destruct Hwf; split; rewrite ?Hh, ?Hc; lia).
    destruct (redoSettled_steady n v Hst Hv) as (img & Himg & H1 & H2 & H3 & H4);
      [rewrite Hh; lia|].
    split_and!; [done | congruence | lia |].
    intros _. exists img. split; [|done].
    rewrite <- Hh, <- Himg. f_equal. lia.
Qed.

(** *** One stroke of the pen *)

Lemma startDrawing_pen (n : nat) (from : Point) (s : PrescriptionCanvas) :
  steady n s →
  let x := startDrawing Main from s in
  steady n x ∧ isDrawing x = true
  ∧ history x = history s ∧ historyStep x = historyStep s.
Proof.
  intros [[Hop Ha] Hsize Hopq Htool Hq Hfr] x. subst x.
  unfold startDrawing, setDrawingProperties. cbv zeta. fields. rewrite Htool.
  cbn [String.eqb Ascii.eqb Bool.eqb]. fields. by split_and!.
Qed.

Lemma draw_pen (B : Browser) (n : nat) (p : Point) (s : PrescriptionCanvas) :
  steady n s →
  let x := draw B Main p s in
  steady n x ∧ isDrawing x = isDrawing s
  ∧ history x = history s ∧ historyStep x = historyStep s.
Proof.
  intros [[Hop Ha] Hsize Hopq Htool Hq Hfr] x. subst x.
  unfold draw. destruct (isDrawing s) eqn:Hd; [|by rewrite Hd].
  unfold stroke, lineTo, ink. fields. rewrite Hop, Ha.
  split_and!; try done. split; fields; try done.
  - by rewrite length_paint.
  - by apply paint_opaque.
Qed.

Lemma drags_pen (B : Browser) (n : nat) (via : list Point) (s : PrescriptionCanvas) :
  steady n s →
  let x := run B (map (MouseMove Main) via) s in
  steady n x ∧ isDrawing x = isDrawing s
  ∧ history x = history s ∧ historyStep x = historyStep s.
Proof.
  unfold run. revert s. induction via as [|p via IH]; intros s Hs; cbn [map foldl handle].
  - done.
  - destruct (draw_pen B n p s Hs) as (H1 & H2 & H3 & H4).
    destruct (IH (draw B Main p s) H1) as (H5 & H6 & H7 & H8).
    split_and!; [done | congruence..].
Qed.

(** A push with the cursor on the last entry of a stack that has room. *)
Lemma saveState_appends (s : PrescriptionCanvas) :
  history_wf s → historyStep s = array_length (history s) - 1 →
  array_length (history s) ≤ 49 →
  history (saveState s) = history s ++ [toDataURL (ctx s)]
  ∧ historyStep (saveState s) = historyStep s + 1
  ∧ ctx (saveState s) = ctx s
  ∧ currentTool (saveState s) = currentTool s
  ∧ loading (saveState s) = loading s.
Proof.
  intros [H1 H2] Hend Hroom.
  assert (Hrec : history (recordState s) = history s ++ [toDataURL (ctx s)]).
  { rewrite recordState_history by lia. rewrite take_ge; [done|].
    unfold array_length in *. lia. }
  assert (Hlen : array_length (history (recordState s)) = historyStep s + 2)
    by (apply recordState_length; lia).
  unfold saveState, limitHistory. case_decide; [lia|].
  rewrite Hrec, recordState_historyStep. split_and!; try done.
  all: unfold recordState; branches; done.
Qed.

Lemma stroke_pen (B : Browser) (n : nat) (from : Point) (via : list Point)
  (s : PrescriptionCanvas) :
  steady n s → history_wf s → historyStep s = array_length (history s) - 1 →
  array_length (history s) ≤ 49 →
  let d := run B (strokeEvents from via) s in
  steady n d
  ∧ history d = history s ++ [Png (bitmap (ctx d))]
  ∧ historyStep d = historyStep s + 1.
Proof.
  intros Hs Hwf Hend Hroom d. subst d. unfold strokeEvents, run.
  cbn [foldl handle]. rewrite foldl_app. cbn [foldl handle].
  destruct (startDrawing_pen n from s Hs) as (H1 & H2 & H3 & H4).
  destruct (drags_pen B n via (startDrawing Main from s) H1) as (H5 & H6 & H7 & H8).
  unfold run in *. set (x := foldl _ (startDrawing Main from s) _) in *. clearbody x.
  unfold stopDrawing. rewrite H6, H2.
  assert (Hx : history_wf (set_isDrawing false x)).
  { destruct Hwf. split; fields; rewrite ?H7, ?H8, ?H3, ?H4; done. }
  destruct (saveState_appends (set_isDrawing false x)) as (K1 & K2 & K3 & K4 & K5);
    [done | fields; congruence | fields; congruence |].
  fields. rewrite K2, K3. split_and!; [| by rewrite K1, H7, H3 | by rewrite H8, H4].
  destruct H5 as [Hpen Hsize Hopq Htool Hq Hfr].
  split; rewrite ?K3, ?K4; try done.
  - unfold quiet. by rewrite K5.
  - rewrite K1. apply Forall_app. split; [done|].
    apply Forall_singleton. by eexists.
Qed.

Lemma run_app (B : Browser) (a b : list Event) (s : PrescriptionCanvas) :
  run B (a ++ b) s = run B b (run B a s).
Proof. unfold run. by rewrite foldl_app. Qed.

Lemma strokes_pen (B : Browser) (n : nat) (strokes : list (Point * list Point))
  (s : PrescriptionCanvas) :
  steady n s → history_wf s → historyStep s = array_length (history s) - 1 →
  array_length (history s) + Z.of_nat (length strokes) ≤ 50 →
  let d := run B (strokesEvents strokes) s in
  steady n d ∧ history_wf d
  ∧ historyStep d = historyStep s + Z.of_nat (length strokes)
  ∧ historyStep d = array_length (history d) - 1
  ∧ (∃ more, history d = history s ++ more)
  ∧ (strokes ≠ [] → array_get (history d) (historyStep d) = Png (bitmap (ctx d))).
Proof.
  revert s. induction strokes as [|[from via] strokes IH]; intros s Hs Hwf Hend Hroom d.
  - subst d. cbn. split_and!; [done | done | lia | done | by exists []; rewrite app_nil_r | done].
  - subst d. unfold strokesEvents. cbn [map concat fst snd]. rewrite run_app.
    cbn [length] in Hroom.
    destruct (stroke_pen B n from via s) as (H1 & H2 & H3); [done | done | done | lia |].
    set (x := run B (strokeEvents from via) s) in *. clearbody x.
    assert (Hlen : array_length (history x) = array_length (history s) + 1).
    { rewrite H2, array_length_app. done. }
    assert (Hx : history_wf x) by (destruct Hwf; split; lia).
    destruct (IH x) as (K1 & K2 & K3 & K4 & [more K5] & K6); [done | done | lia | lia |].
    fold (strokesEvents strokes).
    split_and!; [done | done | cbn [length]; lia | done | | ].
    + exists ([Png (bitmap (ctx x))] ++ more). by rewrite K5, H2, <- app_assoc.
    + intros _. destruct strokes as [|st strokes]; [|by apply K6].
      unfold strokesEvents, run. cbn [map concat foldl].
      rewrite H2. apply array_get_last. lia.
Qed.

(** Decodes for the signature pad leave the prescription canvas alone. *)
Lemma settle_signature_only (s : PrescriptionCanvas) :
  (∀ u, (Main, u) ∉ loading s) →
  ctx (settle s) = ctx s ∧ history (settle s) = history s
  ∧ historyStep (settle s) = historyStep s ∧ currentTool (settle s) = currentTool s
  ∧ pages (settle s) = pages s ∧ currentPageIndex (settle s) = currentPageIndex s
  ∧ loading (settle s) = [].
Proof.
  unfold settle. remember (loading s) as l eqn:Hl. revert s Hl.
  induction l as [|[t u] l IH]; intros s Hl Hmain.
  - cbn. by rewrite <- Hl.
  - cbn [length]. rewrite Nat.iter_succ_r.
    assert (Ht : t = Signature).
    { destruct t; [|done]. exfalso. apply (Hmain u). apply elem_of_cons. by left. }
    subst t.
    assert (Hstep : loading (imageLoaded 0 s) = l ∧ ctx (imageLoaded 0 s) = ctx s
              ∧ history (imageLoaded 0 s) = history s
              ∧ historyStep (imageLoaded 0 s) = historyStep s
              ∧ currentTool (imageLoaded 0 s) = currentTool s
              ∧ pages (imageLoaded 0 s) = pages s
              ∧ currentPageIndex (imageLoaded 0 s) = currentPageIndex s).
    { unfold imageLoaded. rewrite <- Hl. cbn [lookup list_lookup delete list_delete].
      unfold signatureLoaded. destruct u; fields; done. }
    destruct Hstep as (S1 & S2 & S3 & S4 & S5 & S6 & S7).
    destruct (IH (imageLoaded 0 s)) as (T1 & T2 & T3 & T4 & T5 & T6 & T7).
    + done.
    + intros u' Hu'. apply (Hmain u'). apply elem_of_cons. by right.
    + by rewrite T1, T2, T3, T4, T5, T6, T7.
Qed.

Lemma initial_steady (B : Browser) dom date time saved :
  let s0 := initial B dom date time saved in
  let n := (width B * height B)%nat in
  steady n s0 ∧ history_wf s0
  ∧ history s0 = [Png (replicate n transparent)]
  ∧ historyStep s0 = 0
  ∧ bitmap (ctx s0) = replicate n (solid white).
Proof.
  intros s0 n. subst s0. unfold initial.
  pose proof (constructor_built B dom date time saved) as Hb.
  set (c := constructor B dom date time saved) in *.
  destruct (settle_signature_only c) as (S1 & S2 & S3 & S4 & S5 & S6 & S7);
    [apply Hb|].
  destruct Hb as [Hh Hstep Hp Hi Hbit Hpen Htool Hidle Hload].
  rewrite S2, S3, S1. split_and!; try done.
  - split; rewrite ?S1, ?S2, ?S4; try done.
    + rewrite Hbit. by rewrite length_replicate.
    + rewrite Hbit. apply opaque_replicate_white.
    + rewrite Hh. apply Forall_singleton. eexists. split; [done|].
      by rewrite length_replicate.
  - split; rewrite ?S2, ?S3, Hh, ?Hstep; done.
Qed.

(** *** The round trip

    Claim C3.  From the initial state, for N strokes of the pen with N
    between 1 and 49, each stroke ending with a push: N undos, each decode
    ending before the next call, all succeed and bring the canvas back to
    its blank initial content, and N redos after them bring back the
    canvas as the N-th stroke left it. *)
Theorem undo_redo_round_trip (B : Browser) (dom : gmap string string) (date time : string)
  (saved : option DataURL) (strokes : list (Point * list Point)) :
  (1 ≤ length strokes ≤ 49)%nat →
  undoRedoRoundTrip B (initial B dom date time saved) strokes.
Proof.
  intros Hn.
  destruct (initial_steady B dom date time saved) as (Hs0 & Hwf0 & Hh0 & Hc0 & Hb0).
  set (s0 := initial B dom date time saved) in *.
  set (n := (width B * height B)%nat) in *.
  destruct (strokes_pen B n strokes s0) as (Hd & Hwfd & Hcd & Hend & [more Hhd] & Hlast);
    [done | done | by rewrite Hh0, Hc0 | rewrite Hh0; unfold array_length; simpl; lia |].
  assert (Hlast' : array_get (history (run B (strokesEvents strokes) s0))
                     (historyStep (run B (strokesEvents strokes) s0))
                   = Png (bitmap (ctx (run B (strokesEvents strokes) s0)))).
  { apply Hlast. intros ->. simpl in Hn. lia. }
  clear Hlast. unfold undoRedoRoundTrip. cbv zeta.
  set (d := run B (strokesEvents strokes) s0) in *. clearbody d.
  rewrite Hc0 in Hcd. simpl in Hcd.
  assert (Hfirst : array_get (history d) 0 = Png (replicate n transparent)).
  { rewrite Hhd, Hh0. reflexivity. }
  split_and!.
  - intros k Hk.
    destruct (undo_iter_steady n d k) as (U1 & U2 & U3 & _); [done | done | lia |].
    destruct (undoSettled_steady n (Nat.iter k undoSettled d)) as (img & _ & _ & _ & _ & _ & Hu);
      [done | by destruct Hwfd; split; rewrite ?U2, ?U3; lia | lia | done].
  - destruct (undo_iter_steady n d (length strokes)) as (U1 & U2 & U3 & U4);
      [done | done | lia |].
    destruct U4 as (img & Himg & Hbit); [lia|].
    rewrite Hcd, Z.sub_diag, Hfirst in Himg. injection Himg as <-.
    by rewrite Hbit, Hb0, onWhite_transparent.
  - destruct (undo_iter_steady n d (length strokes)) as (U1 & U2 & U3 & _);
      [done | done | lia |].
    set (u := Nat.iter (length strokes) undoSettled d) in *.
    destruct (redo_iter_steady n u (length strokes)) as (R1 & R2 & R3 & R4).
    + done.
    + destruct Hwfd. split; rewrite ?U2, ?U3; lia.
    + rewrite U2, U3. lia.
    + destruct R4 as (img & Himg & Hbit); [lia|].
      assert (Hidx : historyStep u + Z.of_nat (length strokes) = historyStep d) by lia.
      rewrite U2, Hidx, Hlast' in Himg. injection Himg as <-.
      rewrite Hbit. destruct Hd as [_ Hsize Hopq _ _ _].
      rewrite <- Hsize. by apply onWhite_opaque.
Qed.

(** On the small page: two strokes. *)
Lemma undo_redo_round_trip_witness :
  (1 ≤ length [Demo.aStroke; Demo.aStroke] ≤ 49)%nat
  ∧ undoRedoRoundTrip Demo.browser (initial Demo.browser ∅ "2024-05-17" "09:30" None)
      [Demo.aStroke; Demo.aStroke].
Proof.
  assert (Hn : (1 ≤ length [Demo.aStroke; Demo.aStroke] ≤ 49)%nat) by (simpl; lia).
  split; [exact Hn|].
  exact (undo_redo_round_trip Demo.browser ∅ "2024-05-17" "09:30" None
           [Demo.aStroke; Demo.aStroke] Hn).
Defined.

(** Claim C3, at N = 50.  The fiftieth stroke pushes the initial snapshot
    out of the stack, and the round trip fails: the fiftieth undo has
    nothing to undo. *)
Lemma undo_redo_round_trip_fails_at_50 :
  ¬ undoRedoRoundTrip Demo.browser Demo.start (replicate 50 Demo.aStroke).
Proof.
  intros (Hundo & _ & _).
  specialize (Hundo 49%nat ltac:(rewrite length_replicate; lia)).
  vm_compute in Hundo. discriminate Hundo.
Qed.

(** ** Further properties of the methods *)

(** [saveState] writes the history, its cursor and the page list, and
    nothing else. *)
Lemma saveState_frame (s : PrescriptionCanvas) :
  ctx (saveState s) = ctx s ∧ signatureCtx (saveState s) = signatureCtx s
  ∧ isDrawing (saveState s) = isDrawing s ∧ currentTool (saveState s) = currentTool s
  ∧ currentPageIndex (saveState s) = currentPageIndex s
  ∧ loading (saveState s) = loading s ∧ notification (saveState s) = notification s
  ∧ pages (saveState s) = array_set (pages s) (currentPageIndex s) (toDataURL (ctx s)).
Proof. unfold saveState, limitHistory, recordState. branches; done. Qed.

Lemma startDrawing_frame (t : Target) (from : Point) (s : PrescriptionCanvas) :
  isDrawing (startDrawing t from s) = true
  ∧ history (startDrawing t from s) = history s
  ∧ historyStep (startDrawing t from s) = historyStep s
  ∧ pages (startDrawing t from s) = pages s
  ∧ currentPageIndex (startDrawing t from s) = currentPageIndex s.
Proof. unfold startDrawing. destruct t; fields; done. Qed.

Lemma draw_frame (B : Browser) (t : Target) (p : Point) (s : PrescriptionCanvas) :
  isDrawing (draw B t p s) = isDrawing s
  ∧ history (draw B t p s) = history s
  ∧ historyStep (draw B t p s) = historyStep s
  ∧ pages (draw B t p s) = pages s
  ∧ currentPageIndex (draw B t p s) = currentPageIndex s.
Proof. unfold draw. destruct (isDrawing s) eqn:Hd, t; fields; done. Qed.

Lemma drags_frame (B : Browser) (t : Target) (via : list Point) (s : PrescriptionCanvas) :
  let x := run B (map (MouseMove t) via) s in
  isDrawing x = isDrawing s ∧ history x = history s ∧ historyStep x = historyStep s
  ∧ pages x = pages s ∧ currentPageIndex x = currentPageIndex s.
Proof.
  unfold run. revert s. induction via as [|p via IH]; intros s; cbn [map foldl handle].
  - done.
  - destruct (draw_frame B t p s) as (H1 & H2 & H3 & H4 & H5).
    destruct (IH (draw B t p s)) as (K1 & K2 & K3 & K4 & K5).
    split_and!; congruence.
Qed.

(** *** How the history grows *)

Lemma saveState_at_end (s : PrescriptionCanvas) :
  array_length (history s) ≤ 50 → historyStep s = array_length (history s) - 1 →
  array_length (history (saveState s)) = Z.min (array_length (history s) + 1) 50
  ∧ historyStep (saveState s) = array_length (history (saveState s)) - 1.
Proof.
  intros Hroom Hend. pose proof (array_length_nonneg (history s)) as H0.
  pose proof (recordState_length s ltac:(lia)) as Hlen.
  pose proof (recordState_historyStep s) as Hstep.
  unfold saveState, limitHistory. case_decide; fields.
  - rewrite array_length_shift by lia. lia.
  - lia.
Qed.

Lemma stroke_pushes (B : Browser) (from : Point) (via : list Point) (s : PrescriptionCanvas) :
  array_length (history s) ≤ 50 → historyStep s = array_length (history s) - 1 →
  let d := run B (strokeEvents from via) s in
  array_length (history d) = Z.min (array_length (history s) + 1) 50
  ∧ historyStep d = array_length (history d) - 1.
Proof.
  intros Hroom Hend d. subst d. unfold strokeEvents, run.
  cbn [foldl handle]. rewrite foldl_app. cbn [foldl handle].
  destruct (startDrawing_frame Main from s) as (H1 & H2 & H3 & _).
  destruct (drags_frame B Main via (startDrawing Main from s)) as (H4 & H5 & H6 & _).
  unfold run in *. set (x := foldl _ (startDrawing Main from s) _) in *. clearbody x.
  unfold stopDrawing. rewrite H4, H1.
  assert (Hh : history (set_isDrawing false x) = history s) by (fields; congruence).
  assert (Hc : historyStep (set_isDrawing false x) = historyStep s) by (fields; congruence).
  destruct (saveState_at_end (set_isDrawing false x)) as [K1 K2].
  - by rewrite Hh.
  - by rewrite Hh, Hc.
  - split; [|done]. by rewrite K1, Hh.
Qed.

Lemma strokes_push (B : Browser) (strokes : list (Point * list Point)) (s : PrescriptionCanvas) :
  array_length (history s) ≤ 50 → historyStep s = array_length (history s) - 1 →
  let d := run B (strokesEvents strokes) s in
  array_length (history d) = Z.min (array_length (history s) + Z.of_nat (length strokes)) 50
  ∧ historyStep d = array_length (history d) - 1.
Proof.
  revert s. induction strokes as [|[from via] strokes IH]; intros s Hroom Hend d.
  - subst d. cbn. split; [lia | done].
  - subst d. unfold strokesEvents. cbn [map concat fst snd]. rewrite run_app.
    destruct (stroke_pushes B from via s Hroom Hend) as [H1 H2].
    set (x := run B (strokeEvents from via) s) in *. clearbody x.
    destruct (IH x) as [K1 K2]; [lia | done |].
    fold (strokesEvents strokes). split; [|done]. rewrite K1, H1. cbn [length]. lia.
Qed.

(** A push from anywhere in a well-formed history. *)
Lemma saveState_grows (s : PrescriptionCanvas) :
  history_wf s →
  array_length (history (saveState s)) = Z.min (historyStep s + 2) 50
  ∧ historyStep (saveState s) = array_length (history (saveState s)) - 1.
Proof.
  intros [H1 H2]. pose proof (recordState_length s ltac:(lia)) as Hlen.
  pose proof (recordState_historyStep s) as Hstep.
  unfold saveState, limitHistory. case_decide; fields.
  - rewrite array_length_shift by lia. lia.
  - lia.
Qed.

(** One stroke, with whatever tool, from anywhere in a well-formed
    history. *)
Lemma stroke_grows (B : Browser) (from : Point) (via : list Point) (s : PrescriptionCanvas) :
  history_wf s →
  let d := run B (strokeEvents from via) s in
  array_length (history d) = Z.min (historyStep s + 2) 50
  ∧ historyStep d = array_length (history d) - 1.
Proof.
  intros Hwf d. subst d. unfold strokeEvents, run.
  cbn [foldl handle]. rewrite foldl_app. cbn [foldl handle].
  destruct (startDrawing_frame Main from s) as (H1 & H2 & H3 & _).
  destruct (drags_frame B Main via (startDrawing Main from s)) as (H4 & H5 & H6 & _).
  unfold run in *.
  forget (foldl (λ s e, handle B e s) (startDrawing Main from s) (map (MouseMove Main) via))
    as x.
  unfold stopDrawing. rewrite H4, H1.
  assert (Hh : history (set_isDrawing false x) = history s) by (fields; congruence).
  assert (Hc : historyStep (set_isDrawing false x) = historyStep s) by (fields; congruence).
  assert (Hx : history_wf (set_isDrawing false x)).
  { destruct Hwf as [K1 K2]. split; rewrite ?Hh, ?Hc; done. }
  destruct (saveState_grows (set_isDrawing false x) Hx) as [K1 K2].
  split; [|done]. by rewrite K1, Hc.
Qed.

(** Every stroke on the prescription canvas pushes one snapshot, whatever
    tool, colour and size are selected and whatever the canvas holds.
    From a well-formed history, strokes leave the entries up to the
    cursor and one snapshot for each stroke, fifty at most, with the
    cursor on the last. *)
Theorem history_after_strokes (B : Browser) (strokes : list (Point * list Point))
  (s : PrescriptionCanvas) :
  history_wf s → strokes ≠ [] →
  let d := run B (strokesEvents strokes) s in
  array_length (history d) = Z.min (historyStep s + 1 + Z.of_nat (length strokes)) 50
  ∧ historyStep d = array_length (history d) - 1.
Proof.
  intros Hwf Hne d. subst d. destruct strokes as [|[from via] strokes]; [done|].
  unfold strokesEvents. cbn [map concat fst snd]. rewrite run_app.
  fold (strokesEvents strokes).
  destruct (stroke_grows B from via s Hwf) as [H1 H2].
  forget (run B (strokeEvents from via) s) as x.
  destruct (strokes_push B strokes x) as [K1 K2]; [lia | done |].
  split; [|done]. rewrite K1, H1. cbn [length]. destruct Hwf as [W1 W2]. lia.
Qed.

(** On the small page: two strokes with the eraser, after two with the
    pen. *)
Lemma history_after_strokes_witness :
  history_wf Demo.erasing ∧ [Demo.aStroke; Demo.aStroke] ≠ []
  ∧ currentTool Demo.erasing = "eraser" ∧ historyStep Demo.erasing = 2
  ∧ array_length
      (history (run Demo.browser (strokesEvents [Demo.aStroke; Demo.aStroke]) Demo.erasing))
    = Z.min (historyStep Demo.erasing + 1 + Z.of_nat (length [Demo.aStroke; Demo.aStroke])) 50.
Proof.
  assert (Hwf : history_wf Demo.erasing) by (split; evaluated).
  assert (Hne : [Demo.aStroke; Demo.aStroke] ≠ []) by discriminate.
  destruct (history_after_strokes Demo.browser [Demo.aStroke; Demo.aStroke] Demo.erasing
              Hwf Hne) as [H1 H2].
  split_and!; [exact Hwf | exact Hne | evaluated | evaluated | exact H1].
Defined.

(** *** Construction *)

(** [new PrescriptionCanvas()] takes its first snapshot before it paints
    the background: the one entry of the history and the slot of the one
    page hold the transparent canvas the browser handed over, while the
    canvas itself is white; the cursor is on that entry, the first page
    is active and the pen is selected. *)
Theorem constructor_snapshot_precedes_background (B : Browser) (dom : gmap string string)
  (date time : string) (saved : option DataURL) :
  let s := constructor B dom date time saved in
  let n := (width B * height B)%nat in
  history s = [Png (replicate n transparent)] ∧ historyStep s = 0
  ∧ pages s = [Png (replicate n transparent)] ∧ currentPageIndex s = 0
  ∧ bitmap (ctx s) = replicate n (solid white)
  ∧ currentTool s = "pen" ∧ isDrawing s = false.
Proof.
  intros s n. destruct (constructor_built B dom date time saved) as [H1 H2 H3 H4 H5 H6 H7 H8 H9].
  by split_and!.
Qed.

(** *** The end of a stroke *)

(** [mouseup] and [mouseout] both call [stopDrawing]: whichever comes
    second finds the stroke ended and does nothing, so that one stroke
    pushes one snapshot. *)
Theorem stopDrawing_once (t t' : Target) (s : PrescriptionCanvas) :
  stopDrawing t' (stopDrawing t s) = stopDrawing t s.
Proof.
  assert (Hidle : ∀ x, isDrawing x = false → stopDrawing t' x = x).
  { intros x Hx. unfold stopDrawing. by rewrite Hx. }
  apply Hidle. unfold stopDrawing. destruct (isDrawing s) eqn:Hd; [|done].
  destruct t; [|done].
  destruct (saveState_frame (set_isDrawing false s)) as (_ & _ & -> & _). done.
Qed.

(** A stroke on the signature pad, from press to release, leaves the
    prescription canvas, the history, its cursor and the pages as they
    were: signatures are not recorded for undo. *)
Theorem signature_stroke_not_recorded (B : Browser) (from : Point) (via : list Point)
  (s : PrescriptionCanvas) :
  let d := run B (MouseDown Signature from :: map (MouseMove Signature) via
                    ++ [MouseUp Signature]) s in
  ctx d = ctx s ∧ history d = history s ∧ historyStep d = historyStep s
  ∧ pages d = pages s ∧ currentPageIndex d = currentPageIndex s
  ∧ isDrawing d = false.
Proof.
  intros d. subst d. unfold run. cbn [foldl handle]. rewrite foldl_app. cbn [foldl handle].
  assert (Hdrags : ∀ x, ctx (foldl (λ s e, handle B e s) x (map (MouseMove Signature) via))
                        = ctx x).
  { clear. induction via as [|p via IH]; intros x; cbn [map foldl handle]; [done|].
    rewrite IH. unfold draw. destruct (isDrawing x); done. }
  destruct (startDrawing_frame Signature from s) as (H1 & H2 & H3 & H4 & H5).
  destruct (drags_frame B Signature via (startDrawing Signature from s))
    as (K1 & K2 & K3 & K4 & K5).
  specialize (Hdrags (startDrawing Signature from s)).
  unfold run in *. set (x := foldl _ (startDrawing Signature from s) _) in *. clearbody x.
  unfold stopDrawing. rewrite K1, H1. fields.
  split_and!; [| congruence.. | done].
  rewrite Hdrags. unfold startDrawing. done.
Qed.

(** *** Pages *)

Lemma array_set_last (l : list DataURL) (a v : DataURL) :
  array_set (l ++ [a]) (array_length (l ++ [a]) - 1) v = l ++ [v].
Proof.
  unfold array_set, array_length. rewrite length_app. cbn [length].
  repeat case_decide; try lia.
  replace (Z.to_nat (Z.of_nat (length l + 1) - 1)) with (length l + 0)%nat by lia.
  by rewrite insert_app_r.
Qed.

Lemma array_set_end (l : list DataURL) (a v : DataURL) :
  array_set (l ++ [a]) (array_length l) v = l ++ [v].
Proof.
  rewrite <- (array_set_last l a v). f_equal.
  rewrite array_length_app. unfold array_length at 3. simpl. lia.
Qed.

Lemma addPage_pages (s : PrescriptionCanvas) :
  pages (addPage s) = pages s ++ [toDataURL (fillWhite (ctx s))]
  ∧ currentPageIndex (addPage s) = array_length (pages s).
Proof.
  unfold addPage. cbv zeta.
  set (x := on Main fillWhite _).
  destruct (saveState_frame x) as (H1 & _ & _ & _ & H2 & _ & _ & H3).
  fields. rewrite H3, H2. subst x. fields. split; [apply array_set_last|].
  rewrite array_length_app. unfold array_length at 2. simpl. lia.
Qed.

(** [addPage] appends exactly one page and makes it the active one; the
    empty placeholder it pushes is replaced, in the same call, by the
    snapshot of the canvas as the call leaves it, and every page that was
    there keeps its slot.  With the pen's context that canvas, and with it
    the new page, is white all over. *)
Theorem addPage_appends_white_page (s : PrescriptionCanvas) :
  let s' := addPage s in
  let n := length (bitmap (ctx s)) in
  pages s' = pages s ++ [toDataURL (ctx s')]
  ∧ currentPageIndex s' = array_length (pages s)
  ∧ notification s'
    = Some ("Page " +:+ pretty (array_length (pages s) + 1) +:+ " added", LSuccess)
  ∧ (penState (ctx s) →
     bitmap (ctx s') = replicate n (solid white)
     ∧ pages s' = pages s ++ [Png (replicate n (solid white))]).
Proof.
  intros s' n. subst s' n. unfold addPage. cbv zeta.
  set (x := on Main fillWhite _).
  destruct (saveState_frame x) as (H1 & _ & _ & _ & H2 & _ & _ & H3).
  assert (Hi : currentPageIndex x = array_length (pages s)).
  { subst x. fields. rewrite array_length_app. unfold array_length at 2. simpl. lia. }
  assert (Hp : array_set (pages x) (currentPageIndex x) (toDataURL (ctx x))
               = pages s ++ [toDataURL (fillWhite (ctx s))]).
  { subst x. fields. apply array_set_last. }
  assert (Hc : ctx x = fillWhite (ctx s)) by (subst x; by fields).
  fields. rewrite H3, Hp, H1, H2, Hi, Hc. split_and!; [done | done | done |].
  intros Hpen. destruct (fillWhite_pen (ctx s) Hpen) as [_ Hb].
  unfold toDataURL. by rewrite Hb.
Qed.

(** On the small page: a page added after two strokes of the pen. *)
Lemma addPage_appends_white_page_witness :
  penState (ctx Demo.drawn)
  ∧ bitmap (ctx (addPage Demo.drawn))
    = replicate (length (bitmap (ctx Demo.drawn))) (solid white)
  ∧ pages (addPage Demo.drawn)
    = pages Demo.drawn
      ++ [Png (replicate (length (bitmap (ctx Demo.drawn))) (solid white))].
Proof.
  assert (Hpen : penState (ctx Demo.drawn)) by (split; evaluated).
  destruct (addPage_appends_white_page Demo.drawn) as (_ & _ & _ & H).
  destruct (H Hpen) as [H1 H2].
  split_and!; [exact Hpen | exact H1 | exact H2].
Defined.

(** *** Snapshots and the pen *)

Lemma array_get_app_l (l k : list DataURL) (i : Z) :
  i < array_length l → array_get (l ++ k) i = array_get l i.
Proof.
  unfold array_get, array_length. intros H. case_decide; [|done].
  by rewrite lookup_app_l by lia.
Qed.

Lemma array_get_take (l : list DataURL) (n : nat) (i : Z) :
  i < Z.of_nat n → array_get (take n l) i = array_get l i.
Proof.
  unfold array_get. intros H. case_decide; [|done]. by rewrite lookup_take_lt by lia.
Qed.

Lemma steady_frame (n : nat) (s x : PrescriptionCanvas) :
  ctx x = ctx s → currentTool x = currentTool s → loading x = loading s →
  history x = history s → steady n s → steady n x.
Proof.
  intros H1 H2 H3 H4 [K1 K2 K3 K4 K5 K6].
  split; unfold quiet in *; rewrite ?H1, ?H2, ?H3, ?H4; done.
Qed.

(** A push in a steady state: the snapshot of the canvas comes on top,
    the entry that was under the cursor lies just below it. *)
Lemma saveState_steady (n : nat) (s : PrescriptionCanvas) :
  steady n s → history_wf s →
  steady n (saveState s) ∧ history_wf (saveState s)
  ∧ historyStep (saveState s) > 0
  ∧ array_get (history (saveState s)) (historyStep (saveState s)) = Png (bitmap (ctx s))
  ∧ array_get (history (saveState s)) (historyStep (saveState s) - 1)
    = array_get (history s) (historyStep s).
Proof.
  intros Hs Hwf. pose proof Hwf as [H1 H2].
  pose proof (recordState_history s ltac:(lia)) as Hrec.
  pose proof (recordState_length s ltac:(lia)) as Hlen.
  pose proof (recordState_historyStep s) as Hstep.
  destruct (saveState_frame s) as (F1 & _ & _ & F2 & _ & F3 & _).
  assert (Htake : array_length (take (Z.to_nat (historyStep s + 1)) (history s))
                  = historyStep s + 1).
  { unfold array_length in *. rewrite length_take. lia. }
  assert (Htop : array_get (history (recordState s)) (historyStep s + 1)
                 = Png (bitmap (ctx s))).
  { rewrite Hrec. apply array_get_last. by rewrite Htake. }
  assert (Hbelow : array_get (history (recordState s)) (historyStep s)
                   = array_get (history s) (historyStep s)).
  { rewrite Hrec, array_get_app_l by lia. apply array_get_take. lia. }
  assert (Hfr : Forall (frame n) (history (recordState s))).
  { rewrite Hrec. apply Forall_app. split.
    - apply Forall_take. apply Hs.
    - apply Forall_singleton. exists (bitmap (ctx s)). split; [done|]. apply Hs. }
  assert (Hst : ∀ h, Forall (frame n) h → history (saveState s) = h → steady n (saveState s)).
  { intros h Hh Heq. destruct Hs as [K1 K2 K3 K4 K5 K6].
    split; unfold quiet in *; rewrite ?F1, ?F2, ?F3, ?Heq; done. }
  split_and!.
  - unfold saveState, limitHistory in *. case_decide.
    + apply (Hst (shift (history (recordState s)))); [|done].
      unfold shift. by apply Forall_drop.
    + by apply (Hst (history (recordState s))).
  - by apply history_wf_saveState.
  - unfold saveState, limitHistory. case_decide; fields; lia.
  - unfold saveState, limitHistory. case_decide; fields.
    + rewrite array_get_shift by lia. by rewrite Hstep.
    + by rewrite Hstep.
  - unfold saveState, limitHistory. case_decide; fields.
    + rewrite Hstep. replace (historyStep s + 1 - 1 - 1) with (historyStep s - 1) by lia.
      rewrite array_get_shift by lia. done.
    + rewrite Hstep. replace (historyStep s + 1 - 1) with (historyStep s) by lia. done.
Qed.

(** A successful undo whose decode ends at once. *)
Lemma undoSettled_eq (img : Bitmap) (s : PrescriptionCanvas) :
  quiet s → historyStep s > 0 → array_get (history s) (historyStep s - 1) = Png img →
  undoSettled s
  = canvasStateLoaded (Png img) img
      (showNotification "Undone" LInfo (set_historyStep (historyStep s - 1) s)).
Proof.
  intros Hq H0 Himg. unfold undoSettled. rewrite undoLast_moves by lia.
  rewrite Himg. by rewrite settle_loadCanvasState.
Qed.

(** Opening a page that holds a picture, its decode ending at once. *)
Lemma loadPage_settled (i : Z) (img : Bitmap) (x : PrescriptionCanvas) :
  quiet x → array_get (pages x) i = Png img →
  settle (loadPage i x) = canvasStateLoaded (Png img) img x.
Proof.
  unfold quiet. intros Hq Hslot. unfold loadPage. rewrite Hslot.
  cbn [truthy is_empty_string negb andb]. rewrite (settle_one img).
  - destruct x. fields. by subst.
  - fields. by rewrite Hq.
Qed.

(** *** Undo and redo as inverses *)

(** With the pen in hand and the canvas as the last push left it, a
    redo after an undo brings back the cursor and the canvas, the history
    being the same throughout. *)
Theorem redo_after_undo (n : nat) (s : PrescriptionCanvas) :
  steady n s → history_wf s → historyStep s > 0 →
  array_get (history s) (historyStep s) = Png (bitmap (ctx s)) →
  let r := redoSettled (undoSettled s) in
  history r = history s ∧ historyStep r = historyStep s
  ∧ bitmap (ctx r) = bitmap (ctx s).
Proof.
  intros Hs Hwf H0 Htop r. subst r.
  destruct (undoSettled_steady n s Hs Hwf H0) as (img & _ & Hu & Hh & Hc & _).
  assert (Hwfu : history_wf (undoSettled s)).
  { destruct Hwf. split; rewrite ?Hh, ?Hc; lia. }
  destruct (redoSettled_steady n (undoSettled s) Hu Hwfu) as (img' & Himg' & _ & Rh & Rc & Rb).
  { destruct Hwf. rewrite Hh, Hc. lia. }
  rewrite Hh, Hc in Himg'. replace (historyStep s - 1 + 1) with (historyStep s) in Himg' by lia.
  rewrite Htop in Himg'. injection Himg' as <-.
  split_and!; [congruence | lia |].
  rewrite Rb. destruct Hs as [_ Hsize Hopq _ _ _]. rewrite <- Hsize. by apply onWhite_opaque.
Qed.

(** The hypotheses of a steady state, on a concrete one. *)
Ltac evaluated_steady :=
  split;
    [ evaluated | evaluated
    | clear; vm_compute; repeat (apply Forall_cons; split; [reflexivity|]);
      by apply Forall_nil
    | evaluated | evaluated
    | clear; vm_compute;
      repeat (apply Forall_cons; split; [eexists; split; reflexivity|]);
      by apply Forall_nil ].

(** On the small page: two strokes, an undo and a redo. *)
Lemma redo_after_undo_witness :
  steady 2 Demo.drawn ∧ history_wf Demo.drawn ∧ historyStep Demo.drawn > 0
  ∧ array_get (history Demo.drawn) (historyStep Demo.drawn) = Png (bitmap (ctx Demo.drawn))
  ∧ historyStep (redoSettled (undoSettled Demo.drawn)) = historyStep Demo.drawn
  ∧ bitmap (ctx (redoSettled (undoSettled Demo.drawn))) = bitmap (ctx Demo.drawn).
Proof.
  assert (Hs : steady 2 Demo.drawn) by evaluated_steady.
  assert (Hwf : history_wf Demo.drawn) by (split; evaluated).
  assert (H0 : historyStep Demo.drawn > 0) by evaluated.
  assert (Htop : array_get (history Demo.drawn) (historyStep Demo.drawn)
                 = Png (bitmap (ctx Demo.drawn))) by evaluated.
  destruct (redo_after_undo 2 Demo.drawn Hs Hwf H0 Htop) as (H1 & H2 & H3).
  split_and!; [exact Hs | exact Hwf | exact H0 | exact Htop | exact H2 | exact H3].
Defined.

(** *** Clearing the canvas *)

Lemma fillWhite_steady (n : nat) (s : PrescriptionCanvas) :
  steady n s →
  steady n (on Main fillWhite s)
  ∧ bitmap (ctx (on Main fillWhite s)) = replicate n (solid white).
Proof.
  intros [K1 K2 K3 K4 K5 K6]. destruct (fillWhite_pen (ctx s) K1) as [Hpen Hb].
  fields. rewrite Hb, K2. split; [|done]. split; fields; try done.
  - rewrite Hb, K2. apply length_replicate.
  - rewrite Hb. apply opaque_replicate_white.
Qed.

(** In a steady state (the pen selected with its context, an opaque
    canvas, no decode in flight) whose canvas is the snapshot under the
    cursor, [clearCanvas] leaves the canvas white and pushes that as a
    snapshot of its own, so that the undo that follows succeeds and
    brings back the canvas as it was before the clearing. *)
Theorem clearCanvas_can_be_undone (n : nat) (s : PrescriptionCanvas) :
  steady n s → history_wf s →
  array_get (history s) (historyStep s) = Png (bitmap (ctx s)) →
  let c := clearCanvas s in
  bitmap (ctx c) = replicate n (solid white)
  ∧ array_get (history c) (historyStep c) = Png (replicate n (solid white))
  ∧ notification (undoLast c) = Some ("Undone", LInfo)
  ∧ bitmap (ctx (undoSettled c)) = bitmap (ctx s).
Proof.
  intros Hs Hwf Htop c. subst c. unfold clearCanvas. cbv zeta.
  destruct (fillWhite_steady n s Hs) as [Hw Hb].
  set (w := on Main fillWhite s) in *.
  assert (Hww : history_wf w) by by apply history_wf_on.
  destruct (saveState_steady n w Hw Hww) as (Hx & Hwfx & H0 & Hnew & Hbelow).
  destruct (saveState_frame w) as (F1 & _).
  set (x := saveState w) in *. clearbody x.
  set (c := showNotification "Canvas cleared" LInfo x).
  assert (Hc : steady n c) by by apply (steady_frame n x).
  assert (Hwfc : history_wf c) by by apply history_wf_showNotification.
  destruct (undoSettled_steady n c Hc Hwfc) as (img & Himg & _ & _ & _ & Hu & Hn); [done|].
  assert (Hprev : array_get (history c) (historyStep c - 1) = Png (bitmap (ctx s))).
  { subst c. fields. rewrite Hbelow. subst w. fields. done. }
  rewrite Hprev in Himg. injection Himg as <-.
  split_and!.
  - subst c. fields. by rewrite F1.
  - subst c. fields. by rewrite Hnew, Hb.
  - done.
  - rewrite Hu. destruct Hs as [_ Hsize Hopq _ _ _]. rewrite <- Hsize. by apply onWhite_opaque.
Qed.

(** On the small page: two strokes, the canvas cleared, the clearing undone. *)
Lemma clearCanvas_can_be_undone_witness :
  steady 2 Demo.drawn ∧ history_wf Demo.drawn
  ∧ array_get (history Demo.drawn) (historyStep Demo.drawn) = Png (bitmap (ctx Demo.drawn))
  ∧ bitmap (ctx (clearCanvas Demo.drawn)) = replicate 2 (solid white)
  ∧ bitmap (ctx (undoSettled (clearCanvas Demo.drawn))) = bitmap (ctx Demo.drawn).
Proof.
  assert (Hs : steady 2 Demo.drawn) by evaluated_steady.
  assert (Hwf : history_wf Demo.drawn) by (split; evaluated).
  assert (Htop : array_get (history Demo.drawn) (historyStep Demo.drawn)
                 = Png (bitmap (ctx Demo.drawn))) by evaluated.
  destruct (clearCanvas_can_be_undone 2 Demo.drawn Hs Hwf Htop) as (H1 & H2 & H3 & H4).
  split_and!; [exact Hs | exact Hwf | exact Htop | exact H1 | exact H4].
Defined.

(** *** One history for all pages *)

Lemma addPage_shape (s : PrescriptionCanvas) :
  ∃ x m, addPage s = showNotification m LSuccess (saveState x)
    ∧ ctx x = fillWhite (ctx s) ∧ currentTool x = currentTool s
    ∧ loading x = loading s ∧ history x = history s ∧ historyStep x = historyStep s.
Proof.
  eexists _, _. split; [unfold addPage; cbv zeta; reflexivity|]. fields. by split_and!.
Qed.

Lemma showNotification_steady (n : nat) (m : string) (l : Level) (s : PrescriptionCanvas) :
  steady n s → steady n (showNotification m l s).
Proof. by apply steady_frame. Qed.

Lemma addPage_steady (n : nat) (s : PrescriptionCanvas) :
  steady n s → history_wf s →
  steady n (addPage s) ∧ history_wf (addPage s) ∧ historyStep (addPage s) > 0
  ∧ array_get (history (addPage s)) (historyStep (addPage s) - 1)
    = array_get (history s) (historyStep s).
Proof.
  intros Hs Hwf.
  destruct (addPage_shape s) as (x & m & Hadd & X1 & X2 & X3 & X4 & X5).
  assert (Hx : steady n x).
  { destruct Hs as [K1 K2 K3 K4 K5 K6]. destruct (fillWhite_pen (ctx s) K1) as [Hpen Hb].
    split; unfold quiet in *; rewrite ?X1, ?X2, ?X3, ?X4; try done.
    - rewrite Hb. by rewrite length_replicate.
    - rewrite Hb. apply opaque_replicate_white. }
  assert (Hwfx : history_wf x) by (apply (history_wf_frame s); done).
  destruct (saveState_steady n x Hx Hwfx) as (Hst & Hwfst & H0 & _ & Hbelow).
  rewrite X4, X5 in Hbelow. rewrite Hadd.
  forget (saveState x) as y.
  split_and!.
  - by apply showNotification_steady.
  - by apply history_wf_showNotification.
  - exact H0.
  - exact Hbelow.
Qed.

(** What the end of a decode leaves in the page list. *)
Lemma canvasStateLoaded_pages (u : DataURL) (img : Bitmap) (x : PrescriptionCanvas) :
  pages (canvasStateLoaded u img x) = array_set (pages x) (currentPageIndex x) u
  ∧ currentPageIndex (canvasStateLoaded u img x) = currentPageIndex x.
Proof. unfold canvasStateLoaded. fields. done. Qed.

(** The history is not kept per page.  In a steady state (the pen
    selected with its context, an opaque canvas, no decode in flight)
    whose canvas is the snapshot under the cursor, an undo right after
    [addPage] succeeds, paints the page that was on the canvas before and
    stores it in the slot of the new page: the new page has become a copy
    of the one before. *)
Theorem undo_after_addPage_copies_page (n : nat) (s : PrescriptionCanvas) :
  steady n s → history_wf s →
  array_get (history s) (historyStep s) = Png (bitmap (ctx s)) →
  let u := undoSettled (addPage s) in
  notification (undoLast (addPage s)) = Some ("Undone", LInfo)
  ∧ currentPageIndex u = array_length (pages s)
  ∧ pages u = pages s ++ [Png (bitmap (ctx s))]
  ∧ bitmap (ctx u) = bitmap (ctx s).
Proof.
  intros Hs Hwf Htop. cbv zeta.
  destruct (addPage_pages s) as [Hp Hi].
  destruct (addPage_steady n s Hs Hwf) as (Hc & Hwfc & Hstep & Hprev).
  rewrite Htop in Hprev.
  forget (addPage s) as c.
  destruct (undoSettled_steady n c Hc Hwfc Hstep) as (img & Himg & _ & _ & _ & Hb & Hn).
  rewrite Hprev in Himg. injection Himg as <-.
  assert (Hq : quiet c) by apply Hc.
  pose proof (undoSettled_eq (bitmap (ctx s)) c Hq Hstep Hprev) as Hu.
  destruct (canvasStateLoaded_pages (Png (bitmap (ctx s))) (bitmap (ctx s))
              (showNotification "Undone" LInfo (set_historyStep (historyStep c - 1) c)))
    as [Hpu Hiu].
  rewrite <- Hu in Hpu, Hiu. clear Hu.
  forget (undoSettled c) as u.
  split_and!; [exact Hn | | |].
  - rewrite Hiu. exact Hi.
  - rewrite Hpu. change (array_set (pages c) (currentPageIndex c) (Png (bitmap (ctx s)))
                        = pages s ++ [Png (bitmap (ctx s))]).
    rewrite Hp, Hi. apply array_set_end.
  - rewrite Hb. destruct Hs as [_ Hsize Hopq _ _ _]. rewrite <- Hsize. by apply onWhite_opaque.
Qed.

(** On the small page: two strokes, a page added, an undo. *)
Lemma undo_after_addPage_copies_page_witness :
  steady 2 Demo.drawn ∧ history_wf Demo.drawn
  ∧ array_get (history Demo.drawn) (historyStep Demo.drawn) = Png (bitmap (ctx Demo.drawn))
  ∧ pages (undoSettled (addPage Demo.drawn))
    = pages Demo.drawn ++ [Png (bitmap (ctx Demo.drawn))].
Proof.
  assert (Hs : steady 2 Demo.drawn) by evaluated_steady.
  assert (Hwf : history_wf Demo.drawn) by (split; evaluated).
  assert (Htop : array_get (history Demo.drawn) (historyStep Demo.drawn)
                 = Png (bitmap (ctx Demo.drawn))) by evaluated.
  destruct (undo_after_addPage_copies_page 2 Demo.drawn Hs Hwf Htop) as (H1 & H2 & H3 & H4).
  split_and!; [exact Hs | exact Hwf | exact Htop | exact H3].
Defined.

(** *** There and back between two pages *)

Lemma moved_state (n : nat) (s : PrescriptionCanvas) (i : Z) (u : list DataURL) :
  steady n s →
  steady n (set_currentPageIndex i (set_pages u s))
  ∧ pages (set_currentPageIndex i (set_pages u s)) = u
  ∧ currentPageIndex (set_currentPageIndex i (set_pages u s)) = i.
Proof. intros Hs. split; [by apply (steady_frame n s) | done]. Qed.

(** The canvas stored in the slot of the current page, the index moved to
    [j], and page [j], which holds a picture, opened. *)
Lemma open_page_settled (n : nat) (s : PrescriptionCanvas) (j : Z) (img : Bitmap) :
  steady n s → 0 ≤ currentPageIndex s → j ≠ currentPageIndex s →
  array_get (pages s) j = Png img → length img = n →
  let flushed := array_set (pages s) (currentPageIndex s) (toDataURL (ctx s)) in
  let there := settle (loadPage j (set_currentPageIndex j (set_pages flushed s))) in
  steady n there ∧ currentPageIndex there = j
  ∧ bitmap (ctx there) = onWhite img n
  ∧ pages there = array_set flushed j (Png img).
Proof.
  intros Hs H0 Hj Hslot Himg flushed. cbv zeta.
  destruct (moved_state n s j flushed Hs) as (Hx & Hp & Hi).
  assert (Hslotx : array_get flushed j = Png img).
  { subst flushed. rewrite array_get_set_ne by lia. done. }
  forget (set_currentPageIndex j (set_pages flushed s)) as x.
  rewrite (loadPage_settled j img x); [| apply Hx | by rewrite Hp].
  destruct (canvasStateLoaded_steady n img x Hx Himg) as [Hst Hb].
  destruct (canvasStateLoaded_pages (Png img) img x) as [Hpp Hii].
  rewrite Hp, Hi in Hpp. rewrite Hi in Hii. by split_and!.
Qed.

(** With the pen in hand, going to the next page and back, each decode
    ending before the next call, returns to the page one started from with
    the canvas as it was and as many pages as before.  The slot of the
    page left holds the canvas; the slot of the page visited has been
    rewritten with its picture flattened on white. *)
Theorem next_then_previous_returns (n : nat) (s : PrescriptionCanvas) (img : Bitmap) :
  steady n s → pages_wf s →
  currentPageIndex s < array_length (pages s) - 1 →
  array_get (pages s) (currentPageIndex s + 1) = Png img → length img = n →
  let there := settle (nextPage s) in
  let back := settle (previousPage there) in
  currentPageIndex there = currentPageIndex s + 1
  ∧ bitmap (ctx there) = onWhite img n
  ∧ currentPageIndex back = currentPageIndex s
  ∧ bitmap (ctx back) = bitmap (ctx s)
  ∧ array_length (pages back) = array_length (pages s)
  ∧ array_get (pages back) (currentPageIndex s) = Png (bitmap (ctx s))
  ∧ array_get (pages back) (currentPageIndex s + 1) = Png (onWhite img n).
Proof.
  intros Hs [P1 P2] Hnext Hslot Himg. cbv zeta.
  assert (Hgo : nextPage s
                = loadPage (currentPageIndex s + 1)
                    (set_currentPageIndex (currentPageIndex s + 1)
                       (set_pages (array_set (pages s) (currentPageIndex s)
                                     (toDataURL (ctx s))) s))).
  { unfold nextPage. case_decide; [reflexivity | lia]. }
  rewrite Hgo. clear Hgo.
  destruct (open_page_settled n s (currentPageIndex s + 1) img Hs)
    as (Hs2 & Hi2 & Hb2 & Hp2); [lia | lia | done | done |].
  destruct Hs as [K1 K2 K3 K4 K5 K6].
  forget (settle (loadPage (currentPageIndex s + 1)
                    (set_currentPageIndex (currentPageIndex s + 1)
                       (set_pages (array_set (pages s) (currentPageIndex s)
                                     (toDataURL (ctx s))) s)))) as there.
  assert (Hlen2 : array_length (pages there) = array_length (pages s)).
  { rewrite Hp2. rewrite !array_length_set; rewrite ?array_length_set; lia. }
  assert (Hcome : previousPage there
                  = loadPage (currentPageIndex s)
                      (set_currentPageIndex (currentPageIndex s)
                         (set_pages (array_set (pages there) (currentPageIndex there)
                                       (toDataURL (ctx there))) there))).
  { unfold previousPage. case_decide; [|lia]. cbv zeta. fields. rewrite Hi2.
    by replace (currentPageIndex s + 1 - 1) with (currentPageIndex s) by lia. }
  rewrite Hcome. clear Hcome.
  destruct (open_page_settled n there (currentPageIndex s) (bitmap (ctx s)) Hs2)
    as (Hs4 & Hi4 & Hb4 & Hp4); [lia | lia | | done |].
  { rewrite Hp2. rewrite array_get_set_ne by lia. apply array_get_set_eq. lia. }
  forget (settle (loadPage (currentPageIndex s)
                    (set_currentPageIndex (currentPageIndex s)
                       (set_pages (array_set (pages there) (currentPageIndex there)
                                     (toDataURL (ctx there))) there)))) as back.
  split_and!.
  - done.
  - done.
  - done.
  - rewrite Hb4, <- K2. by apply onWhite_opaque.
  - rewrite Hp4. rewrite !array_length_set; rewrite ?array_length_set; lia.
  - rewrite Hp4. apply array_get_set_eq. lia.
  - rewrite Hp4. rewrite array_get_set_ne by lia. rewrite Hi2.
    rewrite array_get_set_eq by lia. unfold toDataURL. by rewrite Hb2.
Qed.

(** On the small page: from the second of three pages to the third and
    back. *)
Lemma next_then_previous_returns_witness :
  steady 2 Demo.threePages ∧ pages_wf Demo.threePages
  ∧ currentPageIndex Demo.threePages < array_length (pages Demo.threePages) - 1
  ∧ array_get (pages Demo.threePages) (currentPageIndex Demo.threePages + 1)
    = Png (replicate 2 (solid white))
  ∧ currentPageIndex (settle (previousPage (settle (nextPage Demo.threePages))))
    = currentPageIndex Demo.threePages
  ∧ bitmap (ctx (settle (previousPage (settle (nextPage Demo.threePages)))))
    = bitmap (ctx Demo.threePages).
Proof.
  assert (Hs : steady 2 Demo.threePages) by evaluated_steady.
  assert (Hwf : pages_wf Demo.threePages) by (split; evaluated).
  assert (Hnext : currentPageIndex Demo.threePages
                  < array_length (pages Demo.threePages) - 1) by evaluated.
  assert (Hslot : array_get (pages Demo.threePages) (currentPageIndex Demo.threePages + 1)
                  = Png (replicate 2 (solid white))) by evaluated.
  assert (Hlen : length (replicate 2 (solid white)) = 2%nat) by reflexivity.
  destruct (next_then_previous_returns 2 Demo.threePages (replicate 2 (solid white))
              Hs Hwf Hnext Hslot Hlen) as (H1 & H2 & H3 & H4 & H5 & H6 & H7).
  split_and!; [exact Hs | exact Hwf | exact Hnext | exact Hslot | exact H3 | exact H4].
Defined.

(** *** What the history holds *)

Create HintDb sized discriminated.

Lemma keeps_size_fillWhite : keeps_size fillWhite.
Proof. intros c. unfold fillWhite, fillRect. fields. by rewrite length_map. Qed.
Lemma keeps_size_drawImage img : keeps_size (drawImage img).
Proof. intros c. unfold drawImage. fields. apply length_blend. Qed.
Lemma keeps_size_stroke B t : keeps_size (stroke B t).
Proof. intros c. unfold stroke. fields. apply length_paint. Qed.
Lemma keeps_size_fillText B t text p : keeps_size (fillText B t text p).
Proof. intros c. unfold fillText. fields. apply length_paint. Qed.
Lemma keeps_size_beginPath : keeps_size beginPath.
Proof. by intros c. Qed.
Lemma keeps_size_moveTo p : keeps_size (moveTo p).
Proof. by intros c. Qed.
Lemma keeps_size_lineTo p : keeps_size (lineTo p).
Proof. by intros c. Qed.
Lemma keeps_size_arc p r : keeps_size (arc p r).
Proof. by intros c. Qed.
Lemma keeps_size_set_lineCap v : keeps_size (set_lineCap v).
Proof. by intros c. Qed.
Lemma keeps_size_set_lineJoin v : keeps_size (set_lineJoin v).
Proof. by intros c. Qed.
Lemma keeps_size_set_font v : keeps_size (set_font v).
Proof. by intros c. Qed.
Lemma keeps_size_set_fillStyle v : keeps_size (set_fillStyle v).
Proof. by intros c. Qed.
Lemma keeps_size_set_strokeStyle v : keeps_size (set_strokeStyle v).
Proof. by intros c. Qed.
Lemma keeps_size_set_lineWidth v : keeps_size (set_lineWidth v).
Proof. by intros c. Qed.
Lemma keeps_size_set_textAlign v : keeps_size (set_textAlign v).
Proof. by intros c. Qed.
Lemma keeps_size_setDrawingProperties s : keeps_size (setDrawingProperties s).
Proof.
  intros c. unfold setDrawingProperties. cbv zeta.
  repeat match goal with |- context [String.eqb ?a ?b] => destruct (String.eqb a b) end;
    fields; done.
Qed.

Lemma sized_frame (n : nat) (s x : PrescriptionCanvas) :
  length (bitmap (ctx x)) = length (bitmap (ctx s)) → history x = history s →
  sized n s → sized n x.
Proof. intros H1 H2 [H3 H4]. split; rewrite ?H1, ?H2; done. Qed.

Lemma sized_on (n : nat) (t : Target) (f : Context → Context) (s : PrescriptionCanvas) :
  keeps_size f → sized n s → sized n (on t f s).
Proof. intros Hf. apply sized_frame; [|by destruct t]. destruct t; fields; [apply Hf | done]. Qed.

Lemma sized_showNotification n m l s : sized n s → sized n (showNotification m l s).
Proof. by apply sized_frame. Qed.
Lemma sized_set_isDrawing n v s : sized n s → sized n (set_isDrawing v s).
Proof. by apply sized_frame. Qed.
Lemma sized_set_currentTool n v s : sized n s → sized n (set_currentTool v s).
Proof. by apply sized_frame. Qed.
Lemma sized_set_currentColor n v s : sized n s → sized n (set_currentColor v s).
Proof. by apply sized_frame. Qed.
Lemma sized_set_currentSize n v s : sized n s → sized n (set_currentSize v s).
Proof. by apply sized_frame. Qed.
Lemma sized_set_pages n v s : sized n s → sized n (set_pages v s).
Proof. by apply sized_frame. Qed.
Lemma sized_set_currentPageIndex n v s : sized n s → sized n (set_currentPageIndex v s).
Proof. by apply sized_frame. Qed.
Lemma sized_set_historyStep n v s : sized n s → sized n (set_historyStep v s).
Proof. by apply sized_frame. Qed.
Lemma sized_set_savedSignature n v s : sized n s → sized n (set_savedSignature v s).
Proof. by apply sized_frame. Qed.
Lemma sized_set_form n v s : sized n s → sized n (set_form v s).
Proof. by apply sized_frame. Qed.
Lemma sized_set_storage n v s : sized n s → sized n (set_storage v s).
Proof. by apply sized_frame. Qed.
Lemma sized_set_loading n v s : sized n s → sized n (set_loading v s).
Proof. by apply sized_frame. Qed.
Lemma sized_loadCanvasState n u s : sized n s → sized n (loadCanvasState u s).
Proof. by apply sized_frame. Qed.

(** A push adds a snapshot of the canvas, and drops entries. *)
Lemma sized_saveState (n : nat) (s : PrescriptionCanvas) : sized n s → sized n (saveState s).
Proof.
  intros [H1 H2]. destruct (saveState_frame s) as (F1 & _).
  split; [by rewrite F1|].
  assert (Hrec : Forall (frame n) (history (recordState s))).
  { unfold recordState. cbv zeta. fields. case_decide; fields;
      (apply Forall_app; split;
         [|apply Forall_singleton; unfold toDataURL; eexists; split;
             [reflexivity | exact H1]]); [|done].
    unfold truncate. by apply Forall_take. }
  unfold saveState, limitHistory. case_decide; fields; [|done].
  unfold shift. by apply Forall_drop.
Qed.

#[local] Hint Resolve keeps_size_fillWhite keeps_size_drawImage keeps_size_stroke
  keeps_size_fillText keeps_size_beginPath keeps_size_moveTo keeps_size_lineTo
  keeps_size_arc keeps_size_set_lineCap keeps_size_set_lineJoin keeps_size_set_font
  keeps_size_set_fillStyle keeps_size_set_strokeStyle keeps_size_set_lineWidth
  keeps_size_set_textAlign keeps_size_setDrawingProperties
  sized_on sized_showNotification sized_set_isDrawing sized_set_currentTool
  sized_set_currentColor sized_set_currentSize sized_set_pages sized_set_currentPageIndex
  sized_set_historyStep sized_set_savedSignature sized_set_form sized_set_storage
  sized_set_loading sized_loadCanvasState sized_saveState : sized.

Ltac sized := walk ltac:(eauto 4 with sized).

Lemma sized_loadPage n i s : sized n s → sized n (loadPage i s).
Proof. intros H. open loadPage. sized. Qed.
Lemma sized_setFormValue n id v s : sized n s → sized n (setFormValue id v s).
Proof. intros H. open setFormValue. sized. Qed.
Lemma sized_undoLast n s : sized n s → sized n (undoLast s).
Proof. intros H. open undoLast. sized. Qed.
Lemma sized_redoLast n s : sized n s → sized n (redoLast s).
Proof. intros H. open redoLast. sized. Qed.
Lemma sized_canvasStateLoaded n u img s : sized n s → sized n (canvasStateLoaded u img s).
Proof. intros H. open canvasStateLoaded. sized. Qed.
Lemma sized_signatureLoaded n img s : sized n s → sized n (signatureLoaded img s).
Proof. intros H. open signatureLoaded. sized. Qed.

#[local] Hint Resolve sized_loadPage sized_setFormValue sized_undoLast sized_redoLast
  sized_canvasStateLoaded sized_signatureLoaded : sized.

Lemma sized_imageLoaded n i s : sized n s → sized n (imageLoaded i s).
Proof. intros H. open imageLoaded. destruct (loading s !! i) as [[t u]|]; sized. Qed.
Lemma sized_loadPrescription n file s : sized n s → sized n (loadPrescription file s).
Proof. intros H. open loadPrescription. sized. Qed.
Lemma sized_startDrawing n t c s : sized n s → sized n (startDrawing t c s).
Proof. intros H. open startDrawing. sized. Qed.
Lemma sized_draw n B t c s : sized n s → sized n (draw B t c s).
Proof. intros H. open draw. sized. Qed.
Lemma sized_stopDrawing n t s : sized n s → sized n (stopDrawing t s).
Proof. intros H. open stopDrawing. sized. Qed.
Lemma sized_setTool n tool s : sized n s → sized n (setTool tool s).
Proof. intros H. open setTool. sized. Qed.
Lemma sized_clearCanvas n s : sized n s → sized n (clearCanvas s).
Proof. intros H. open clearCanvas. sized. Qed.
Lemma sized_clearSignature n s : sized n s → sized n (clearSignature s).
Proof. intros H. open clearSignature. sized. Qed.
Lemma sized_addText n B a s : sized n s → sized n (addText B a s).
Proof. intros H. open addText. sized. Qed.
Lemma sized_addStamp n B s : sized n s → sized n (addStamp B s).
Proof. intros H. open addStamp. sized. Qed.
Lemma sized_addPage n s : sized n s → sized n (addPage s).
Proof. intros H. open addPage. sized. Qed.
Lemma sized_deletePage n s : sized n s → sized n (deletePage s).
Proof. intros H. open deletePage. sized. Qed.
Lemma sized_previousPage n s : sized n s → sized n (previousPage s).
Proof. intros H. open previousPage. sized. Qed.
Lemma sized_nextPage n s : sized n s → sized n (nextPage s).
Proof. intros H. open nextPage. sized. Qed.
Lemma sized_saveSignature n w s : sized n s → sized n (saveSignature w s).
Proof. intros H. open saveSignature. sized. Qed.
Lemma sized_savePrescription n w s : sized n s → sized n (savePrescription w s).
Proof. intros H. open savePrescription. sized. Qed.

#[local] Hint Resolve sized_imageLoaded sized_loadPrescription sized_startDrawing
  sized_draw sized_stopDrawing sized_setTool sized_clearCanvas sized_clearSignature
  sized_addText sized_addStamp sized_addPage sized_deletePage sized_previousPage
  sized_nextPage sized_saveSignature sized_savePrescription : sized.

Lemma sized_handleKeyboardShortcuts n e w s :
  sized n s → sized n (handleKeyboardShortcuts e w s).
Proof. intros H. open handleKeyboardShortcuts. sized. Qed.

Lemma handle_sized (n : nat) (B : Browser) (e : Event) (s : PrescriptionCanvas) :
  sized n s → sized n (handle B e s).
Proof.
  intros H. destruct e; cbn [handle].
  - by apply sized_startDrawing.
  - by apply sized_draw.
  - by apply sized_stopDrawing.
  - by apply sized_handleKeyboardShortcuts.
  - by apply sized_setTool.
  - by apply sized_set_currentColor.
  - by apply sized_set_currentSize.
  - by apply sized_clearCanvas.
  - by apply sized_clearSignature.
  - by apply sized_undoLast.
  - by apply sized_redoLast.
  - by apply sized_addText.
  - by apply sized_addStamp.
  - by apply sized_addPage.
  - by apply sized_deletePage.
  - by apply sized_previousPage.
  - by apply sized_nextPage.
  - by apply sized_saveSignature.
  - by apply sized_savePrescription.
  - by apply sized_loadPrescription.
  - by apply sized_imageLoaded.
  - by apply sized_showNotification.
Qed.

Lemma run_sized (n : nat) (B : Browser) (events : list Event) (s : PrescriptionCanvas) :
  sized n s → sized n (run B events s).
Proof.
  unfold run. revert s. induction events as [|e events IH]; intros s H; cbn [foldl]; [done|].
  apply IH. by apply handle_sized.
Qed.

(** In every state reached from [new PrescriptionCanvas()] the canvas has
    the size it had at construction, every entry of the history is a
    snapshot of that size, and the cursor is on one of them: the decode
    an undo or a redo starts always has a picture to decode. *)
Theorem history_holds_snapshots (B : Browser) (dom : gmap string string) (date time : string)
  (saved : option DataURL) (events : list Event) :
  let s := run B events (constructor B dom date time saved) in
  let n := (width B * height B)%nat in
  length (bitmap (ctx s)) = n
  ∧ Forall (frame n) (history s)
  ∧ 0 ≤ historyStep s < array_length (history s)
  ∧ ∃ img, array_get (history s) (historyStep s) = Png img ∧ length img = n.
Proof.
  cbv zeta.
  pose proof (constructor_built B dom date time saved) as Hb.
  assert (Hwf : history_wf (run B events (constructor B dom date time saved)))
    by (apply run_history_wf; by apply (built_history_wf B)).
  assert (Hsz : sized (width B * height B) (run B events (constructor B dom date time saved))).
  { apply run_sized. destruct Hb as [Hh _ _ _ Hbit _ _ _ _]. split.
    - rewrite Hbit. apply length_replicate.
    - rewrite Hh. apply Forall_singleton. eexists. split; [done|]. apply length_replicate. }
  clear Hb. forget (run B events (constructor B dom date time saved)) as x.
  destruct Hsz as [H1 H2]. destruct Hwf as [H3 _].
  split_and!; [done | done | lia | lia |].
  by apply array_get_frame.
Qed.

(** *** Keyboard shortcuts *)

Ltac pick := first [ left; reflexivity | right; pick | reflexivity ].

(** A key press triggers at most one action: whatever the key and the
    modifiers, [handleKeyboardShortcuts] does what one of undo, redo,
    save, previous page, next page or the choice of one of the four tools
    does, or nothing.  Without Ctrl, Cmd or Alt it does nothing. *)
Theorem keyboard_one_action (e : KeyEvent) (writable : bool) (s : PrescriptionCanvas) :
  handleKeyboardShortcuts e writable s
    ∈ [s; undoLast s; redoLast s; savePrescription writable s; previousPage s; nextPage s;
       setTool "pen" s; setTool "brush" s; setTool "highlighter" s; setTool "eraser" s]
  ∧ handleKeyboardShortcuts (mkKey false false (shiftKey e) false (key e)) writable s = s.
Proof.
  destruct e as [c m sh a k]. cbn [shiftKey key].
  assert (Hplain : ∀ b1 b2 b3 : bool, (false && b1 && b2 = false ∧ b3 && false = false)%bool).
  { intros. split; [done | by destruct b3]. }
  split.
  - rewrite !elem_of_cons. unfold handleKeyboardShortcuts. cbv zeta.
    cbn [ctrlKey metaKey shiftKey altKey key].
    destruct (String.eqb_spec k "z") as [->|_];
      [cbn [String.eqb Ascii.eqb Bool.eqb andb]; destruct c, m, sh, a; cbn [andb orb negb]; pick|].
    destruct (String.eqb_spec k "y") as [->|_];
      [cbn [String.eqb Ascii.eqb Bool.eqb andb]; destruct c, m, sh, a; cbn [andb orb negb]; pick|].
    destruct (String.eqb_spec k "s") as [->|_];
      [cbn [String.eqb Ascii.eqb Bool.eqb andb]; destruct c, m, sh, a; cbn [andb orb negb]; pick|].
    destruct (String.eqb_spec k "ArrowLeft") as [->|_];
      [cbn [String.eqb Ascii.eqb Bool.eqb andb]; destruct c, m, sh, a; cbn [andb orb negb]; pick|].
    destruct (String.eqb_spec k "ArrowRight") as [->|_];
      [cbn [String.eqb Ascii.eqb Bool.eqb andb]; destruct c, m, sh, a; cbn [andb orb negb]; pick|].
    destruct (String.eqb_spec k "1") as [->|_];
      [cbn [String.eqb Ascii.eqb Bool.eqb andb]; destruct c, m, sh, a; cbn [andb orb negb]; pick|].
    destruct (String.eqb_spec k "2") as [->|_];
      [cbn [String.eqb Ascii.eqb Bool.eqb andb]; destruct c, m, sh, a; cbn [andb orb negb]; pick|].
    destruct (String.eqb_spec k "3") as [->|_];
      [cbn [String.eqb Ascii.eqb Bool.eqb andb]; destruct c, m, sh, a; cbn [andb orb negb]; pick|].
    destruct (String.eqb_spec k "4") as [->|_];
      [cbn [String.eqb Ascii.eqb Bool.eqb andb]; destruct c, m, sh, a; cbn [andb orb negb]; pick|].
    destruct c, m, sh, a; cbn [andb orb negb]; pick.
  - unfold handleKeyboardShortcuts. cbv zeta. cbn [ctrlKey metaKey shiftKey altKey key orb].
    repeat match goal with
    | |- context [(false && ?b1 && ?b2)%bool] => rewrite (proj1 (Hplain b1 b2 true))
    | |- context [(false && ?b1)%bool] => change (false && b1)%bool with false
    | |- context [(?b3 && false)%bool] => rewrite (proj2 (Hplain true true b3))
    end.
    reflexivity.
Qed.

(** *** Tools *)

Lemma toolTable_unknown (tool : string) :
  toolTable tool = None →
  String.eqb tool "pen" = false ∧ String.eqb tool "brush" = false
  ∧ String.eqb tool "highlighter" = false ∧ String.eqb tool "eraser" = false.
Proof.
  unfold toolTable.
  destruct (String.eqb tool "pen"); [done|].
  destruct (String.eqb tool "brush"); [done|].
  destruct (String.eqb tool "highlighter"); [done|].
  destruct (String.eqb tool "eraser"); done.
Qed.

Lemma setDrawingProperties_unknown (s : PrescriptionCanvas) (c : Context) :
  toolTable (currentTool s) = None →
  setDrawingProperties s c = set_lineJoin JoinRound (set_lineCap CapRound c).
Proof.
  intros (H1 & H2 & H3 & H4)%toolTable_unknown.
  unfold setDrawingProperties. cbv zeta. by rewrite H1, H2, H3, H4.
Qed.

(** [setDrawingProperties] has no case for a name that is not one of the
    four tools.  [setTool] with such a name records it as the current
    tool, yet the stroke that follows, on either canvas, is drawn with the
    composition, opacity, colour and width the context had before. *)
Theorem unknown_tool_draws_as_before (tool : string) (t : Target) (from : Point)
  (s : PrescriptionCanvas) :
  toolTable tool = None →
  let x := setTool tool s in
  let c := context t (startDrawing t from x) in
  currentTool x = tool
  ∧ globalCompositeOperation c = globalCompositeOperation (context t s)
  ∧ globalAlpha c = globalAlpha (context t s)
  ∧ strokeStyle c = strokeStyle (context t s)
  ∧ lineWidth c = lineWidth (context t s).
Proof.
  intros Htool x c. subst c x. unfold setTool, startDrawing. cbv zeta.
  destruct t; fields; rewrite !setDrawingProperties_unknown by (fields; done); by fields.
Qed.

(** A tool name the page does not know. *)
Lemma unknown_tool_draws_as_before_witness :
  toolTable "marker" = None
  ∧ currentTool (setTool "marker" Demo.start) = "marker"
  ∧ lineWidth (context Main (startDrawing Main (0, 0)%Qc (setTool "marker" Demo.start)))
    = lineWidth (context Main Demo.start).
Proof.
  assert (Htool : toolTable "marker" = None) by reflexivity.
  destruct (unknown_tool_draws_as_before "marker" Main (0, 0)%Qc Demo.start Htool)
    as (H1 & H2 & H3 & H4 & H5).
  split_and!; [exact Htool | exact H1 | exact H5].
Defined.

(** *** Only the eraser makes holes *)

Lemma composite_source_over_opaque (src d : Pixel) :
  alpha d = 1%Qc → alpha (composite SourceOver src d) = 1%Qc.
Proof. intros H. unfold composite. simpl. rewrite H. ring. Qed.

Lemma paint_source_over_opaque (src : Pixel) (mask : list Qc) (dst : Bitmap) :
  opaque dst → opaque (paint SourceOver src mask dst).
Proof.
  unfold opaque. intros H. revert mask.
  induction H as [|d dst Hd Hdst IH]; intros [|k mask]; simpl; try by constructor.
  constructor; [|apply IH]. by apply composite_source_over_opaque.
Qed.

Lemma draw_source_over (B : Browser) (p : Point) (s : PrescriptionCanvas) :
  globalCompositeOperation (ctx s) = SourceOver → opaque (bitmap (ctx s)) →
  globalCompositeOperation (ctx (draw B Main p s)) = SourceOver
  ∧ opaque (bitmap (ctx (draw B Main p s))).
Proof.
  intros Hop Hopq. unfold draw. destruct (isDrawing s); [|done].
  unfold stroke, lineTo. fields. rewrite Hop. split; [done|].
  by apply paint_source_over_opaque.
Qed.

(** With the pen, the brush or the highlighter selected, a stroke on an
    opaque prescription canvas leaves it opaque, whatever the colour, the
    size and the pixels covered. *)
Theorem stroke_keeps_canvas_opaque (B : Browser) (from : Point) (via : list Point)
  (s : PrescriptionCanvas) (opacity multiplier : Qc) :
  toolTable (currentTool s) = Some (SourceOver, opacity, multiplier) →
  opaque (bitmap (ctx s)) →
  opaque (bitmap (ctx (run B (strokeEvents from via) s))).
Proof.
  intros Htool Hopq. unfold strokeEvents, run.
  cbn [foldl handle]. rewrite foldl_app. cbn [foldl handle].
  assert (Hstart : globalCompositeOperation (ctx (startDrawing Main from s)) = SourceOver
                   ∧ opaque (bitmap (ctx (startDrawing Main from s)))).
  { unfold startDrawing. cbv zeta.
    set (x := on Main (moveTo from) (on Main beginPath (set_isDrawing true s))).
    assert (Hx : currentTool x = currentTool s) by reflexivity.
    assert (Hbx : bitmap (ctx x) = bitmap (ctx s)) by reflexivity.
    clearbody x. rewrite <- Hx in Htool. rewrite <- Hbx in Hopq.
    destruct (setDrawingProperties_table x (ctx x) SourceOver opacity multiplier Htool)
      as (H1 & _).
    assert (Hb : ∀ c, bitmap (setDrawingProperties x c) = bitmap c).
    { intros c. unfold setDrawingProperties. cbv zeta.
      repeat match goal with |- context [String.eqb ?a ?b] => destruct (String.eqb a b) end;
        by fields. }
    fields. by rewrite Hb. }
  forget (startDrawing Main from s) as x. clear Htool Hopq.
  assert (Hdrags : globalCompositeOperation
                     (ctx (foldl (λ s e, handle B e s) x (map (MouseMove Main) via)))
                   = SourceOver
                   ∧ opaque (bitmap (ctx (foldl (λ s e, handle B e s) x
                                            (map (MouseMove Main) via))))).
  { revert x Hstart. induction via as [|p via IH]; intros x [H1 H2]; cbn [map foldl handle].
    - done.
    - apply IH. by apply draw_source_over. }
  forget (foldl (λ s e, handle B e s) x (map (MouseMove Main) via)) as y.
  unfold stopDrawing. destruct (isDrawing y); [|apply Hdrags].
  destruct (saveState_frame (set_isDrawing false y)) as (-> & _). apply Hdrags.
Qed.

(** On the small page: a stroke of the highlighter. *)
Lemma stroke_keeps_canvas_opaque_witness :
  let s := setTool "highlighter" Demo.drawn in
  toolTable (currentTool s) = Some (SourceOver, Q2Qc 0.3, Q2Qc 3)
  ∧ opaque (bitmap (ctx s))
  ∧ opaque (bitmap (ctx (run Demo.browser (strokeEvents (0, 0)%Qc [(1, 1)%Qc]) s))).
Proof.
  intros s.
  assert (Htool : toolTable (currentTool s) = Some (SourceOver, Q2Qc 0.3, Q2Qc 3))
    by reflexivity.
  assert (Hopq : opaque (bitmap (ctx s))).
  { clear. vm_compute. repeat (apply Forall_cons; split; [reflexivity|]). by apply Forall_nil. }
  split_and!; [exact Htool | exact Hopq |].
  exact (stroke_keeps_canvas_opaque Demo.browser (0, 0)%Qc [(1, 1)%Qc] s _ _ Htool Hopq).
Defined.

Lemma paint_lookup (op : CompositeOp) (src : Pixel) (mask : list Qc) (dst : Bitmap)
  (i : nat) (k : Qc) (d : Pixel) :
  mask !! i = Some k → dst !! i = Some d →
  paint op src mask dst !! i = Some (composite op (scale k src) d).
Proof.
  revert mask dst. induction i as [|i IH]; intros [|k' mask] [|d' dst] Hk Hd;
    simplify_eq/=; [done|]. by apply IH.
Qed.

(** The eraser removes what it covers: a pixel the stroke covers entirely
    ends fully transparent, whatever was there and whatever colour is
    selected; it is not painted white. *)
Theorem eraser_makes_holes (B : Browser) (from p : Point) (s : PrescriptionCanvas)
  (i : nat) (d : Pixel) :
  currentTool s = "eraser" →
  rasterize B (width B) (height B)
    (StrokePath [MoveTo from; LineTo p] (Q2Qc (inject_Z (currentSize s)) * Q2Qc 2)%Qc
       CapRound JoinRound) !! i = Some 1%Qc →
  bitmap (ctx s) !! i = Some d →
  bitmap (ctx (draw B Main p (startDrawing Main from s))) !! i = Some transparent.
Proof.
  intros Htool Hmask Hd.
  unfold draw, startDrawing, setDrawingProperties. cbv zeta. fields. rewrite Htool.
  cbn [String.eqb Ascii.eqb Bool.eqb]. fields.
  unfold stroke, lineTo, moveTo, beginPath, ink. fields.
  cbn [canvasWidth canvasHeight app].
  rewrite (paint_lookup _ _ _ _ i 1%Qc d Hmask Hd). f_equal.
  apply pixel_eq; unfold composite, scale; simpl; ring.
Qed.

(** On the small page: the eraser over the first pixel. *)
Lemma eraser_makes_holes_witness :
  let s := setTool "eraser" Demo.drawn in
  currentTool s = "eraser"
  ∧ bitmap (ctx s) !! 0%nat = Some (solid black)
  ∧ bitmap (ctx (draw Demo.browser Main (1, 1)%Qc (startDrawing Main (0, 0)%Qc s))) !! 0%nat
    = Some transparent.
Proof.
  intros s.
  assert (Htool : currentTool s = "eraser") by reflexivity.
  assert (Hd : bitmap (ctx s) !! 0%nat = Some (solid black)) by evaluated.
  split_and!; [exact Htool | exact Hd |].
  apply (eraser_makes_holes Demo.browser (0, 0)%Qc (1, 1)%Qc s 0%nat (solid black) Htool);
    [reflexivity | exact Hd].
Defined.

(** *** Decodes in flight *)

Lemma imageLoaded_head (s : PrescriptionCanvas) (t : Target) (u : DataURL)
  (l : list (Target * DataURL)) :
  loading s = (t, u) :: l →
  loading (imageLoaded 0 s) = l
  ∧ imageLoaded 0 s
    = match u, t with
      | Png img, Main => canvasStateLoaded u img (set_loading l s)
      | Png img, Signature => signatureLoaded img (set_loading l s)
      | _, _ => set_loading l s
      end.
Proof.
  intros H. unfold imageLoaded. rewrite H. cbn [lookup list_lookup delete list_delete].
  split; [|done]. unfold canvasStateLoaded, signatureLoaded. destruct u, t; fields; done.
Qed.

(** The oldest decode ends, then the others. *)
Lemma settle_cons (s : PrescriptionCanvas) (t : Target) (u : DataURL)
  (l : list (Target * DataURL)) :
  loading s = (t, u) :: l → settle s = settle (imageLoaded 0 s).
Proof.
  intros H. destruct (imageLoaded_head s t u l H) as [Hl _].
  unfold settle. rewrite H, Hl. cbn [length]. by rewrite Nat.iter_succ_r.
Qed.

Lemma array_set_head (a v : DataURL) (l : list DataURL) : array_set (a :: l) 0 v = v :: l.
Proof.
  unfold array_set, array_length. cbn [length].
  repeat case_decide; try lia. done.
Qed.

(** The decode of a page picture ends, then those of signatures. *)
Lemma settle_page_then_signatures (x : PrescriptionCanvas) (p : Bitmap)
  (sigs : list (Target * DataURL)) :
  loading x = (Main, Png p) :: sigs → (∀ u, (Main, u) ∉ sigs) →
  pages (settle x) = array_set (pages x) (currentPageIndex x) (Png p)
  ∧ currentPageIndex (settle x) = currentPageIndex x
  ∧ history (settle x) = history x ∧ historyStep (settle x) = historyStep x
  ∧ ctx (settle x) = drawImage p (fillWhite (ctx x))
  ∧ loading (settle x) = [].
Proof.
  intros Hl Hsigs. rewrite (settle_cons x Main (Png p) sigs Hl).
  destruct (imageLoaded_head x Main (Png p) sigs Hl) as [Hl1 Heq].
  assert (Hy : pages (imageLoaded 0 x) = array_set (pages x) (currentPageIndex x) (Png p)
               ∧ currentPageIndex (imageLoaded 0 x) = currentPageIndex x
               ∧ history (imageLoaded 0 x) = history x
               ∧ historyStep (imageLoaded 0 x) = historyStep x
               ∧ ctx (imageLoaded 0 x) = drawImage p (fillWhite (ctx x))).
  { rewrite Heq. unfold canvasStateLoaded. fields. done. }
  clear Heq. destruct Hy as (Y1 & Y2 & Y3 & Y4 & Y5).
  forget (imageLoaded 0 x) as y.
  destruct (settle_signature_only y) as (S1 & S2 & S3 & S4 & S5 & S6 & S7).
  { by rewrite Hl1. }
  rewrite S5, S6, S2, S3, S1, S7. by split_and!.
Qed.

(** What the end of a decode paints with the pen's context, which it
    leaves in force. *)
Lemma drawImage_fillWhite_keeps_pen (img : Bitmap) (c : Context) :
  penState c →
  penState (drawImage img (fillWhite c))
  ∧ bitmap (drawImage img (fillWhite c)) = onWhite img (length (bitmap c))
  ∧ length (bitmap (drawImage img (fillWhite c))) = length (bitmap c).
Proof.
  intros Hpen. pose proof (drawImage_fillWhite_pen img c Hpen) as Hb.
  destruct (fillWhite_pen c Hpen) as [Hw _].
  split_and!; [exact Hw | exact Hb |]. rewrite Hb. apply length_onWhite.
Qed.

(** *** Importing a document *)

(** What [setFormValue] leaves in an input. *)
Lemma form_setFormValue (i : string) (v : option string) (x : PrescriptionCanvas)
  (id : string) :
  form (setFormValue i v x) !! id
  = if decide (id = i)
    then match form x !! id, v with
         | Some old, Some new => Some (if String.eqb new "" then old else new)
         | other, _ => other
         end
    else form x !! id.
Proof.
  unfold setFormValue. case_decide as Hid.
  - subst i. destruct (form x !! id) as [old|] eqn:Hold; [|by rewrite Hold].
    destruct v as [new|]; [|by rewrite Hold]. destruct (String.eqb new ""); fields.
    + by rewrite Hold.
    + by rewrite lookup_insert_eq.
  - destruct (form x !! i) as [old|]; [|done]. destruct v as [new|]; [|done].
    destruct (String.eqb new ""); fields; [done|]. by rewrite lookup_insert_ne.
Qed.

Lemma form_setFormValue_eqb (i : string) (v : option string) (x : PrescriptionCanvas)
  (name : string) :
  form (setFormValue i v x) !! name
  = if String.eqb name i
    then match form x !! name, v with
         | Some old, Some new => Some (if String.eqb new "" then old else new)
         | other, _ => other
         end
    else form x !! name.
Proof.
  rewrite form_setFormValue. destruct (String.eqb_spec name i); by case_decide.
Qed.

Lemma loadPage_keeps (i : Z) (x : PrescriptionCanvas) :
  form (loadPage i x) = form x ∧ history (loadPage i x) = history x
  ∧ historyStep (loadPage i x) = historyStep x
  ∧ currentPageIndex (loadPage i x) = currentPageIndex x.
Proof. unfold loadPage. destruct (_ && _)%bool; fields; done. Qed.

Lemma array_get_head (a : DataURL) (l : list DataURL) : array_get (a :: l) 0 = a.
Proof. unfold array_get. case_decide; [done | lia]. Qed.

(** The state the reader's callback leaves, for a document with pages
    whose first holds a picture. *)
Lemma loadPrescription_state (data : PrescriptionData) (p : Bitmap) (rest : list DataURL)
  (s : PrescriptionCanvas) :
  data_pages data = Some (Png p :: rest) →
  let x := loadPrescription (Document data) s in
  ∃ sigs, loading x = loading s ++ (Main, Png p) :: sigs
    ∧ (∀ u, (Main, u) ∉ sigs)
    ∧ (∀ img, data_signature data = Some (Png img) → sigs = [(Signature, Png img)])
    ∧ pages x = Png p :: rest ∧ currentPageIndex x = 0
    ∧ history x = history s ∧ historyStep x = historyStep s
    ∧ ctx x = ctx s ∧ signatureCtx x = signatureCtx s.
Proof.
  intros Hp x. subst x. unfold loadPrescription. cbv zeta. forget_forms.
  rewrite Hp. cbn [default from_option id]. fields.
  case_decide; [|unfold array_length in *; simpl in *; lia].
  unfold loadPage. fields. rewrite !array_get_head.
  cbn [truthy is_empty_string negb andb]. fields.
  destruct (data_signature data) as [sig|]; [destruct (truthy sig) eqn:Ht|]; fields.
  - exists [(Signature, sig)]. rewrite <- app_assoc. split_and!; try done.
    + intros u Hu. apply list_elem_of_singleton in Hu. discriminate.
    + by intros img [= ->].
  - exists []. split_and!; try done.
    + intros u Hu. by apply elem_of_nil in Hu.
    + intros img [= ->]. done.
  - exists []. split_and!; try done. intros u Hu. by apply elem_of_nil in Hu.
Qed.

(** Importing a document replaces the pages and leaves the history of the
    drawing it replaces.  An undo after the import therefore succeeds
    against that history: it stores a snapshot of the former drawing in
    the slot of the first imported page, whose picture is lost, and with
    the pen's context the canvas, which showed the imported page on
    white, shows that snapshot on white. *)
Theorem undo_after_import_overwrites_page (data : PrescriptionData) (p img : Bitmap)
  (rest : list DataURL) (s : PrescriptionCanvas) :
  quiet s → historyStep s > 0 →
  array_get (history s) (historyStep s - 1) = Png img →
  data_pages data = Some (Png p :: rest) →
  let loaded := settle (loadPrescription (Document data) s) in
  let u := undoSettled loaded in
  pages loaded = Png p :: rest ∧ currentPageIndex loaded = 0
  ∧ history loaded = history s ∧ historyStep loaded = historyStep s
  ∧ notification (undoLast loaded) = Some ("Undone", LInfo)
  ∧ pages u = Png img :: rest ∧ currentPageIndex u = 0
  ∧ (penState (ctx s) →
     bitmap (ctx loaded) = onWhite p (length (bitmap (ctx s)))
     ∧ bitmap (ctx u) = onWhite img (length (bitmap (ctx s)))).
Proof.
  intros Hq H0 Himg Hp. cbv zeta.
  destruct (loadPrescription_state data p rest s Hp)
    as (sigs & Hl & Hsigs & _ & X1 & X2 & X3 & X4 & X5 & _).
  unfold quiet in Hq. rewrite Hq in Hl. cbn [app] in Hl.
  forget (loadPrescription (Document data) s) as x.
  destruct (settle_page_then_signatures x p sigs Hl Hsigs) as (L1 & L2 & L3 & L4 & L5 & L6).
  rewrite X1, X2, array_set_head in L1. rewrite X2 in L2. rewrite X3 in L3.
  rewrite X4 in L4. rewrite X5 in L5.
  forget (settle x) as loaded.
  assert (Hstep : historyStep loaded > 0) by by rewrite L4.
  assert (Hprev : array_get (history loaded) (historyStep loaded - 1) = Png img)
    by by rewrite L3, L4.
  pose proof (undoLast_moves loaded Hstep) as Hmove.
  pose proof (undoSettled_eq img loaded L6 Hstep Hprev) as Hu.
  destruct (canvasStateLoaded_pages (Png img) img
              (showNotification "Undone" LInfo
                 (set_historyStep (historyStep loaded - 1) loaded))) as [Hpu Hiu].
  assert (Hcu : ctx (canvasStateLoaded (Png img) img
                       (showNotification "Undone" LInfo
                          (set_historyStep (historyStep loaded - 1) loaded)))
                = drawImage img (fillWhite (ctx loaded))).
  { unfold canvasStateLoaded. fields. done. }
  rewrite <- Hu in Hpu, Hiu, Hcu. clear Hu.
  forget (undoSettled loaded) as u.
  split_and!; [done | done | done | done | | | |].
  - rewrite Hmove. done.
  - rewrite Hpu. change (array_set (pages loaded) (currentPageIndex loaded) (Png img)
                        = Png img :: rest).
    rewrite L1, L2. apply array_set_head.
  - rewrite Hiu. exact L2.
  - intros Hpen. rewrite Hcu, L5.
    destruct (drawImage_fillWhite_keeps_pen p (ctx s) Hpen) as (Hpen' & Hb & Hlen).
    split; [exact Hb|].
    destruct (drawImage_fillWhite_keeps_pen img _ Hpen') as (_ & -> & _).
    by rewrite Hlen.
Qed.

(** On the small page: two strokes, a document of one page imported, an
    undo. *)
Lemma undo_after_import_overwrites_page_witness :
  quiet Demo.drawn ∧ historyStep Demo.drawn > 0
  ∧ array_get (history Demo.drawn) (historyStep Demo.drawn - 1)
    = Png [solid black; solid white]
  ∧ data_pages Demo.scan = Some [Png [solid black; solid black]]
  ∧ pages (settle (loadPrescription (Document Demo.scan) Demo.drawn))
    = [Png [solid black; solid black]]
  ∧ pages (undoSettled (settle (loadPrescription (Document Demo.scan) Demo.drawn)))
    = [Png [solid black; solid white]]
  ∧ penState (ctx Demo.drawn)
  ∧ bitmap (ctx (undoSettled (settle (loadPrescription (Document Demo.scan) Demo.drawn))))
    = onWhite [solid black; solid white] (length (bitmap (ctx Demo.drawn))).
Proof.
  assert (Hq : quiet Demo.drawn) by evaluated.
  assert (H0 : historyStep Demo.drawn > 0) by evaluated.
  assert (Himg : array_get (history Demo.drawn) (historyStep Demo.drawn - 1)
                 = Png [solid black; solid white]) by evaluated.
  assert (Hp : data_pages Demo.scan = Some [Png [solid black; solid black]]) by reflexivity.
  destruct (undo_after_import_overwrites_page Demo.scan [solid black; solid black]
              [solid black; solid white] [] Demo.drawn Hq H0 Himg Hp)
    as (H1 & H2 & H3 & H4 & H5 & H6 & H7 & H8).
  assert (Hpen : penState (ctx Demo.drawn)) by (split; evaluated).
  destruct (H8 Hpen) as [_ H9].
  split_and!; [exact Hq | exact H0 | exact Himg | exact Hp | exact H1 | exact H6
              | exact Hpen | exact H9].
Defined.

(** An import writes a field of the document into the input of that name
    only when the input exists and the field is a non-empty string: a
    field that is absent or empty leaves the value the input had, which
    may come from the document before; no input is created, and every
    other input keeps its value. *)
Theorem import_writes_form (id : string) (data : PrescriptionData) (s : PrescriptionCanvas) :
  form (loadPrescription (Document data) s) !! id
  = match form s !! id, documentField id data with
    | Some old, Some new => Some (if String.eqb new "" then old else new)
    | other, _ => other
    end.
Proof.
  unfold loadPrescription. cbv zeta.
  assert (Hbase : ∀ x, form x = form s →
            form (if decide (array_length (pages x) > 0) then loadPage 0 x else x) = form s).
  { intros x Hx. case_decide; [|done]. destruct (loadPage_keeps 0 x) as (-> & _). done. }
  specialize (Hbase (set_currentPageIndex 0 (set_pages (default [] (data_pages data)) s))
                eq_refl).
  forget (if decide (array_length (pages (set_currentPageIndex 0
                       (set_pages (default [] (data_pages data)) s))) > 0)
          then loadPage 0 (set_currentPageIndex 0
                             (set_pages (default [] (data_pages data)) s))
          else set_currentPageIndex 0 (set_pages (default [] (data_pages data)) s)) as x0.
  assert (Hform : ∀ y, form (showNotification "Prescription loaded successfully!" LSuccess
                     match data_signature data with
                     | Some signature =>
                         if truthy signature
                         then set_loading (loading y ++ [(Signature, signature)]) y else y
                     | None => y
                     end) = form y).
  { intros y. destruct (data_signature data) as [sig|]; [destruct (truthy sig)|]; done. }
  rewrite Hform. clear Hform. rewrite !form_setFormValue, Hbase.
  unfold documentField.
  repeat case_decide; subst; try done.
  repeat match goal with
  | H : id ≠ _ |- _ => apply String.eqb_neq in H; rewrite H; clear H
  end.
  by destruct (form s !! id).
Qed.

(** *** Saving a document and loading it back *)

Lemma getFormValue_nonempty (id dflt : string) (s : PrescriptionCanvas) :
  dflt ≠ "" → String.eqb (getFormValue id dflt s) "" = false.
Proof.
  intros Hd. apply String.eqb_neq. unfold getFormValue.
  destruct (form s !! id) as [v|]; [|done].
  destruct (String.eqb_spec v ""); done.
Qed.

(** The decode of a page picture ends, then that of a signature. *)
Lemma settle_page_and_signature (x : PrescriptionCanvas) (p b : Bitmap) :
  loading x = [(Main, Png p); (Signature, Png b)] →
  pages (settle x) = array_set (pages x) (currentPageIndex x) (Png p)
  ∧ currentPageIndex (settle x) = currentPageIndex x
  ∧ ctx (settle x) = drawImage p (fillWhite (ctx x))
  ∧ signatureCtx (settle x) = drawImage b (fillWhite (signatureCtx x))
  ∧ form (settle x) = form x.
Proof.
  intros Hl. rewrite (settle_cons x _ _ _ Hl).
  destruct (imageLoaded_head x _ _ _ Hl) as [Hl1 Heq1].
  assert (Hy : pages (imageLoaded 0 x) = array_set (pages x) (currentPageIndex x) (Png p)
               ∧ currentPageIndex (imageLoaded 0 x) = currentPageIndex x
               ∧ ctx (imageLoaded 0 x) = drawImage p (fillWhite (ctx x))
               ∧ signatureCtx (imageLoaded 0 x) = signatureCtx x
               ∧ form (imageLoaded 0 x) = form x).
  { rewrite Heq1. unfold canvasStateLoaded. fields. done. }
  clear Heq1. destruct Hy as (Y1 & Y2 & Y3 & Y4 & Y5).
  forget (imageLoaded 0 x) as y.
  rewrite (settle_cons y _ _ _ Hl1).
  destruct (imageLoaded_head y _ _ _ Hl1) as [Hl2 Heq2].
  assert (Hz : pages (imageLoaded 0 y) = pages y
               ∧ currentPageIndex (imageLoaded 0 y) = currentPageIndex y
               ∧ ctx (imageLoaded 0 y) = ctx y
               ∧ signatureCtx (imageLoaded 0 y) = drawImage b (fillWhite (signatureCtx y))
               ∧ form (imageLoaded 0 y) = form y).
  { rewrite Heq2. unfold signatureLoaded. fields. done. }
  clear Heq2. destruct Hz as (Z1 & Z2 & Z3 & Z4 & Z5).
  forget (imageLoaded 0 y) as z.
  unfold settle. rewrite Hl2. cbn [length Nat.iter nat_rect].
  rewrite Z1, Z2, Z3, Z4, Z5, Y1, Y2, Y3, Y4, Y5. done.
Qed.

(** The document [savePrescription] writes, read back by
    [loadPrescription] in any object with no decode in flight, brings the
    pages of the object saved; the first page is the active one wherever
    the saved object was.  Where the receiving object has the pen's
    context, the canvas ends as the first page on white, and likewise the
    pad as the saved signature on white.  Each input that exists receives
    what was saved for it: the value the saved object's input had or,
    when that input was missing or empty, the default [savePrescription]
    wrote in its place. *)
Theorem saved_document_loads_back (today now : string) (s x : PrescriptionCanvas)
  (p : Bitmap) (rest : list DataURL) :
  pages s = Png p :: rest → quiet x → today ≠ "" → now ≠ "" →
  let back := settle (loadPrescription (Document (prescriptionData today now s)) x) in
  pages back = pages s ∧ currentPageIndex back = 0
  ∧ (penState (ctx x) → bitmap (ctx back) = onWhite p (length (bitmap (ctx x))))
  ∧ (penState (signatureCtx x) →
     bitmap (signatureCtx back)
     = onWhite (bitmap (signatureCtx s)) (length (bitmap (signatureCtx x))))
  ∧ ∀ id dflt, (id, dflt) ∈ formDefaults today now →
      form back !! id = (λ _, getFormValue id dflt s) <$> form x !! id.
Proof.
  intros Hp Hq Htoday Hnow. cbv zeta.
  assert (Hform : ∀ name dflt, (name, dflt) ∈ formDefaults today now →
            form (loadPrescription (Document (prescriptionData today now s)) x) !! name
            = (λ _, getFormValue name dflt s) <$> form x !! name).
  { intros name dflt Hin. unfold loadPrescription, prescriptionData. cbv zeta.
    cbn [data_pages data_signature data_doctorName data_clinicName data_patientName
         data_patientAge data_date data_time default from_option id].
    cbn [toDataURL truthy]. fields. rewrite !form_setFormValue_eqb.
    assert (Hbase : ∀ (P : Prop) (d : Decision P) y, form y = form x →
              form (if d then loadPage 0 y else y) = form x).
    { intros P d y Hy. destruct d; [|done]. destruct (loadPage_keeps 0 y) as (-> & _). done. }
    rewrite Hbase by done.
    unfold formDefaults in Hin. rewrite !elem_of_cons in Hin.
    destruct Hin as [[= -> ->]|[[= -> ->]|[[= -> ->]|[[= -> ->]|[[= -> ->]|[[= -> ->]|Hin]]]]]];
      [| | | | | | by apply elem_of_nil in Hin];
      cbn [String.eqb Ascii.eqb Bool.eqb];
      rewrite getFormValue_nonempty by done; by destruct (form x !! _). }
  destruct (loadPrescription_state (prescriptionData today now s) p rest x)
    as (sigs & Hl & _ & Hsig & X1 & X2 & _ & _ & X5 & X6); [by cbn; rewrite Hp|].
  rewrite (Hsig (bitmap (signatureCtx s)) eq_refl) in Hl.
  unfold quiet in Hq. rewrite Hq in Hl. cbn [app] in Hl.
  forget (loadPrescription (Document (prescriptionData today now s)) x) as y.
  destruct (settle_page_and_signature y p (bitmap (signatureCtx s)) Hl)
    as (L1 & L2 & L3 & L4 & L5).
  rewrite L1, L2, L3, L4, L5, X1, X2, X5, X6, array_set_head, Hp.
  split_and!; [done | done | | | done].
  - intros Hpen. by apply drawImage_fillWhite_pen.
  - intros Hpen. by apply drawImage_fillWhite_pen.
Qed.

(** On the small page: the drawing of two strokes saved, and loaded in a
    new object. *)
Lemma saved_document_loads_back_witness :
  pages Demo.drawn = [Png [solid black; solid white]] ∧ quiet Demo.start
  ∧ "2024-05-18" ≠ "" ∧ "10:00" ≠ ""
  ∧ pages (settle (loadPrescription
                     (Document (prescriptionData "2024-05-18" "10:00" Demo.drawn))
                     Demo.start))
    = pages Demo.drawn
  ∧ penState (ctx Demo.start)
  ∧ bitmap (ctx (settle (loadPrescription
                           (Document (prescriptionData "2024-05-18" "10:00" Demo.drawn))
                           Demo.start)))
    = onWhite [solid black; solid white] (length (bitmap (ctx Demo.start)))
  ∧ penState (signatureCtx Demo.start)
  ∧ bitmap (signatureCtx
              (settle (loadPrescription
                         (Document (prescriptionData "2024-05-18" "10:00" Demo.drawn))
                         Demo.start)))
    = onWhite (bitmap (signatureCtx Demo.drawn)) (length (bitmap (signatureCtx Demo.start))).
Proof.
  assert (Hp : pages Demo.drawn = [Png [solid black; solid white]]) by evaluated.
  assert (Hq : quiet Demo.start) by evaluated.
  assert (Htoday : "2024-05-18" ≠ "") by discriminate.
  assert (Hnow : "10:00" ≠ "") by discriminate.
  destruct (saved_document_loads_back "2024-05-18" "10:00" Demo.drawn Demo.start
              [solid black; solid white] [] Hp Hq Htoday Hnow) as (H1 & H2 & H3 & H4 & H5).
  assert (Hpen : penState (ctx Demo.start)) by (split; evaluated).
  assert (Hpad : penState (signatureCtx Demo.start)) by (split; evaluated).
  split_and!; [exact Hp | exact Hq | exact Htoday | exact Hnow | exact H1
              | exact Hpen | exact (H3 Hpen) | exact Hpad | exact (H4 Hpad)].
Defined.

(** *** The saved signature *)

(** The object [new PrescriptionCanvas()] leaves when the local storage
    holds a picture: its decode is the one in flight. *)
Lemma constructor_with_signature (B : Browser) (dom : gmap string string)
  (date time : string) (b : Bitmap) :
  let c := constructor B dom date time (Some (Png b)) in
  loading c = [(Signature, Png b)]
  ∧ savedSignature c = Some (Png b)
  ∧ penState (signatureCtx c)
  ∧ length (bitmap (signatureCtx c)) = (sigWidth B * sigHeight B)%nat.
Proof.
  intros c. subst c. unfold constructor, initializeCanvas. cbv zeta. forget_forms.
  unfold saveState, recordState, limitHistory. fields.
  repeat (case_decide; try (unfold array_length in *; simpl in *; lia)); fields.
  unfold loadSavedSignature. fields. cbn [truthy]. fields.
  unfold fillWhite, fillRect, freshContext. fields.
  rewrite length_map, length_replicate. by split_and!.
Qed.

(** A signature saved with [saveSignature] is in the local storage.  The
    object built at the next visit of the page finds it there and, once
    its decode has ended, shows it on the signature pad, drawn on white:
    pixel for pixel the signature saved when that was opaque and of the
    size of the pad.  Clearing the pad does not remove it from the
    storage. *)
Theorem saved_signature_comes_back (B : Browser) (dom : gmap string string)
  (date time : string) (s : PrescriptionCanvas) :
  let saved := storage (saveSignature true s) in
  let next := initial B dom date time saved in
  let n := (sigWidth B * sigHeight B)%nat in
  saved = Some (toDataURL (signatureCtx s))
  ∧ storage (clearSignature (saveSignature true s)) = saved
  ∧ savedSignature next = saved
  ∧ bitmap (signatureCtx next) = onWhite (bitmap (signatureCtx s)) n
  ∧ (opaque (bitmap (signatureCtx s)) → length (bitmap (signatureCtx s)) = n →
       bitmap (signatureCtx next) = bitmap (signatureCtx s)).
Proof.
  cbv zeta.
  assert (Hsaved : storage (saveSignature true s) = Some (Png (bitmap (signatureCtx s))))
    by reflexivity.
  assert (Hclear : storage (clearSignature (saveSignature true s))
                   = storage (saveSignature true s)) by reflexivity.
  rewrite Hclear, Hsaved. clear Hclear Hsaved. unfold initial.
  destruct (constructor_with_signature B dom date time (bitmap (signatureCtx s)))
    as (Hl & Hs & Hpen & Hlen).
  forget (constructor B dom date time (Some (Png (bitmap (signatureCtx s))))) as c.
  rewrite (settle_cons c _ _ _ Hl).
  destruct (imageLoaded_head c _ _ _ Hl) as [Hl1 Heq].
  assert (Hy : savedSignature (imageLoaded 0 c) = savedSignature c
               ∧ signatureCtx (imageLoaded 0 c)
                 = drawImage (bitmap (signatureCtx s)) (fillWhite (signatureCtx c))).
  { rewrite Heq. unfold signatureLoaded. fields. done. }
  clear Heq. destruct Hy as [Y1 Y2].
  forget (imageLoaded 0 c) as y.
  unfold settle. rewrite Hl1. cbn [length Nat.iter nat_rect].
  assert (Hb : bitmap (signatureCtx y)
               = onWhite (bitmap (signatureCtx s)) (sigWidth B * sigHeight B)).
  { rewrite Y2, drawImage_fillWhite_pen by done. by rewrite Hlen. }
  split_and!; [done | done | by rewrite Y1 | done |].
  intros Hopq Hsize. rewrite Hb, <- Hsize. by apply onWhite_opaque.
Qed.

(** On the small page: the blank pad saved. *)
Lemma saved_signature_comes_back_witness :
  opaque (bitmap (signatureCtx Demo.start))
  ∧ length (bitmap (signatureCtx Demo.start)) = 1%nat
  ∧ bitmap (signatureCtx (initial Demo.browser ∅ "2024-05-18" "10:00"
                            (storage (saveSignature true Demo.start))))
    = bitmap (signatureCtx Demo.start).
Proof.
  assert (Hopq : opaque (bitmap (signatureCtx Demo.start))).
  { clear. vm_compute. repeat (apply Forall_cons; split; [reflexivity|]). by apply Forall_nil. }
  assert (Hlen : length (bitmap (signatureCtx Demo.start)) = 1%nat) by evaluated.
  destruct (saved_signature_comes_back Demo.browser ∅ "2024-05-18" "10:00" Demo.start)
    as (H1 & H2 & H3 & H4 & H5).
  split_and!; [exact Hopq | exact Hlen | exact (H5 Hopq Hlen)].
Defined.

(** *** The alignment a stamp leaves *)

Create HintDb aligned discriminated.

Lemma keeps_textAlign_fillWhite : keeps_textAlign fillWhite.
Proof. by intros c. Qed.
Lemma keeps_textAlign_drawImage img : keeps_textAlign (drawImage img).
Proof. by intros c. Qed.
Lemma keeps_textAlign_stroke B t : keeps_textAlign (stroke B t).
Proof. by intros c. Qed.
Lemma keeps_textAlign_fillText B t text p : keeps_textAlign (fillText B t text p).
Proof. by intros c. Qed.
Lemma keeps_textAlign_beginPath : keeps_textAlign beginPath.
Proof. by intros c. Qed.
Lemma keeps_textAlign_moveTo p : keeps_textAlign (moveTo p).
Proof. by intros c. Qed.
Lemma keeps_textAlign_lineTo p : keeps_textAlign (lineTo p).
Proof. by intros c. Qed.
Lemma keeps_textAlign_set_font v : keeps_textAlign (set_font v).
Proof. by intros c. Qed.
Lemma keeps_textAlign_set_fillStyle v : keeps_textAlign (set_fillStyle v).
Proof. by intros c. Qed.
Lemma keeps_textAlign_setDrawingProperties s : keeps_textAlign (setDrawingProperties s).
Proof.
  intros c. unfold setDrawingProperties. cbv zeta.
  repeat match goal with |- context [String.eqb ?a ?b] => destruct (String.eqb a b) end;
    fields; done.
Qed.

Lemma aligned_frame (a : TextAlign) (s x : PrescriptionCanvas) :
  ctx x = ctx s → aligned a s → aligned a x.
Proof. intros H [H1]. split. by rewrite H. Qed.

Lemma aligned_on (a : TextAlign) (t : Target) (f : Context → Context)
  (s : PrescriptionCanvas) :
  keeps_textAlign f → aligned a s → aligned a (on t f s).
Proof. intros Hf [H]. split. destruct t; fields; [by rewrite Hf | done]. Qed.

Lemma aligned_showNotification a m l s : aligned a s → aligned a (showNotification m l s).
Proof. by apply aligned_frame. Qed.
Lemma aligned_set_isDrawing a v s : aligned a s → aligned a (set_isDrawing v s).
Proof. by apply aligned_frame. Qed.
Lemma aligned_set_currentTool a v s : aligned a s → aligned a (set_currentTool v s).
Proof. by apply aligned_frame. Qed.
Lemma aligned_set_currentColor a v s : aligned a s → aligned a (set_currentColor v s).
Proof. by apply aligned_frame. Qed.
Lemma aligned_set_currentSize a v s : aligned a s → aligned a (set_currentSize v s).
Proof. by apply aligned_frame. Qed.
Lemma aligned_set_pages a v s : aligned a s → aligned a (set_pages v s).
Proof. by apply aligned_frame. Qed.
Lemma aligned_set_currentPageIndex a v s : aligned a s → aligned a (set_currentPageIndex v s).
Proof. by apply aligned_frame. Qed.
Lemma aligned_set_historyStep a v s : aligned a s → aligned a (set_historyStep v s).
Proof. by apply aligned_frame. Qed.
Lemma aligned_set_savedSignature a v s : aligned a s → aligned a (set_savedSignature v s).
Proof. by apply aligned_frame. Qed.
Lemma aligned_set_form a v s : aligned a s → aligned a (set_form v s).
Proof. by apply aligned_frame. Qed.
Lemma aligned_set_storage a v s : aligned a s → aligned a (set_storage v s).
Proof. by apply aligned_frame. Qed.
Lemma aligned_set_loading a v s : aligned a s → aligned a (set_loading v s).
Proof. by apply aligned_frame. Qed.
Lemma aligned_loadCanvasState a u s : aligned a s → aligned a (loadCanvasState u s).
Proof. by apply aligned_frame. Qed.
Lemma aligned_saveState a s : aligned a s → aligned a (saveState s).
Proof. apply aligned_frame. by destruct (saveState_frame s) as (-> & _). Qed.

#[local] Hint Resolve keeps_textAlign_fillWhite keeps_textAlign_drawImage
  keeps_textAlign_stroke keeps_textAlign_fillText keeps_textAlign_beginPath
  keeps_textAlign_moveTo keeps_textAlign_lineTo keeps_textAlign_set_font
  keeps_textAlign_set_fillStyle keeps_textAlign_setDrawingProperties
  aligned_on aligned_showNotification aligned_set_isDrawing aligned_set_currentTool
  aligned_set_currentColor aligned_set_currentSize aligned_set_pages
  aligned_set_currentPageIndex aligned_set_historyStep aligned_set_savedSignature
  aligned_set_form aligned_set_storage aligned_set_loading aligned_loadCanvasState
  aligned_saveState : aligned.

Ltac aligned := walk ltac:(eauto 4 with aligned).

Lemma aligned_loadPage a i s : aligned a s → aligned a (loadPage i s).
Proof. intros H. open loadPage. aligned. Qed.
Lemma aligned_setFormValue a id v s : aligned a s → aligned a (setFormValue id v s).
Proof. intros H. open setFormValue. aligned. Qed.
Lemma aligned_undoLast a s : aligned a s → aligned a (undoLast s).
Proof. intros H. open undoLast. aligned. Qed.
Lemma aligned_redoLast a s : aligned a s → aligned a (redoLast s).
Proof. intros H. open redoLast. aligned. Qed.
Lemma aligned_canvasStateLoaded a u img s : aligned a s → aligned a (canvasStateLoaded u img s).
Proof. intros H. open canvasStateLoaded. aligned. Qed.
Lemma aligned_signatureLoaded a img s : aligned a s → aligned a (signatureLoaded img s).
Proof. intros H. open signatureLoaded. aligned. Qed.

#[local] Hint Resolve aligned_loadPage aligned_setFormValue aligned_undoLast
  aligned_redoLast aligned_canvasStateLoaded aligned_signatureLoaded : aligned.

Lemma aligned_imageLoaded a i s : aligned a s → aligned a (imageLoaded i s).
Proof. intros H. open imageLoaded. destruct (loading s !! i) as [[t u]|]; aligned. Qed.
Lemma aligned_loadPrescription a file s : aligned a s → aligned a (loadPrescription file s).
Proof. intros H. open loadPrescription. aligned. Qed.
Lemma aligned_startDrawing a t c s : aligned a s → aligned a (startDrawing t c s).
Proof. intros H. open startDrawing. aligned. Qed.
Lemma aligned_draw a B t c s : aligned a s → aligned a (draw B t c s).
Proof. intros H. open draw. aligned. Qed.
Lemma aligned_stopDrawing a t s : aligned a s → aligned a (stopDrawing t s).
Proof. intros H. open stopDrawing. aligned. Qed.
Lemma aligned_setTool a tool s : aligned a s → aligned a (setTool tool s).
Proof. intros H. open setTool. aligned. Qed.
Lemma aligned_clearCanvas a s : aligned a s → aligned a (clearCanvas s).
Proof. intros H. open clearCanvas. aligned. Qed.
Lemma aligned_clearSignature a s : aligned a s → aligned a (clearSignature s).
Proof. intros H. open clearSignature. aligned. Qed.
Lemma aligned_addText a B ans s : aligned a s → aligned a (addText B ans s).
Proof. intros H. open addText. aligned. Qed.
Lemma aligned_addPage a s : aligned a s → aligned a (addPage s).
Proof. intros H. open addPage. aligned. Qed.
Lemma aligned_deletePage a s : aligned a s → aligned a (deletePage s).
Proof. intros H. open deletePage. aligned. Qed.
Lemma aligned_previousPage a s : aligned a s → aligned a (previousPage s).
Proof. intros H. open previousPage. aligned. Qed.
Lemma aligned_nextPage a s : aligned a s → aligned a (nextPage s).
Proof. intros H. open nextPage. aligned. Qed.
Lemma aligned_saveSignature a w s : aligned a s → aligned a (saveSignature w s).
Proof. intros H. open saveSignature. aligned. Qed.
Lemma aligned_savePrescription a w s : aligned a s → aligned a (savePrescription w s).
Proof. intros H. open savePrescription. aligned. Qed.

#[local] Hint Resolve aligned_imageLoaded aligned_loadPrescription aligned_startDrawing
  aligned_draw aligned_stopDrawing aligned_setTool aligned_clearCanvas
  aligned_clearSignature aligned_addText aligned_addPage aligned_deletePage
  aligned_previousPage aligned_nextPage aligned_saveSignature
  aligned_savePrescription : aligned.

Lemma aligned_handleKeyboardShortcuts a e w s :
  aligned a s → aligned a (handleKeyboardShortcuts e w s).
Proof. intros H. open handleKeyboardShortcuts. aligned. Qed.

(** Every event but a stamp leaves the text alignment as it finds it. *)
Lemma handle_aligned (a : TextAlign) (B : Browser) (e : Event) (s : PrescriptionCanvas) :
  e ≠ AddStamp → aligned a s → aligned a (handle B e s).
Proof.
  intros He H. destruct e; cbn [handle]; try done.
  - by apply aligned_startDrawing.
  - by apply aligned_draw.
  - by apply aligned_stopDrawing.
  - by apply aligned_handleKeyboardShortcuts.
  - by apply aligned_setTool.
  - by apply aligned_set_currentColor.
  - by apply aligned_set_currentSize.
  - by apply aligned_clearCanvas.
  - by apply aligned_clearSignature.
  - by apply aligned_undoLast.
  - by apply aligned_redoLast.
  - by apply aligned_addText.
  - by apply aligned_addPage.
  - by apply aligned_deletePage.
  - by apply aligned_previousPage.
  - by apply aligned_nextPage.
  - by apply aligned_saveSignature.
  - by apply aligned_savePrescription.
  - by apply aligned_loadPrescription.
  - by apply aligned_imageLoaded.
  - by apply aligned_showNotification.
Qed.

Lemma aligned_set_textAlign (a : TextAlign) (s : PrescriptionCanvas) :
  aligned a (on Main (set_textAlign a) s).
Proof. split. reflexivity. Qed.

Lemma addStamp_centred (B : Browser) (s : PrescriptionCanvas) :
  aligned AlignCenter (addStamp B s).
Proof.
  open addStamp. do 7 inline_let.
  walk ltac:(eauto 4 using aligned_set_textAlign with aligned).
Qed.

Lemma ctx_on_Main (f : Context → Context) (s : PrescriptionCanvas) :
  ctx (on Main f s) = f (ctx s).
Proof. reflexivity. Qed.

Lemma ctx_showNotification (m : string) (l : Level) (s : PrescriptionCanvas) :
  ctx (showNotification m l s) = ctx s.
Proof. reflexivity. Qed.

Lemma on_keeps (t : Target) (f : Context → Context) (s : PrescriptionCanvas) :
  currentColor (on t f s) = currentColor s ∧ currentSize (on t f s) = currentSize s
  ∧ currentTool (on t f s) = currentTool s.
Proof. by destruct t. Qed.

(** [addText] with a text, step by step. *)
Lemma addText_steps (B : Browser) (text : string) (x : PrescriptionCanvas) :
  text ≠ "" →
  addText B (Some text) x
  = showNotification "Text added" LSuccess
      (saveState
         (on Main (fillText B Main text (Q2Qc 50, Q2Qc 50))
            (on Main (set_fillStyle
                        (currentColor
                           (on Main (set_font (mkFont (currentSize x * 8) "Arial")) x)))
               (on Main (set_font (mkFont (currentSize x * 8) "Arial")) x)))).
Proof. intros Htext%String.eqb_neq. unfold addText. rewrite Htext. reflexivity. Qed.

(** What [addText] asks of the browser. *)
Lemma addText_bitmap (B : Browser) (text : string) (x : PrescriptionCanvas) :
  text ≠ "" →
  bitmap (ctx (addText B (Some text) x))
  = paint (globalCompositeOperation (ctx x))
      (ink (ctx x) (currentColor x))
      (rasterize B (width B) (height B)
         (FillText (mkFont (currentSize x * 8) "Arial") (textAlign (ctx x)) text
            (Q2Qc 50, Q2Qc 50)))
      (bitmap (ctx x)).
Proof.
  intros Htext. rewrite (addText_steps B text x Htext), ctx_showNotification.
  match goal with |- context [saveState ?y] =>
    destruct (saveState_frame y) as (-> & _) end.
  rewrite !ctx_on_Main, (proj1 (on_keeps _ _ _)). reflexivity.
Qed.

Lemma run_after_stamp (B : Browser) (events : list Event) (y : PrescriptionCanvas) :
  aligned AlignCenter y → aligned AlignCenter (run B events y).
Proof.
  unfold run. revert y. induction events as [|e events IH]; intros y H; cbn [foldl].
  - done.
  - apply IH.
    assert (He : e = AddStamp ∨ e ≠ AddStamp) by (destruct e; (by left) || (by right)).
    destruct He as [->|He].
    + apply addStamp_centred.
    + by apply handle_aligned.
Qed.

(** [addStamp] sets the text alignment of the canvas to the centre and
    nothing sets it back: after a stamp, whatever happens next, the
    alignment is the centre, and [addText] hands it to the browser with
    the text, which is then centred on the point where a text added
    before any stamp starts.  Every event but a stamp leaves the
    alignment as it finds it. *)
Theorem stamp_centres_later_text (B : Browser) (s : PrescriptionCanvas)
  (events : list Event) (text : string) :
  let x := run B events (addStamp B s) in
  textAlign (ctx x) = AlignCenter
  ∧ (text ≠ "" →
     bitmap (ctx (addText B (Some text) x))
     = paint (globalCompositeOperation (ctx x))
         (ink (ctx x) (currentColor x))
         (rasterize B (width B) (height B)
            (FillText (mkFont (currentSize x * 8) "Arial") AlignCenter text
               (Q2Qc 50, Q2Qc 50)))
         (bitmap (ctx x)))
  ∧ ∀ e y, e ≠ AddStamp → textAlign (ctx (handle B e y)) = textAlign (ctx y).
Proof.
  cbv zeta.
  destruct (run_after_stamp B events (addStamp B s) (addStamp_centred B s)) as [Hx].
  forget (run B events (addStamp B s)) as x.
  split_and!; [done | |].
  - intros Htext. rewrite (addText_bitmap B text x Htext). by rewrite Hx.
  - intros e y He.
    assert (H0 : aligned (textAlign (ctx y)) y) by (split; reflexivity).
    by destruct (handle_aligned (textAlign (ctx y)) B e y He H0) as [H].
Qed.

(** On the small page: a stamp, then a text. *)
Lemma stamp_centres_later_text_witness :
  textAlign (ctx Demo.start) = AlignStart
  ∧ textAlign (ctx (run Demo.browser [AddText (Some "Rx")] (addStamp Demo.browser Demo.start)))
    = AlignCenter
  ∧ AddText (Some "Rx") ≠ AddStamp
  ∧ textAlign (ctx (handle Demo.browser (AddText (Some "Rx")) Demo.start))
    = textAlign (ctx Demo.start).
Proof.
  assert (H0 : textAlign (ctx Demo.start) = AlignStart) by evaluated.
  assert (He : AddText (Some "Rx") ≠ AddStamp) by discriminate.
  destruct (stamp_centres_later_text Demo.browser Demo.start [AddText (Some "Rx")] "Rx")
    as (H1 & H2 & H3).
  split_and!; [exact H0 | exact H1 | exact He | exact (H3 _ _ He)].
Defined.

(** *** What a push writes *)

(** Every push stores one and the same snapshot of the canvas in two
    places: on the history, under the cursor, and in the slot of the
    active page.  The other page slots, the canvas and the active index
    stay as they are. *)
Theorem saveState_stores_page_and_history (s : PrescriptionCanvas) :
  history_wf s → 0 ≤ currentPageIndex s →
  let x := saveState s in
  array_get (history x) (historyStep x) = toDataURL (ctx s)
  ∧ array_get (pages x) (currentPageIndex x) = toDataURL (ctx s)
  ∧ (∀ j, j ≠ currentPageIndex s → array_get (pages x) j = array_get (pages s) j)
  ∧ ctx x = ctx s ∧ currentPageIndex x = currentPageIndex s.
Proof.
  intros [H1 H2] Hi x. subst x.
  destruct (saveState_frame s) as (F1 & _ & _ & _ & F2 & _ & _ & F3).
  pose proof (recordState_history s ltac:(lia)) as Hrec.
  pose proof (recordState_length s ltac:(lia)) as Hlen.
  pose proof (recordState_historyStep s) as Hstep.
  assert (Htop : array_get (history (recordState s)) (historyStep s + 1) = toDataURL (ctx s)).
  { rewrite Hrec. apply array_get_last. unfold array_length in *. rewrite length_take. lia. }
  split_and!; [| | | done | done].
  - unfold saveState, limitHistory. case_decide; fields.
    + rewrite array_get_shift by lia. by rewrite Hstep.
    + by rewrite Hstep.
  - rewrite F3, F2. by apply array_get_set_eq.
  - intros j Hj. rewrite F3. by apply array_get_set_ne.
Qed.

(** On the small page: a push after two strokes and an undo. *)
Lemma saveState_stores_page_and_history_witness :
  history_wf Demo.undone ∧ 0 ≤ currentPageIndex Demo.undone
  ∧ array_get (history (saveState Demo.undone)) (historyStep (saveState Demo.undone))
    = toDataURL (ctx Demo.undone)
  ∧ array_get (pages (saveState Demo.undone)) (currentPageIndex (saveState Demo.undone))
    = toDataURL (ctx Demo.undone).
Proof.
  assert (Hwf : history_wf Demo.undone) by (split; evaluated).
  assert (Hi : 0 ≤ currentPageIndex Demo.undone) by evaluated.
  destruct (saveState_stores_page_and_history Demo.undone Hwf Hi) as (H1 & H2 & H3 & H4 & H5).
  split_and!; [exact Hwf | exact Hi | exact H1 | exact H2].
Defined.

(** *** Undo and redo in a hurry *)

(** An undo or a redo called while decodes are in flight: the decodes in
    flight stay in the queue, in front of the one the call starts. *)
Lemma undoLast_loading (x : PrescriptionCanvas) :
  ∃ extra, loading (undoLast x) = loading x ++ extra.
Proof.
  unfold undoLast, loadCanvasState. case_decide; fields.
  - by eexists.
  - exists []. by rewrite app_nil_r.
Qed.

Lemma redoLast_loading (x : PrescriptionCanvas) :
  ∃ extra, loading (redoLast x) = loading x ++ extra.
Proof.
  unfold redoLast, loadCanvasState. case_decide; fields.
  - by eexists.
  - exists []. by rewrite app_nil_r.
Qed.

(** The end of the oldest decode and a later call to undo or redo can be
    swapped: the call reads the history only, the decode writes the
    canvas and the page slot. *)
Lemma imageLoaded_undoLast (x : PrescriptionCanvas) (t : Target) (u : DataURL)
  (l : list (Target * DataURL)) :
  loading x = (t, u) :: l → imageLoaded 0 (undoLast x) = undoLast (imageLoaded 0 x).
Proof.
  intros H. destruct x. cbn in H. subst.
  unfold undoLast, imageLoaded, loadCanvasState, canvasStateLoaded, signatureLoaded.
  cbn [loading historyStep history app lookup list_lookup delete list_delete].
  case_decide; destruct u, t; cbn -[array_get array_set fillWhite drawImage Z.sub Z.add];
    repeat case_decide; try lia; reflexivity.
Qed.

Lemma imageLoaded_redoLast (x : PrescriptionCanvas) (t : Target) (u : DataURL)
  (l : list (Target * DataURL)) :
  loading x = (t, u) :: l → imageLoaded 0 (redoLast x) = redoLast (imageLoaded 0 x).
Proof.
  intros H. destruct x. cbn in H. subst.
  unfold redoLast, imageLoaded, loadCanvasState, canvasStateLoaded, signatureLoaded.
  cbn [loading historyStep history app lookup list_lookup delete list_delete].
  case_decide; destruct u, t; cbn -[array_get array_set fillWhite drawImage Z.sub Z.add];
    repeat case_decide; try lia; reflexivity.
Qed.

Lemma settle_quiet (x : PrescriptionCanvas) : quiet x → settle x = x.
Proof. unfold quiet, settle. by intros ->. Qed.

(** A call that queues its decode behind those in flight, and that the
    end of the oldest decode can be swapped with, may as well wait for
    the decodes in flight. *)
Lemma settle_after (f : PrescriptionCanvas → PrescriptionCanvas)
  (f_loading : ∀ x, ∃ extra, loading (f x) = loading x ++ extra)
  (f_swaps : ∀ x t u l,
     loading x = (t, u) :: l → imageLoaded 0 (f x) = f (imageLoaded 0 x))
  (x : PrescriptionCanvas) :
  settle (f x) = settle (f (settle x)).
Proof.
  remember (length (loading x)) as n eqn:Hn. revert x Hn.
  induction n as [|n IH]; intros x Hn.
  - rewrite (settle_quiet x); [done|].
    unfold quiet. by destruct (loading x).
  - destruct (loading x) as [|[t u] l] eqn:Hl; [done|].
    destruct (f_loading x) as [extra He]. rewrite Hl in He.
    rewrite (settle_cons (f x) t u (l ++ extra) He).
    rewrite (f_swaps x t u l Hl).
    destruct (imageLoaded_head x t u l Hl) as [Hl1 _].
    rewrite (IH (imageLoaded 0 x)); [|rewrite Hl1; simpl in Hn; lia].
    by rewrite <- (settle_cons x t u l Hl).
Qed.

Lemma settle_after_handle (B : Browser) (e : Event) (x : PrescriptionCanvas) :
  e = Undo ∨ e = Redo → settle (handle B e x) = settle (handle B e (settle x)).
Proof.
  intros [-> | ->]; cbn [handle].
  - apply settle_after; [apply undoLast_loading | apply imageLoaded_undoLast].
  - apply settle_after; [apply redoLast_loading | apply imageLoaded_redoLast].
Qed.

Lemma settle_run (B : Browser) (events : list Event) (x : PrescriptionCanvas) :
  Forall (λ e, e = Undo ∨ e = Redo) events →
  settle (run B events x) = foldl (λ s e, settle (handle B e s)) (settle x) events.
Proof.
  unfold run. intros H. revert x.
  induction H as [|e events He _ IH]; intros x; cbn [foldl]; [done|].
  rewrite IH. by rewrite (settle_after_handle B e x He).
Qed.

(** Undos and redos called one after the other without waiting, as with
    the keys held down, end where the same calls end when each one waits
    for the decode of the one before: same canvas, same pages, same
    cursor.  The decodes end in the order in which they started. *)
Theorem undo_redo_in_a_hurry (B : Browser) (events : list Event) (s : PrescriptionCanvas) :
  quiet s → Forall (λ e, e = Undo ∨ e = Redo) events →
  settle (run B events s) = foldl (λ s e, settle (handle B e s)) s events.
Proof.
  intros Hq H. rewrite (settle_run B events s H). by rewrite (settle_quiet s Hq).
Qed.

(** On the small page, after two strokes: two undos and a redo. *)
Lemma undo_redo_in_a_hurry_witness :
  quiet Demo.drawn ∧ Forall (λ e, e = Undo ∨ e = Redo) [Undo; Undo; Redo]
  ∧ settle (run Demo.browser [Undo; Undo; Redo] Demo.drawn)
    = foldl (λ s e, settle (handle Demo.browser e s)) Demo.drawn [Undo; Undo; Redo].
Proof.
  assert (Hq : quiet Demo.drawn) by evaluated.
  assert (He : Forall (λ e, e = Undo ∨ e = Redo) [Undo; Undo; Redo]).
  { repeat (apply Forall_cons; split; [by (left + right)|]). by apply Forall_nil. }
  split_and!; [exact Hq | exact He |].
  exact (undo_redo_in_a_hurry Demo.browser [Undo; Undo; Redo] Demo.drawn Hq He).
Defined.

(** *** Clearing with another tool than the pen *)

(** [setTool] writes the tool's row on the context of the prescription
    canvas and leaves its bitmap alone. *)
Lemma setTool_ctx (tool : string) (s : PrescriptionCanvas)
  (op : CompositeOp) (opacity multiplier : Qc) :
  toolTable tool = Some (op, opacity, multiplier) →
  globalCompositeOperation (ctx (setTool tool s)) = op
  ∧ globalAlpha (ctx (setTool tool s)) = opacity
  ∧ bitmap (ctx (setTool tool s)) = bitmap (ctx s).
Proof.
  intros Ht. unfold setTool. cbv zeta. rewrite ctx_showNotification, ctx_on_Main.
  destruct (setDrawingProperties_table (set_currentTool tool s) (ctx (set_currentTool tool s))
              op opacity multiplier Ht) as (H1 & H2 & _).
  split_and!; [exact H1 | exact H2 |].
  unfold setDrawingProperties. cbv zeta.
  repeat match goal with |- context [String.eqb ?a ?b] => destruct (String.eqb a b) end;
    reflexivity.
Qed.

(** The canvas after [clearCanvas]: the white fill, composed as the
    context says. *)
Lemma clearCanvas_bitmap (s : PrescriptionCanvas) :
  bitmap (ctx (clearCanvas s))
  = map (composite (globalCompositeOperation (ctx s))
           (scale (globalAlpha (ctx s)) (solid white))) (bitmap (ctx s)).
Proof.
  unfold clearCanvas. cbv zeta. rewrite ctx_showNotification.
  destruct (saveState_frame (on Main fillWhite s)) as (-> & _).
  rewrite ctx_on_Main. reflexivity.
Qed.

Lemma map_lookup (f : Pixel → Pixel) (b : Bitmap) (i : nat) (p : Pixel) :
  b !! i = Some p → map f b !! i = Some (f p).
Proof.
  revert i. induction b as [|d b IH]; intros [|i] H; try done.
  - cbn in H. by injection H as ->.
  - cbn. by apply IH.
Qed.

(** White at less than full opacity does not hide what is below. *)
Lemma composite_veil (a : Qc) (p : Pixel) :
  (1 - a)%Qc ≠ 0%Qc → composite SourceOver (scale a (solid white)) p = solid white →
  p = solid white.
Proof.
  intros Ha H.
  assert (K : ∀ v : Qc, (a * 1 + (1 - a * 1) * v)%Qc = 1%Qc → v = 1%Qc).
  { intros v Hv. assert (Hz : ((1 - a) * (v - 1))%Qc = 0%Qc).
    { transitivity ((a * 1 + (1 - a * 1) * v) - 1)%Qc; [ring | rewrite Hv; ring]. }
    apply Qcmult_integral in Hz as [Hz | Hz]; [done|].
    transitivity ((v - 1) + 1)%Qc; [ring | rewrite Hz; ring]. }
  apply pixel_eq; cbn [red green blue alpha solid white cred cgreen cblue];
    apply K; [apply (f_equal red) in H | apply (f_equal green) in H
             | apply (f_equal blue) in H | apply (f_equal alpha) in H]; exact H.
Qed.

(** [clearCanvas] fills with white through the opacity and the
    composition the selected tool left on the context.  Right after the
    choice of the pen the canvas ends white all over; right after the
    choice of the eraser it ends fully transparent, whatever it held. *)
Theorem clearCanvas_with_pen_and_with_eraser (s : PrescriptionCanvas) :
  let n := length (bitmap (ctx s)) in
  bitmap (ctx (clearCanvas (setTool "pen" s))) = replicate n (solid white)
  ∧ bitmap (ctx (clearCanvas (setTool "eraser" s))) = replicate n transparent.
Proof.
  intros n. subst n. split.
  - rewrite clearCanvas_bitmap.
    destruct (setTool_ctx "pen" s SourceOver 1%Qc 1%Qc eq_refl) as (-> & -> & ->).
    apply fill_white.
  - rewrite clearCanvas_bitmap.
    destruct (setTool_ctx "eraser" s DestinationOut 1%Qc (Q2Qc 2) eq_refl) as (-> & -> & ->).
    induction (bitmap (ctx s)) as [|d b IH]; [done|].
    cbn [map length replicate]. rewrite IH. f_equal. by apply composite_erases.
Qed.

(** Right after the choice of the brush or of the highlighter the white
    fill of [clearCanvas] is a veil: an opaque pixel with a colour channel
    at half intensity or less stays opaque and does not end white. *)
Theorem clearCanvas_keeps_dark_ink (tool : string) (s : PrescriptionCanvas) (i : nat)
  (p : Pixel) :
  tool = "brush" ∨ tool = "highlighter" →
  bitmap (ctx s) !! i = Some p → alpha p = 1%Qc →
  (red p ≤ Q2Qc 0.5 ∨ green p ≤ Q2Qc 0.5 ∨ blue p ≤ Q2Qc 0.5)%Qc →
  ∃ q, bitmap (ctx (clearCanvas (setTool tool s))) !! i = Some q
       ∧ alpha q = 1%Qc ∧ q ≠ solid white.
Proof.
  intros Ht Hp Hop Hdark.
  assert (∃ a m, toolTable tool = Some (SourceOver, a, m) ∧ (1 - a)%Qc ≠ 0%Qc)
    as (a & m & Hrow & Ha).
  { destruct Ht as [-> | ->].
    - exists (Q2Qc 0.8), (Q2Qc 1.5). split; [reflexivity|]. intros H.
      apply (f_equal (λ q, Qnum (this q))) in H. vm_compute in H. discriminate.
    - exists (Q2Qc 0.3), (Q2Qc 3). split; [reflexivity|]. intros H.
      apply (f_equal (λ q, Qnum (this q))) in H. vm_compute in H. discriminate. }
  rewrite clearCanvas_bitmap.
  destruct (setTool_ctx tool s SourceOver a m Hrow) as (-> & -> & ->).
  exists (composite SourceOver (scale a (solid white)) p). split_and!.
  - by apply map_lookup.
  - unfold composite, scale. cbn [alpha solid]. rewrite Hop. ring.
  - intros H. apply (composite_veil a p Ha) in H. subst p.
    assert (Hone : ¬ (1 ≤ Q2Qc 0.5)%Qc) by (clear; intros H; vm_compute in H; by apply H).
    cbn [red green blue solid white cred cgreen cblue] in Hdark.
    by destruct Hdark as [H | [H | H]].
Qed.

(** On the small page, after two strokes: the highlighter picked, then
    the canvas cleared; the first pixel, black, does not end white. *)
Lemma clearCanvas_keeps_dark_ink_witness :
  bitmap (ctx Demo.drawn) !! 0%nat = Some (solid black) ∧ alpha (solid black) = 1%Qc
  ∧ (red (solid black) ≤ Q2Qc 0.5)%Qc
  ∧ ∃ q, bitmap (ctx (clearCanvas (setTool "highlighter" Demo.drawn))) !! 0%nat = Some q
         ∧ alpha q = 1%Qc ∧ q ≠ solid white.
Proof.
  assert (Hp : bitmap (ctx Demo.drawn) !! 0%nat = Some (solid black)) by evaluated.
  assert (Hop : alpha (solid black) = 1%Qc) by reflexivity.
  assert (Hdark : (red (solid black) ≤ Q2Qc 0.5)%Qc) by (clear; vm_compute; discriminate).
  split_and!; [exact Hp | exact Hop | exact Hdark |].
  exact (clearCanvas_keeps_dark_ink "highlighter" Demo.drawn 0%nat (solid black)
           (or_intror eq_refl) Hp Hop (or_introl Hdark)).
Defined.

(** *** A page added, then deleted *)

(** Deleting the last page while it is the active one opens the page
    before it. *)
Lemma deletePage_at_end (a : PrescriptionCanvas) (before : list DataURL) (img : Bitmap)
  (w : DataURL) :
  quiet a → pages a = (before ++ [Png img]) ++ [w] →
  currentPageIndex a = array_length (before ++ [Png img]) →
  ∃ m, settle (deletePage a)
       = canvasStateLoaded (Png img) img
           (showNotification m LInfo
              (set_currentPageIndex (array_length before)
                 (set_pages (before ++ [Png img]) a))).
Proof.
  intros Hq Hp Hi.
  assert (Hlen : array_length (pages a) = array_length before + 2).
  { rewrite Hp. unfold array_length. rewrite !length_app. simpl. lia. }
  assert (Hl1 : array_length (before ++ [Png img]) = array_length before + 1).
  { unfold array_length. rewrite length_app. simpl. lia. }
  assert (Hdel : splice1 (pages a) (currentPageIndex a) = before ++ [Png img]).
  { unfold splice1. cbv zeta. rewrite Hi, Hp. case_decide; [unfold array_length in *; lia|].
    unfold array_length. rewrite Nat2Z.id.
    rewrite delete_middle. by rewrite app_nil_r. }
  assert (Hget : array_get (before ++ [Png img]) (array_length before) = Png img).
  { unfold array_get, array_length. case_decide; [|lia].
    rewrite Nat2Z.id. by rewrite list_lookup_middle. }
  assert (Hb : 0 ≤ array_length before) by (unfold array_length; lia).
  eexists. unfold deletePage. case_decide; [|lia]. cbv zeta.
  rewrite Hdel.
  cbn [currentPageIndex pages set_pages set_currentPageIndex].
  case_decide; [|lia].
  cbn [currentPageIndex pages set_pages set_currentPageIndex].
  replace (array_length (before ++ [Png img]) - 1) with (array_length before) by lia.
  unfold loadPage. cbn [currentPageIndex pages set_pages set_currentPageIndex].
  rewrite Hget. cbn [truthy is_empty_string negb andb].
  rewrite settle_loadCanvasState; [reflexivity|].
  unfold quiet in *. exact Hq.
Qed.

(** A page added and deleted at once (the decode completing): the page
    list is the one before the two calls, but the active page is the last
    of them, wherever the user was, and the canvas shows its picture.
    The history keeps the snapshot of the blank page that [addPage]
    pushed. *)
Theorem deletePage_after_addPage (s : PrescriptionCanvas) (before : list DataURL)
  (img : Bitmap) :
  quiet s → penState (ctx s) → pages s = before ++ [Png img] →
  let x := settle (deletePage (addPage s)) in
  pages x = pages s
  ∧ currentPageIndex x = array_length (pages s) - 1
  ∧ bitmap (ctx x) = onWhite img (length (bitmap (ctx s)))
  ∧ history x = history (addPage s) ∧ historyStep x = historyStep (addPage s).
Proof.
  intros Hq Hpen Hp x. subst x.
  destruct (addPage_pages s) as [Ha1 Ha2].
  destruct (addPage_shape s) as (y & m & Hshape & Hctx & _ & Hload & _ & _).
  assert (Hqa : quiet (addPage s)).
  { rewrite Hshape. unfold quiet in *. cbn [loading showNotification set_notification].
    destruct (saveState_frame y) as (_ & _ & _ & _ & _ & -> & _). by rewrite Hload. }
  assert (Hca : ctx (addPage s) = fillWhite (ctx s)).
  { rewrite Hshape, ctx_showNotification.
    destruct (saveState_frame y) as (-> & _). exact Hctx. }
  rewrite Hp in Ha1, Ha2. rewrite Hp. clear Hshape Hctx Hload y m.
  destruct (deletePage_at_end (addPage s) before img _ Hqa Ha1 Ha2) as [m ->].
  forget (addPage s) as a.
  destruct (fillWhite_pen (ctx s) Hpen) as [Hpen' Hb].
  destruct (canvasStateLoaded_pages (Png img) img
              (showNotification m LInfo
                 (set_currentPageIndex (array_length before)
                    (set_pages (before ++ [Png img]) a)))) as [-> ->].
  split_and!.
  - cbn [pages currentPageIndex showNotification set_notification set_currentPageIndex
         set_pages]. apply array_set_end.
  - cbn [pages currentPageIndex showNotification set_notification set_currentPageIndex
         set_pages]. unfold array_length. rewrite length_app. simpl. lia.
  - unfold canvasStateLoaded. cbv zeta. fields. rewrite Hca.
    rewrite drawImage_fillWhite_pen by exact Hpen'.
    rewrite Hb. by rewrite length_replicate.
  - reflexivity.
  - reflexivity.
Qed.

(** On the small page, after two strokes. *)
Lemma deletePage_after_addPage_witness :
  quiet Demo.drawn ∧ penState (ctx Demo.drawn)
  ∧ pages Demo.drawn = [] ++ [Png (bitmap (ctx Demo.drawn))]
  ∧ pages (settle (deletePage (addPage Demo.drawn))) = pages Demo.drawn
  ∧ currentPageIndex (settle (deletePage (addPage Demo.drawn)))
    = array_length (pages Demo.drawn) - 1.
Proof.
  assert (Hq : quiet Demo.drawn) by evaluated.
  assert (Hpen : penState (ctx Demo.drawn)) by (split; evaluated).
  assert (Hp : pages Demo.drawn = [] ++ [Png (bitmap (ctx Demo.drawn))]) by evaluated.
  destruct (deletePage_after_addPage Demo.drawn [] (bitmap (ctx Demo.drawn)) Hq Hpen Hp)
    as (H1 & H2 & _).
  split_and!; [exact Hq | exact Hpen | exact Hp | exact H1 | exact H2].
Defined.
